(** * Verification of the hat editor canvas (components/Editor.tsx)

    A shallow embedding of the interactive overlay editor: the geometry
    helpers, the scene state with its mutators, the pointer state machine,
    the hat image cache and the export operations.

    Numbers.  JavaScript numbers are IEEE-754 doubles.  They are modelled
    here as the real numbers extended with [+Infinity], [-Infinity] and
    [NaN]: the exceptional values and the way they propagate through the
    arithmetic are kept, rounding and overflow are abstracted away (every
    finite operation is exact), and the two zeros are identified (a zero
    divisor behaves as [+0], which is what [Math.sqrt] and
    [Math.pow(_, 2)] produce in the code below).

    State.  The component state is one record, [EditorState]; every
    handler and every completion callback is a function on it and runs
    against the current state, one event at a time (the closures of the
    React component are taken to be those of the latest render).  The
    add-hat effect is the exception the code makes: its callback reads
    the [image] and [hats] of the render that started the effect, and
    the effect runs again whenever they change.  [addHat] is a run that
    resolves in the render that started it; [EffectRun] and
    [resolveEffect] give a run with the values its closure holds,
    resolved in any later state.

    Doubles.  Where a statement depends on rounding or overflow, the
    arithmetic of the line in question is repeated on binary64 floats in
    [Float64].

    Environment.  What the browser supplies is an input of the function
    that uses it: the pointer position and the canvas geometry of a
    pointer event, the clock and the random numbers of a hat placement,
    the decoded image of a file, the outcome of the clipboard calls. *)

From Stdlib Require Import Reals Lra Lia ZArith String.
From Stdlib Require Floats.PrimFloat Floats.SpecFloat Floats.FloatOps.
From Stdlib Require Floats.FloatAxioms.
From stdpp Require Import base option list gmap strings pretty.

Open Scope R_scope.

(** ** JavaScript numbers *)

Module JS.

Inductive number : Type :=
| Fin (r : R)
| PosInf
| NegInf
| NaN.

Definition isNaN (a : number) : bool :=
  match a with NaN => true | _ => false end.

Definition isFinite (a : number) : bool :=
  match a with Fin _ => true | _ => false end.

(** Sign of a real, as needed by the rules for infinities. *)
Definition sgn (r : R) : comparison :=
  match total_order_T r 0 with
  | inleft (left _) => Lt
  | inleft (right _) => Eq
  | inright _ => Gt
  end.

Definition inf (positive : bool) : number :=
  if positive then PosInf else NegInf.

(** [inf * r] and [inf / r] for a finite [r]. *)
Definition scale_inf (positive : bool) (r : R) : number :=
  match sgn r with
  | Gt => inf positive
  | Lt => inf (negb positive)
  | Eq => NaN
  end.

Definition neg (a : number) : number :=
  match a with
  | Fin r => Fin (- r)
  | PosInf => NegInf
  | NegInf => PosInf
  | NaN => NaN
  end.

Definition add (a b : number) : number :=
  match a, b with
  | NaN, _ | _, NaN => NaN
  | Fin x, Fin y => Fin (x + y)
  | PosInf, NegInf | NegInf, PosInf => NaN
  | PosInf, _ | _, PosInf => PosInf
  | NegInf, _ | _, NegInf => NegInf
  end.

Definition sub (a b : number) : number := add a (neg b).

Definition mul (a b : number) : number :=
  match a, b with
  | NaN, _ | _, NaN => NaN
  | Fin x, Fin y => Fin (x * y)
  | PosInf, Fin y | Fin y, PosInf => scale_inf true y
  | NegInf, Fin y | Fin y, NegInf => scale_inf false y
  | PosInf, PosInf | NegInf, NegInf => PosInf
  | PosInf, NegInf | NegInf, PosInf => NegInf
  end.

(** Division: a finite value over zero is an infinity of its sign, and
    [0 / 0] is [NaN]. *)
Definition div (a b : number) : number :=
  match a, b with
  | NaN, _ | _, NaN => NaN
  | Fin x, Fin y =>
      if Req_dec_T y 0
      then match sgn x with Gt => PosInf | Lt => NegInf | Eq => NaN end
      else Fin (x / y)
  | Fin _, (PosInf | NegInf) => Fin 0
  | PosInf, Fin y => if Rle_dec 0 y then PosInf else NegInf
  | NegInf, Fin y => if Rle_dec 0 y then NegInf else PosInf
  | (PosInf | NegInf), (PosInf | NegInf) => NaN
  end.

(** Comparisons are false as soon as one side is [NaN]. *)
Definition leb (a b : number) : bool :=
  match a, b with
  | NaN, _ | _, NaN => false
  | Fin x, Fin y => if Rle_dec x y then true else false
  | NegInf, _ | _, PosInf => true
  | _, _ => false
  end.

Definition geb (a b : number) : bool := leb b a.

Definition ltb (a b : number) : bool :=
  match a, b with
  | NaN, _ | _, NaN => false
  | Fin x, Fin y => if Rlt_dec x y then true else false
  | NegInf, NegInf | PosInf, PosInf => false
  | NegInf, _ | _, PosInf => true
  | _, _ => false
  end.

(** [a === b] on numbers: [NaN] differs from everything. *)
Definition eqb (a b : number) : bool :=
  match a, b with
  | Fin x, Fin y => if Req_dec_T x y then true else false
  | PosInf, PosInf | NegInf, NegInf => true
  | _, _ => false
  end.

(** [Math.max(a, b)]: [NaN] if either argument is. *)
Definition max (a b : number) : number :=
  match a, b with
  | NaN, _ | _, NaN => NaN
  | _, _ => if leb a b then b else a
  end.

(** [Math.sqrt]. *)
Definition sqrt (a : number) : number :=
  match a with
  | Fin x => if Rlt_dec x 0 then NaN else Fin (R_sqrt.sqrt x)
  | PosInf => PosInf
  | NegInf | NaN => NaN
  end.

(** [Math.pow(a, 2)]. *)
Definition pow2 (a : number) : number :=
  match a with
  | Fin x => Fin (x * x)
  | PosInf | NegInf => PosInf
  | NaN => NaN
  end.

(** [Math.cos], [Math.sin]: [NaN] outside the finite numbers. *)
Definition cos (a : number) : number :=
  match a with Fin x => Fin (Rtrigo_def.cos x) | _ => NaN end.

Definition sin (a : number) : number :=
  match a with Fin x => Fin (Rtrigo_def.sin x) | _ => NaN end.

Definition PI : number := Fin Rtrigo1.PI.

(** [Math.atan2(y, x)] on the reals: the angle of the vector [(x, y)],
    in [(-PI, PI]]. *)
Definition Ratan2 (y x : R) : R :=
  match sgn x with
  | Gt => atan (y / x)
  | Lt => if Rle_dec 0 y then atan (y / x) + Rtrigo1.PI
          else atan (y / x) - Rtrigo1.PI
  | Eq => match sgn y with
          | Gt => Rtrigo1.PI / 2
          | Lt => - (Rtrigo1.PI / 2)
          | Eq => 0
          end
  end.

Definition atan2 (y x : number) : number :=
  match y, x with
  | NaN, _ | _, NaN => NaN
  | Fin b, Fin a => Fin (Ratan2 b a)
  | PosInf, PosInf => Fin (Rtrigo1.PI / 4)
  | PosInf, NegInf => Fin (3 * Rtrigo1.PI / 4)
  | PosInf, Fin _ => Fin (Rtrigo1.PI / 2)
  | NegInf, PosInf => Fin (- (Rtrigo1.PI / 4))
  | NegInf, NegInf => Fin (- (3 * Rtrigo1.PI / 4))
  | NegInf, Fin _ => Fin (- (Rtrigo1.PI / 2))
  | Fin _, PosInf => Fin 0
  | Fin b, NegInf => if Rle_dec 0 b then Fin Rtrigo1.PI else Fin (- Rtrigo1.PI)
  end.

(** A non-negative integer attribute (an image's [width]) as a number. *)
Definition ofN (n : N) : number := Fin (IZR (Z.of_N n)).

End JS.

Export JS(number, Fin, PosInf, NegInf, NaN).

Declare Scope js_scope.
Delimit Scope js_scope with J.
Bind Scope js_scope with JS.number.
Infix "+" := JS.add : js_scope.
Infix "-" := JS.sub : js_scope.
Infix "*" := JS.mul : js_scope.
Infix "/" := JS.div : js_scope.
Notation "- a" := (JS.neg a) : js_scope.
Infix "<=?" := JS.leb : js_scope.
Infix ">=?" := JS.geb : js_scope.
Infix "<?" := JS.ltb : js_scope.

Open Scope js_scope.

(** ** Data model (types.ts and the component state of Editor.tsx) *)

(** The part of an [HTMLImageElement] the editor reads. *)
Record Image : Type := mkImage {
  img_width : N;
  img_height : N;
}.

Record Hat : Type := mkHat {
  h_id : string;
  h_name : string;
  h_src : string;
}.

Record PlacedHat : Type := mkPlacedHat {
  hat_id : string;
  hat_name : string;
  hat_src : string;
  hat_uid : string;
  hat_x : number;
  hat_y : number;
  hat_scale : number;
  hat_rotation : number;
  hat_isMirrored : bool;
}.

Inductive Mode : Type := NONE | DRAG | ROTATE | SCALE.

Record StartInteraction : Type := mkStart {
  mouseX : number;
  mouseY : number;
  startRotation : number;
  startScale : number;
  startX : number;
  startY : number;
}.

Record Point : Type := mkPoint {
  pt_x : number;
  pt_y : number;
}.

Record Corners : Type := mkCorners {
  tl : Point;
  tr : Point;
  br : Point;
  bl : Point;
  width : number;
  height : number;
}.

Record Dimensions : Type := mkDimensions {
  dim_width : number;
  dim_height : number;
}.

Definition MIN_CANVAS_WIDTH : number := Fin 2048.
Definition BASE_HANDLE_RADIUS : number := Fin 12.

(** ** Geometry *)

Definition getRenderDimensions (img : Image) : Dimensions :=
  if JS.ofN (img_width img) >=? MIN_CANVAS_WIDTH
  then {| dim_width := JS.ofN (img_width img);
          dim_height := JS.ofN (img_height img) |}
  else
    let scale := MIN_CANVAS_WIDTH / JS.ofN (img_width img) in
    {| dim_width := MIN_CANVAS_WIDTH;
       dim_height := JS.ofN (img_height img) * scale |}.

Definition getTransformedCorners (loadedImages : gmap string Image)
    (hat : PlacedHat) : option Corners :=
  match loadedImages !! hat_src hat with
  | None => None
  | Some img =>
      let w := JS.ofN (img_width img) * hat_scale hat in
      let h := JS.ofN (img_height img) * hat_scale hat in
      let rad := (hat_rotation hat * JS.PI) / Fin 180 in
      let cos := JS.cos rad in
      let sin := JS.sin rad in
      let cx := hat_x hat in
      let cy := hat_y hat in
      let rotatePoint (px py : number) : Point :=
        {| pt_x := px * cos - py * sin + cx;
           pt_y := px * sin + py * cos + cy |} in
      let tr := rotatePoint (w / Fin 2) (- h / Fin 2) in
      let br := rotatePoint (w / Fin 2) (h / Fin 2) in
      let bl := rotatePoint (- w / Fin 2) (h / Fin 2) in
      let tl := rotatePoint (- w / Fin 2) (- h / Fin 2) in
      Some {| tl := tl; tr := tr; br := br; bl := bl;
              width := w; height := h |}
  end.

Definition isPointInCircle (px py cx cy radius : number) : bool :=
  JS.sqrt (JS.pow2 (px - cx) + JS.pow2 (py - cy)) <=? radius.

(** The geometry as the specification words it: a box of the scaled
    raster size around the origin, its corners rotated by the angle in
    radians and then moved to the instance centre. *)
Module GeometrySpec.

Definition toRadians (degrees : number) : number :=
  degrees * JS.PI / Fin 180.

Definition rotateAboutOrigin (theta : number) (p : Point) : Point :=
  {| pt_x := pt_x p * JS.cos theta - pt_y p * JS.sin theta;
     pt_y := pt_x p * JS.sin theta + pt_y p * JS.cos theta |}.

Definition translateBy (c p : Point) : Point :=
  {| pt_x := pt_x p + pt_x c; pt_y := pt_y p + pt_y c |}.

Definition place (hat : PlacedHat) (p : Point) : Point :=
  translateBy {| pt_x := hat_x hat; pt_y := hat_y hat |}
    (rotateAboutOrigin (toRadians (hat_rotation hat)) p).

Definition transformedCorners (hat : PlacedHat) (raster : Image) : Corners :=
  let boxW := JS.ofN (img_width raster) * hat_scale hat in
  let boxH := JS.ofN (img_height raster) * hat_scale hat in
  let halfW := boxW / Fin 2 in
  let halfH := boxH / Fin 2 in
  {| tl := place hat {| pt_x := - halfW; pt_y := - halfH |};
     tr := place hat {| pt_x := halfW; pt_y := - halfH |};
     br := place hat {| pt_x := halfW; pt_y := halfH |};
     bl := place hat {| pt_x := - halfW; pt_y := halfH |};
     width := boxW; height := boxH |}.

End GeometrySpec.

(** ** Component state *)

Record EditorState : Type := mkState {
  image : option Image;
  hats : list PlacedHat;
  selectedHatId : option string;
  loadedImages : gmap string Image;
  isDragging : bool;
  mode : Mode;
  startInteraction : StartInteraction;
}.

(** The state of a freshly mounted editor (the [useState] initial values). *)
Definition initialState : EditorState :=
  {| image := None;
     hats := [];
     selectedHatId := None;
     loadedImages := ∅;
     isDragging := false;
     mode := NONE;
     startInteraction :=
       {| mouseX := Fin 0; mouseY := Fin 0;
          startRotation := Fin 0; startScale := Fin 1;
          startX := Fin 0; startY := Fin 0 |} |}.

(** The state setters.  [setHats] takes the updater function, as every
    call but the one in [processFile] does. *)
Definition setImage (img : Image) (st : EditorState) : EditorState :=
  mkState (Some img) (hats st) (selectedHatId st) (loadedImages st)
    (isDragging st) (mode st) (startInteraction st).

Definition setHats (f : list PlacedHat -> list PlacedHat)
    (st : EditorState) : EditorState :=
  mkState (image st) (f (hats st)) (selectedHatId st) (loadedImages st)
    (isDragging st) (mode st) (startInteraction st).

Definition setSelectedHatId (sel : option string)
    (st : EditorState) : EditorState :=
  mkState (image st) (hats st) sel (loadedImages st)
    (isDragging st) (mode st) (startInteraction st).

Definition setLoadedImages (f : gmap string Image -> gmap string Image)
    (st : EditorState) : EditorState :=
  mkState (image st) (hats st) (selectedHatId st) (f (loadedImages st))
    (isDragging st) (mode st) (startInteraction st).

Definition setIsDragging (b : bool) (st : EditorState) : EditorState :=
  mkState (image st) (hats st) (selectedHatId st) (loadedImages st)
    b (mode st) (startInteraction st).

Definition setMode (m : Mode) (st : EditorState) : EditorState :=
  mkState (image st) (hats st) (selectedHatId st) (loadedImages st)
    (isDragging st) m (startInteraction st).

Definition setStartInteraction (s : StartInteraction)
    (st : EditorState) : EditorState :=
  mkState (image st) (hats st) (selectedHatId st) (loadedImages st)
    (isDragging st) (mode st) s.

(** Truthiness of a [string | null]: [null] and the empty string are
    falsy. *)
Definition truthy (s : option string) : bool :=
  match s with
  | Some s => negb (String.eqb s "")
  | None => false
  end.

(** [hats.find(h => h.uid === selectedHatId)]. *)
Definition findHat (uid : string) (l : list PlacedHat) : option PlacedHat :=
  List.find (fun h => String.eqb (hat_uid h) uid) l.

(** ** Background file loading *)

(** A file handed to the editor: its MIME type and the image its data
    decodes to, if it does ([img.onload] never fires otherwise). *)
Record File : Type := mkFile {
  file_type : string;
  file_decoded : option Image;
}.

Definition processFile (st : EditorState) (file : File) : EditorState :=
  if negb (String.prefix "image/" (file_type file)) then st
  else
    match file_decoded file with
    | None => st
    | Some img =>
        setSelectedHatId None (setHats (fun _ => []) (setImage img st))
    end.

Definition handleDragOver (st : EditorState) : EditorState :=
  setIsDragging true st.

Definition handleDragLeave (st : EditorState) : EditorState :=
  setIsDragging false st.

Definition handleDrop (st : EditorState) (files : list File) : EditorState :=
  let st' := setIsDragging false st in
  match files with
  | file :: _ => processFile st' file
  | [] => st'
  end.

(** ** Hat image cache *)

(** What a call of [loadHatImage] does: resolve at once with the cached
    image, or create a new [Image] element for the path and wait for its
    decode. *)
Inductive LoadResult : Type :=
| Resolved (img : Image)
| Decoding (src : string).

Definition loadHatImage (loaded : gmap string Image) (src : string)
    : LoadResult :=
  match loaded !! src with
  | Some img => Resolved img
  | None => Decoding src
  end.

(** The [img.onload] callback of a pending decode. *)
Definition hatImageOnload (src : string) (img : Image)
    (st : EditorState) : EditorState :=
  setLoadedImages (fun prev => <[src := img]> prev) st.

(** The cache seen from outside: requests and decode completions, with
    the log of decodes that were started. *)
Inductive CacheEvent : Type :=
| Request (src : string)
| Onload (src : string) (img : Image).

Record CacheRun : Type := mkCacheRun {
  cache : gmap string Image;
  decodes : list string;
}.

Definition cacheStep (c : CacheRun) (ev : CacheEvent) : CacheRun :=
  match ev with
  | Request src =>
      match loadHatImage (cache c) src with
      | Resolved _ => c
      | Decoding s => {| cache := cache c; decodes := s :: decodes c |}
      end
  | Onload src img =>
      {| cache := <[src := img]> (cache c); decodes := decodes c |}
  end.

Definition cacheRun (c : CacheRun) (evs : list CacheEvent) : CacheRun :=
  fold_left cacheStep evs c.

(** Number of decodes started for a path. *)
Definition decodeCount (src : string) (c : CacheRun) : nat :=
  length (List.filter (String.eqb src) (decodes c)).

(** ** Adding a hat *)

(** What the environment supplies to one run of the add-hat callback:
    the clock, the digits of the first [Math.random()] after [slice(2)],
    and the two further [Math.random()] values of the jitter. *)
Record AddEnv : Type := mkAddEnv {
  now : N;
  randomDigits : string;
  randomX : number;
  randomY : number;
}.

Definition newUid (env : AddEnv) : string :=
  pretty (now env) +:+ randomDigits env.

(** The [then] callback of the add-hat effect, run with the decoded
    raster [img]. *)
Definition addHat (st : EditorState) (hatToAdd : Hat) (img : Image)
    (env : AddEnv) : EditorState :=
  let uid := newUid env in
  let '(initialScale, initialX, initialY) :=
    match image st with
    | None => (Fin 1, Fin 400, Fin 300)
    | Some bg =>
        let d := getRenderDimensions bg in
        let cvsW := dim_width d in
        let cvsH := dim_height d in
        let targetWidth := cvsW * Fin 0.35 in
        let initialScale := targetWidth / JS.ofN (img_width img) in
        let initialX := cvsW / Fin 2 in
        let initialY := cvsH / Fin 3 in
        if (0 <? length (hats st))%nat
        then (initialScale,
              initialX + (randomX env - Fin 0.5) * Fin 40,
              initialY + (randomY env - Fin 0.5) * Fin 40)
        else (initialScale, initialX, initialY)
    end in
  let newHat :=
    {| hat_id := h_id hatToAdd;
       hat_name := h_name hatToAdd;
       hat_src := h_src hatToAdd;
       hat_uid := uid;
       hat_x := initialX;
       hat_y := initialY;
       hat_scale := initialScale;
       hat_rotation := Fin 0;
       hat_isMirrored := false |} in
  setSelectedHatId (Some uid) (setHats (fun prev => prev ++ [newHat]) st).

(** The whole effect for a requested hat: ask the cache, and once the
    raster is there run the callback.  [decoded] is what a new decode of
    the path yields ([None]: [onerror], the promise is rejected and
    nothing is added). *)
Definition addHatEffect (st : EditorState) (hatToAdd : Hat)
    (decoded : option Image) (env : AddEnv) : EditorState :=
  match loadHatImage (loadedImages st) (h_src hatToAdd) with
  | Resolved img => addHat st hatToAdd img env
  | Decoding src =>
      match decoded with
      | Some img => addHat (hatImageOnload src img st) hatToAdd img env
      | None => st
      end
  end.

(** ** Pointer input *)

(** A mouse or single-touch event on the canvas, with what the DOM
    reports at that moment: the pointer in client coordinates, the
    canvas's bounding client rectangle and its backing size. *)
Record PointerEvent : Type := mkPointerEvent {
  clientX : number;
  clientY : number;
  rect_left : number;
  rect_top : number;
  rect_width : number;
  rect_height : number;
  canvas_width : number;
  canvas_height : number;
}.

Definition getCanvasCoords (e : PointerEvent) : Point :=
  let scaleX := canvas_width e / rect_width e in
  let scaleY := canvas_height e / rect_height e in
  {| pt_x := (clientX e - rect_left e) * scaleX;
     pt_y := (clientY e - rect_top e) * scaleY |}.

Definition getUiScale (e : PointerEvent) : number :=
  if JS.eqb (rect_width e) (Fin 0) then Fin 1
  else canvas_width e / rect_width e.

(** Radius of a control handle as [drawHandle] draws it. *)
Definition handleRadius (uiScale : number) : number :=
  BASE_HANDLE_RADIUS * uiScale.

Definition deleteSelectedHat (st : EditorState) : EditorState :=
  match selectedHatId st with
  | Some sel =>
      if truthy (Some sel)
      then setMode NONE
             (setSelectedHatId None
                (setHats
                   (fun prev =>
                      List.filter
                        (fun h => negb (String.eqb (hat_uid h) sel)) prev)
                   st))
      else st
  | None => st
  end.

(** The baseline every gesture captures at pointer-down. *)
Definition captureStart (x y : number) (hat : PlacedHat) : StartInteraction :=
  {| mouseX := x; mouseY := y;
     startRotation := hat_rotation hat; startScale := hat_scale hat;
     startX := hat_x hat; startY := hat_y hat |}.

Definition flipHat (h : PlacedHat) : PlacedHat :=
  mkPlacedHat (hat_id h) (hat_name h) (hat_src h) (hat_uid h)
    (hat_x h) (hat_y h) (hat_scale h) (hat_rotation h)
    (negb (hat_isMirrored h)).

(** Step 1 of [handleMouseDown]: the controls of the selected hat.
    [Some st'] is an early [return] with the state [st']; [None] falls
    through to the hit test of the hats. *)
Definition checkControls (st : EditorState) (x y hitRadius : number)
    : option EditorState :=
  match selectedHatId st with
  | None => None
  | Some sel =>
      if negb (truthy (Some sel)) then None
      else
        match findHat sel (hats st) with
        | None => None
        | Some hat =>
            match getTransformedCorners (loadedImages st) hat with
            | None => None
            | Some corners =>
                if isPointInCircle x y (pt_x (tl corners)) (pt_y (tl corners))
                     hitRadius
                then Some (deleteSelectedHat st)
                else if isPointInCircle x y (pt_x (tr corners))
                          (pt_y (tr corners)) hitRadius
                then Some (setStartInteraction (captureStart x y hat)
                             (setMode ROTATE st))
                else if isPointInCircle x y (pt_x (br corners))
                          (pt_y (br corners)) hitRadius
                then Some (setStartInteraction (captureStart x y hat)
                             (setMode SCALE st))
                else if isPointInCircle x y (pt_x (bl corners))
                          (pt_y (bl corners)) hitRadius
                then Some (setHats
                             (fun prev =>
                                map (fun h =>
                                       if String.eqb (hat_uid h) sel
                                       then flipHat h else h) prev)
                             st)
                else None
            end
        end
  end.

(** The test of one hat in step 2: the pointer taken into the hat's own
    frame and compared with its half extents.  A hat whose raster is not
    loaded is skipped. *)
Definition hitsHat (loaded : gmap string Image) (x y : number)
    (hat : PlacedHat) : bool :=
  match loaded !! hat_src hat with
  | None => false
  | Some img =>
      let dx := x - hat_x hat in
      let dy := y - hat_y hat in
      let rad := (- hat_rotation hat * JS.PI) / Fin 180 in
      let localX := dx * JS.cos rad - dy * JS.sin rad in
      let localY := dx * JS.sin rad + dy * JS.cos rad in
      let w := JS.ofN (img_width img) * hat_scale hat in
      let h := JS.ofN (img_height img) * hat_scale hat in
      (localX >=? - w / Fin 2) && (localX <=? w / Fin 2)
      && (localY >=? - h / Fin 2) && (localY <=? h / Fin 2)
  end.

(** The loop [for (i = hats.length - 1; i >= 0; i--)]: [hitScan _ _ _ l n]
    looks at [l[n-1]], [l[n-2]], ..., [l[0]] and stops at the first hit. *)
Fixpoint hitScan (loaded : gmap string Image) (x y : number)
    (l : list PlacedHat) (n : nat) : option PlacedHat :=
  match n with
  | O => None
  | S i =>
      match l !! i with
      | Some hat =>
          if hitsHat loaded x y hat then Some hat
          else hitScan loaded x y l i
      | None => hitScan loaded x y l i
      end
  end.

Definition handleMouseDown (st : EditorState) (e : PointerEvent)
    : EditorState :=
  match image st with
  | None => st
  | Some _ =>
      let p := getCanvasCoords e in
      let x := pt_x p in
      let y := pt_y p in
      let uiScale := getUiScale e in
      let hitRadius := BASE_HANDLE_RADIUS * uiScale * Fin 1.5 in
      match checkControls st x y hitRadius with
      | Some st' => st'
      | None =>
          match hitScan (loadedImages st) x y (hats st) (length (hats st)) with
          | Some hat =>
              setStartInteraction (captureStart x y hat)
                (setMode DRAG
                   (setHats
                      (fun prev =>
                         List.filter
                           (fun h =>
                              negb (String.eqb (hat_uid h) (hat_uid hat)))
                           prev
                         ++ [hat])
                      (setSelectedHatId (Some (hat_uid hat)) st)))
          | None => setSelectedHatId None st
          end
      end
  end.

Definition withPosition (hat : PlacedHat) (x y : number) : PlacedHat :=
  mkPlacedHat (hat_id hat) (hat_name hat) (hat_src hat) (hat_uid hat)
    x y (hat_scale hat) (hat_rotation hat) (hat_isMirrored hat).

Definition withRotation (hat : PlacedHat) (r : number) : PlacedHat :=
  mkPlacedHat (hat_id hat) (hat_name hat) (hat_src hat) (hat_uid hat)
    (hat_x hat) (hat_y hat) (hat_scale hat) r (hat_isMirrored hat).

Definition withScale (hat : PlacedHat) (s : number) : PlacedHat :=
  mkPlacedHat (hat_id hat) (hat_name hat) (hat_src hat) (hat_uid hat)
    (hat_x hat) (hat_y hat) s (hat_rotation hat) (hat_isMirrored hat).

(** The update [handleMouseMove] applies to the selected hat. *)
Definition moveHat (m : Mode) (s : StartInteraction) (x y : number)
    (hat : PlacedHat) : PlacedHat :=
  match m with
  | DRAG =>
      let dx := x - mouseX s in
      let dy := y - mouseY s in
      withPosition hat (startX s + dx) (startY s + dy)
  | ROTATE =>
      let dx := x - hat_x hat in
      let dy := y - hat_y hat in
      let angle := JS.atan2 dy dx * (Fin 180 / JS.PI) in
      let startDx := mouseX s - hat_x hat in
      let startDy := mouseY s - hat_y hat in
      let startAngle := JS.atan2 startDy startDx * (Fin 180 / JS.PI) in
      withRotation hat (startRotation s + (angle - startAngle))
  | SCALE =>
      let dist :=
        JS.sqrt (JS.pow2 (x - hat_x hat) + JS.pow2 (y - hat_y hat)) in
      let startDist :=
        JS.sqrt (JS.pow2 (mouseX s - hat_x hat)
                 + JS.pow2 (mouseY s - hat_y hat)) in
      let newScale := startScale s * (dist / startDist) in
      withScale hat (JS.max (Fin 0.1) newScale)
  | NONE => hat
  end.

Definition handleMouseMove (st : EditorState) (e : PointerEvent)
    : EditorState :=
  match mode st, selectedHatId st with
  | NONE, _ | _, None => st
  | m, Some sel =>
      if negb (truthy (Some sel)) then st
      else
        let p := getCanvasCoords e in
        setHats
          (fun prev =>
             map (fun hat =>
                    if negb (String.eqb (hat_uid hat) sel) then hat
                    else moveHat m (startInteraction st) (pt_x p) (pt_y p) hat)
               prev)
          st
  end.

Definition handleMouseUp (st : EditorState) : EditorState :=
  setMode NONE st.

(** ** Rendering *)

(** What is on the canvas after a [draw]: the background (the image, or
    the fill colour when there is none), the hats drawn in z-order with
    their rasters, and the selection outline with its four handles when
    they were drawn. *)
Inductive Backdrop : Type :=
| BackgroundImage (img : Image)
| BackgroundFill (colour : string).

Record Frame : Type := mkFrame {
  f_backdrop : Backdrop;
  f_hats : list (PlacedHat * Image);
  f_controls : option Corners;
}.

Definition drawnHats (st : EditorState) : list (PlacedHat * Image) :=
  omap (fun hat =>
          match loadedImages st !! hat_src hat with
          | Some img => Some (hat, img)
          | None => None
          end)
    (hats st).

Definition drawnControls (st : EditorState) (showControls : bool)
    : option Corners :=
  match image st, selectedHatId st with
  | Some _, Some sel =>
      if showControls && truthy (Some sel)
      then match findHat sel (hats st) with
           | Some selectedHat =>
               getTransformedCorners (loadedImages st) selectedHat
           | None => None
           end
      else None
  | _, _ => None
  end.

(** [draw(showControls)] on a mounted canvas. *)
Definition draw (st : EditorState) (showControls : bool) : Frame :=
  {| f_backdrop :=
       match image st with
       | Some img => BackgroundImage img
       | None =>
           BackgroundFill (if isDragging st then "#f2faff" else "#ffffff")
       end;
     f_hats := drawnHats st;
     f_controls := drawnControls st showControls |}.

(** ** Export *)

(** The world the export operations act on: the canvas ([None] when
    [canvasRef.current] is null), the system clipboard and the files
    saved so far. *)
Record World : Type := mkWorld {
  canvas : option Frame;
  clipboard : option Frame;
  downloads : list (string * Frame);
}.

(** Whether the browser encodes the canvas to a blob, and whether it
    accepts the clipboard write. *)
Record ExportEnv : Type := mkExportEnv {
  blobEncodes : bool;
  clipboardAllows : bool;
}.

(** Computations on the world that return or throw. *)
Inductive Outcome (A : Type) : Type :=
| Returned (a : A)
| Thrown (err : string).
Arguments Returned {A} a.
Arguments Thrown {A} err.

Definition Eff (A : Type) : Type := World -> Outcome A * World.

Definition ret {A : Type} (a : A) : Eff A := fun w => (Returned a, w).

Definition throw {A : Type} (err : string) : Eff A :=
  fun w => (Thrown err, w).

Definition bind {A B : Type} (m : Eff A) (k : A -> Eff B) : Eff B :=
  fun w =>
    match m w with
    | (Returned a, w') => k a w'
    | (Thrown err, w') => (Thrown err, w')
    end.

Definition tryCatch {A : Type} (m : Eff A) (handler : string -> Eff A)
    : Eff A :=
  fun w =>
    match m w with
    | (Returned a, w') => (Returned a, w')
    | (Thrown err, w') => handler err w'
    end.

Notation "x <- m ;; k" := (bind m (fun x => k))
  (at level 100, m at next level, right associativity).
Notation "m ;;; k" := (bind m (fun _ => k))
  (at level 100, right associativity).

(** [draw] as an action: nothing happens without a canvas. *)
Definition drawOn (st : EditorState) (showControls : bool) : Eff unit :=
  fun w =>
    match canvas w with
    | None => (Returned tt, w)
    | Some _ =>
        (Returned tt,
         mkWorld (Some (draw st showControls)) (clipboard w) (downloads w))
    end.

(** [canvas.toDataURL('image/png')] followed by the click on the link. *)
Definition saveAs (filename : string) : Eff unit :=
  fun w =>
    match canvas w with
    | None => (Returned tt, w)
    | Some frame =>
        (Returned tt,
         mkWorld (canvas w) (clipboard w) (downloads w ++ [(filename, frame)]))
    end.

(** [canvas.toBlob], resolving with [null] when the encoding fails. *)
Definition toBlob (env : ExportEnv) : Eff (option Frame) :=
  fun w => (Returned (if blobEncodes env then canvas w else None), w).

(** [navigator.clipboard.write], rejecting when the write is refused. *)
Definition clipboardWrite (env : ExportEnv) (blob : Frame) : Eff unit :=
  fun w =>
    if clipboardAllows env
    then (Returned tt, mkWorld (canvas w) (Some blob) (downloads w))
    else (Thrown "NotAllowedError", w).

Definition handleDownload (st : EditorState) : Eff unit :=
  fun w =>
    match canvas w, image st with
    | Some _, Some _ =>
        (drawOn st false ;;;
         saveAs "christmas-avatar.png" ;;;
         drawOn st true) w
    | _, _ => (Returned tt, w)
    end.

Definition handleCopy (st : EditorState) (env : ExportEnv) : Eff bool :=
  fun w =>
    match canvas w, image st with
    | Some _, Some _ =>
        (drawOn st false ;;;
         tryCatch
           (blob <- toBlob env ;;
            match blob with
            | None => throw "Failed to create blob"
            | Some b =>
                clipboardWrite env b ;;;
                drawOn st true ;;;
                ret true
            end)
           (fun _ => drawOn st true ;;; ret false)) w
    | _, _ => (Returned false, w)
    end.

(** ** The editor as a transition system *)

Inductive Event : Type :=
| EvLoadFile (file : File)
| EvDragOver
| EvDragLeave
| EvDrop (files : list File)
| EvAddHat (hatToAdd : Hat) (decoded : option Image) (env : AddEnv)
| EvPointerDown (e : PointerEvent)
| EvPointerMove (e : PointerEvent)
| EvPointerUp.

Definition step (st : EditorState) (ev : Event) : EditorState :=
  match ev with
  | EvLoadFile file => processFile st file
  | EvDragOver => handleDragOver st
  | EvDragLeave => handleDragLeave st
  | EvDrop files => handleDrop st files
  | EvAddHat hatToAdd decoded env => addHatEffect st hatToAdd decoded env
  | EvPointerDown e => handleMouseDown st e
  | EvPointerMove e => handleMouseMove st e
  | EvPointerUp => handleMouseUp st
  end.

Definition run (st : EditorState) (evs : list Event) : EditorState :=
  fold_left step evs st.

(** The states the editor can be in: those some sequence of events leads
    to from the initial one. *)
Inductive reachable : EditorState -> Prop :=
| reachable_init : reachable initialState
| reachable_step st ev : reachable st -> reachable (step st ev).

(** Scene validity: a selection names a hat of the scene. *)
Definition selectionValid (st : EditorState) : Prop :=
  forall sel, selectedHatId st = Some sel ->
    exists hat, In hat (hats st) /\ hat_uid hat = sel.

(** Every uid is a non-empty string, so that a selection is truthy. *)
Definition uidsNonEmpty (st : EditorState) : Prop :=
  forall hat, In hat (hats st) -> hat_uid hat <> "".

Definition sceneInvariant (st : EditorState) : Prop :=
  selectionValid st /\ uidsNonEmpty st.

(** The raster of every placed hat is in the cache. *)
Definition rastersLoaded (st : EditorState) : Prop :=
  forall hat, In hat (hats st) -> is_Some (loadedImages st !! hat_src hat).

(** The scene mutators named by the specification, on their own. *)
Inductive Mutator : Type :=
| MAddOverlay (hatToAdd : Hat) (img : Image) (env : AddEnv)
| MPointerDown (e : PointerEvent)
| MDeleteSelected
| MToggleMirror
| MLoadBackground (file : File).

(** [toggleMirror] is the update of the flip handle, applied to the
    selected hat. *)
Definition toggleMirror (st : EditorState) : EditorState :=
  match selectedHatId st with
  | Some sel =>
      setHats
        (fun prev =>
           map (fun h => if String.eqb (hat_uid h) sel then flipHat h else h)
             prev)
        st
  | None => st
  end.

Definition mutate (st : EditorState) (m : Mutator) : EditorState :=
  match m with
  | MAddOverlay hatToAdd img env => addHat st hatToAdd img env
  | MPointerDown e => handleMouseDown st e
  | MDeleteSelected => deleteSelectedHat st
  | MToggleMirror => toggleMirror st
  | MLoadBackground file => processFile st file
  end.

(** ** Vocabulary of the statements *)

(** Events that come from the pointer on the canvas. *)
Definition isPointerEvent (ev : Event) : bool :=
  match ev with
  | EvPointerDown _ | EvPointerMove _ | EvPointerUp => true
  | _ => false
  end.

(** The placement [addHat] gives a hat when no background is loaded. *)
Definition defaultPlacement (hat : PlacedHat) : Prop :=
  hat_x hat = Fin 400 /\ hat_y hat = Fin 300 /\ hat_scale hat = Fin 1.

(** The selected hat with its corners, when [handleMouseDown] gets to
    test the controls: a truthy selection that is found in the list and
    whose raster is loaded. *)
Definition controlTarget (st : EditorState) : option (PlacedHat * Corners) :=
  match selectedHatId st with
  | Some sel =>
      if truthy (Some sel)
      then match findHat sel (hats st) with
           | Some hat =>
               match getTransformedCorners (loadedImages st) hat with
               | Some corners => Some (hat, corners)
               | None => None
               end
           | None => None
           end
      else None
  | None => None
  end.

(** The pointer is on the handle drawn at corner [p]. *)
Definition onHandle (x y hitRadius : number) (p : Point) : bool :=
  isPointInCircle x y (pt_x p) (pt_y p) hitRadius.

(** The hit radius in terms of the radius the handle is drawn with. *)
Definition hitRadiusOf (e : PointerEvent) : number :=
  handleRadius (getUiScale e) * Fin 1.5.

(** No control of the selection takes the pointer-down. *)
Definition noControlHit (st : EditorState) (x y hitRadius : number) : Prop :=
  match controlTarget st with
  | None => True
  | Some (_, c) =>
      onHandle x y hitRadius (tl c) = false
      /\ onHandle x y hitRadius (tr c) = false
      /\ onHandle x y hitRadius (br c) = false
      /\ onHandle x y hitRadius (bl c) = false
  end.

(** The pointer in a hat's own frame, as the specification describes the
    hit test: the offset from the centre, rotated back by the hat's
    rotation (in degrees). *)
Definition localPoint (rotation cx cy px py : R) : R * R :=
  let t := (rotation * Rtrigo1.PI / 180)%R in
  let dx := (px - cx)%R in
  let dy := (py - cy)%R in
  ((dx * Rtrigo_def.cos t + dy * Rtrigo_def.sin t)%R,
   (- dx * Rtrigo_def.sin t + dy * Rtrigo_def.cos t)%R).

Definition withinHalfExtents (w h : R) (p : R * R) : Prop :=
  (- (w / 2) <= fst p <= w / 2)%R /\ (- (h / 2) <= snd p <= h / 2)%R.

(** The scale of a pointer-move in Scaling mode as the specification
    words it: the baseline scale times the ratio of the current to the
    baseline distance from the centre, floored at 0.1. *)
Definition distanceFromCentre (x y : number) (hat : PlacedHat) : number :=
  JS.sqrt (JS.pow2 (x - hat_x hat) + JS.pow2 (y - hat_y hat)).

Definition flooredScale (s : StartInteraction) (x y : number)
    (hat : PlacedHat) : number :=
  JS.max (Fin 0.1)
    (startScale s
     * (distanceFromCentre x y hat
        / distanceFromCentre (mouseX s) (mouseY s) hat)).

(** The same distance on the reals. *)
Definition Rdistance (px py cx cy : R) : R :=
  sqrt ((px - cx) * (px - cx) + (py - cy) * (py - cy)).

(** The hat the selection names. *)
Definition selectedHat (st : EditorState) : option PlacedHat :=
  match selectedHatId st with
  | Some sel => findHat sel (hats st)
  | None => None
  end.

(** The angle of the pointer about a hat's centre, in degrees, as
    [handleMouseMove] computes it, and the same on the reals. *)
Definition pointerAngle (x y : number) (hat : PlacedHat) : number :=
  JS.atan2 (y - hat_y hat) (x - hat_x hat) * (Fin 180 / JS.PI).

Definition Rangle (px py cx cy : R) : R :=
  (JS.Ratan2 (py - cy) (px - cx) * (180 / Rtrigo1.PI))%R.

(** What a pointer-down does once the background guard is passed. *)
Definition pointerDownOutcome (st : EditorState) (x y r : number)
    : EditorState :=
  match checkControls st x y r with
  | Some st' => st'
  | None =>
      match hitScan (loadedImages st) x y (hats st) (length (hats st)) with
      | Some hat =>
          setStartInteraction (captureStart x y hat)
            (setMode DRAG
               (setHats
                  (fun prev =>
                     List.filter
                       (fun h => negb (String.eqb (hat_uid h) (hat_uid hat)))
                       prev
                     ++ [hat])
                  (setSelectedHatId (Some (hat_uid hat)) st)))
      | None => setSelectedHatId None st
      end
  end.

(** The corners of a finite hat on the reals: [u] is the offset of the
    bottom-right corner from the centre, [v] that of the top-right one. *)
Definition RcornerOffsets (w h rotation : R) : (R * R) * (R * R) :=
  let t := (rotation * Rtrigo1.PI / 180)%R in
  let c := Rtrigo_def.cos t in
  let s := Rtrigo_def.sin t in
  (((w / 2 * c - h / 2 * s)%R, (w / 2 * s + h / 2 * c)%R),
   ((w / 2 * c + h / 2 * s)%R, (w / 2 * s - h / 2 * c)%R)).

(** ** Sample data for the examples *)

(** An upright instance of a 100x40 raster, placed at (400, 300) at its
    native size. *)
Definition sampleHat : PlacedHat :=
  {| hat_id := "hat-1"; hat_name := "1"; hat_src := "/hats/1.png";
     hat_uid := "17000000000001"; hat_x := Fin 400; hat_y := Fin 300;
     hat_scale := Fin 1; hat_rotation := Fin 0; hat_isMirrored := false |}.

(** The scene of the end-to-end scenario: a 512x512 background just
    loaded into a fresh editor, and the overlay definition added to it. *)
Definition smallBackground : Image := mkImage 512 512.

Definition sceneWithSmallBackground : EditorState :=
  processFile initialState (mkFile "image/png" (Some smallBackground)).

Definition sampleOverlay : Hat :=
  {| h_id := "hat-1"; h_name := "1"; h_src := "/hats/1.png" |}.

Definition sampleRaster : Image := mkImage 100 40.

Definition sampleAddEnv : AddEnv :=
  {| now := 1700000000000; randomDigits := "123456789";
     randomX := Fin 0.25; randomY := Fin 0.75 |}.

(** A background file and two scenes for the examples: hats placed, one
    of them selected. *)
Definition sampleFile : File := mkFile "image/jpeg" (Some (mkImage 3000 2000)).

Definition otherHat : PlacedHat :=
  {| hat_id := "hat-2"; hat_name := "2"; hat_src := "/hats/2.png";
     hat_uid := "17000000000022"; hat_x := Fin 900; hat_y := Fin 500;
     hat_scale := Fin 2; hat_rotation := Fin 30; hat_isMirrored := true |}.

Definition busyScene : EditorState :=
  {| image := Some smallBackground;
     hats := [sampleHat; otherHat];
     selectedHatId := Some "17000000000022";
     loadedImages :=
       <["/hats/1.png" := sampleRaster]>
         (<["/hats/2.png" := mkImage 80 60]> ∅);
     isDragging := false;
     mode := NONE;
     startInteraction := startInteraction initialState |}.

(** A pointer event on a canvas shown at its backing size [w] x [h] at
    the page origin: client and canvas coordinates coincide. *)
Definition pointerOn (w h px py : R) : PointerEvent :=
  {| clientX := Fin px; clientY := Fin py;
     rect_left := Fin 0; rect_top := Fin 0;
     rect_width := Fin w; rect_height := Fin h;
     canvas_width := Fin w; canvas_height := Fin h |}.

(** The same on the 2048x2048 canvas of the small background. *)
Definition pointerAt (px py : R) : PointerEvent := pointerOn 2048 2048 px py.

(** A scene over the small background with [sampleHat] placed and
    selected, in the given mode and with the given baseline. *)
Definition sceneWith (hat : PlacedHat) (m : Mode) (s : StartInteraction)
    : EditorState :=
  {| image := Some smallBackground;
     hats := [hat];
     selectedHatId := Some (hat_uid hat);
     loadedImages := <["/hats/1.png" := sampleRaster]> ∅;
     isDragging := false;
     mode := m;
     startInteraction := s |}.

Definition selectedScene : EditorState :=
  sceneWith sampleHat NONE (startInteraction initialState).

(** A world with a mounted canvas showing the scene with its controls,
    and the four ways an export can go. *)
Definition shownWorld (st : EditorState) : World :=
  {| canvas := Some (draw st true); clipboard := None; downloads := [] |}.

Definition emptyCache : CacheRun := {| cache := ∅; decodes := [] |}.

(** The scene of the rotation example: a 40x40 raster placed at
    (400, 300) whose rotation has already reached a full turn. *)
Definition squareRaster : Image := mkImage 40 40.

Definition turnedHat : PlacedHat :=
  {| hat_id := "hat-3"; hat_name := "3"; hat_src := "/hats/3.png";
     hat_uid := "17000000000333"; hat_x := Fin 400; hat_y := Fin 300;
     hat_scale := Fin 1; hat_rotation := Fin 360; hat_isMirrored := false |}.

Definition squareScene (hat : PlacedHat) (s : StartInteraction)
    : EditorState :=
  {| image := Some smallBackground;
     hats := [hat];
     selectedHatId := Some (hat_uid hat);
     loadedImages := <["/hats/3.png" := squareRaster]> ∅;
     isDragging := false;
     mode := NONE;
     startInteraction := s |}.

Definition turnedScene : EditorState :=
  squareScene turnedHat (startInteraction initialState).

(** Sessions of the editor around one scale gesture.  A hat with a
    60x80 raster is added over a 3000x3000 background: it is placed at
    (1500, 1000) with scale 17.5, so its bottom-right corner, where the
    scale handle sits, is at (2025, 1700), 875 pixels from the centre.
    The handle is pressed there. *)
Definition largeBackground : Image := mkImage 3000 3000.
Definition widerBackground : Image := mkImage 4050 5100.
Definition tallRaster : Image := mkImage 60 80.

Definition laterAddEnv : AddEnv :=
  {| now := 1700000004000; randomDigits := "987654321";
     randomX := Fin 0.5; randomY := Fin 0.5 |}.

Definition pressSession : list Event :=
  [ EvLoadFile (mkFile "image/png" (Some largeBackground));
    EvAddHat sampleOverlay (Some tallRaster) sampleAddEnv;
    EvPointerDown (pointerOn 3000 3000 2025 1700) ].

(** The pointer is then moved to [(px, py)]. *)
Definition scaleSession (px py : R) : list Event :=
  pressSession ++ [EvPointerMove (pointerOn 3000 3000 px py)].

(** Or, before the pointer is released, a 4050x5100 background is
    loaded and the hat asked for meanwhile arrives, centred on
    (2025, 1700) and selected; then the pointer moves without leaving
    that point. *)
Definition nanSession : list Event :=
  pressSession
  ++ [ EvLoadFile (mkFile "image/png" (Some widerBackground));
       EvAddHat sampleOverlay None laterAddEnv;
       EvPointerMove (pointerOn 4050 5100 2025 1700) ].

Definition firstHat : PlacedHat :=
  {| hat_id := "hat-1"; hat_name := "1"; hat_src := "/hats/1.png";
     hat_uid := newUid sampleAddEnv; hat_x := Fin 1500; hat_y := Fin 1000;
     hat_scale := Fin 17.5; hat_rotation := Fin 0; hat_isMirrored := false |}.

Definition lateHat : PlacedHat :=
  {| hat_id := "hat-1"; hat_name := "1"; hat_src := "/hats/1.png";
     hat_uid := newUid laterAddEnv; hat_x := Fin 2025; hat_y := Fin 1700;
     hat_scale := Fin 23.625; hat_rotation := Fin 0; hat_isMirrored := false |}.

(** The session after the first hat is placed, after the press, and when
    the late hat has arrived in the middle of the scale gesture. *)
Definition sessionPlaced : EditorState :=
  {| image := Some largeBackground;
     hats := [firstHat];
     selectedHatId := Some (newUid sampleAddEnv);
     loadedImages := <["/hats/1.png" := tallRaster]> ∅;
     isDragging := false;
     mode := NONE;
     startInteraction := startInteraction initialState |}.

Definition sessionPressed : EditorState :=
  setStartInteraction (captureStart (Fin 2025) (Fin 1700) firstHat)
    (setMode SCALE sessionPlaced).

Definition sessionRetargeted : EditorState :=
  {| image := Some widerBackground;
     hats := [lateHat];
     selectedHatId := Some (newUid laterAddEnv);
     loadedImages := <["/hats/1.png" := tallRaster]> ∅;
     isDragging := false;
     mode := SCALE;
     startInteraction := captureStart (Fin 2025) (Fin 1700) firstHat |}.



(** * More of the repository *)

(** ** Other ways a file reaches the editor (Editor.tsx) *)

(** [handleImageUpload]: the first file of the file input, if any. *)
Definition handleImageUpload (st : EditorState) (files : list File)
    : EditorState :=
  match files with
  | file :: _ => processFile st file
  | [] => st
  end.

(** An item of the clipboard: its type and what [getAsFile()] returns. *)
Record ClipboardEntry : Type := mkClipboardEntry {
  item_type : string;
  item_file : option File;
}.

(** [item.type.indexOf('image') !== -1]. *)
Definition mentionsImage (type : string) : bool :=
  match String.index 0 "image" type with
  | Some _ => true
  | None => false
  end.

(** The loop of [handlePaste] over the clipboard items.  The boolean
    tells whether [e.preventDefault()] was called. *)
Fixpoint pasteScan (st : EditorState) (items : list ClipboardEntry)
    : EditorState * bool :=
  match items with
  | [] => (st, false)
  | item :: rest =>
      if mentionsImage (item_type item)
      then match item_file item with
           | Some file => (processFile st file, true)
           | None => pasteScan st rest
           end
      else pasteScan st rest
  end.

(** [handlePaste]; [None] stands for an event without [clipboardData]
    items. *)
Definition handlePaste (st : EditorState)
    (items : option (list ClipboardEntry)) : EditorState * bool :=
  match items with
  | None => (st, false)
  | Some l => pasteScan st l
  end.

(** ** The static list of hats (constants.ts) *)

Definition TOTAL_HATS_COUNT : nat := 15.

(** The entry [Array.from] builds for position [i]. *)
Definition staticHat (i : nat) : Hat :=
  let index := (i + 1)%nat in
  {| h_id := "hat-" +:+ pretty index;
     h_name := "款式 " +:+ pretty index;
     h_src := "/hats/" +:+ pretty index +:+ ".png" |}.

(** [Array.from({ length }, (_, i) => ...)]. *)
Definition staticHats (length : nat) : list Hat :=
  map staticHat (seq 0 length).

Definition STATIC_HATS : list Hat := staticHats TOTAL_HATS_COUNT.

(** ** The greeting service (services/geminiService.ts) *)

(** What the call of the model does: it throws (network or API error),
    or it answers with a response whose [text] may be undefined. *)
Inductive ApiOutcome : Type :=
| ApiThrows
| ApiResponds (text : option string).

(** Truthiness of a string: the empty string is falsy. *)
Definition nonEmpty (s : string) : bool := negb (String.eqb s "").

(** [a || b] on a [string | undefined] and a string. *)
Definition orElse (a : option string) (b : string) : string :=
  match a with
  | Some s => if nonEmpty s then s else b
  | None => b
  end.

(** [generateChristmasGreeting], with the environment's [API_KEY]
    ([None] when it is not set) and the outcome of the call. *)
Definition generateChristmasGreeting (API_KEY : option string)
    (outcome : ApiOutcome) : string :=
  let apiKey := orElse API_KEY "" in
  if negb (nonEmpty apiKey)
  then "请配置 API_KEY 以生成祝福语！"
  else
    match outcome with
    | ApiResponds text => orElse text "圣诞快乐，喜乐长安！🎄"
    | ApiThrows => "圣诞快乐，愿你拥有美好的一年！🎁"
    end.

(** ** Discovery of the hat images (components/HatSelector.tsx) *)

Definition maxIndex : nat := 50.

(** The entry appended for the image number [index].  Its [src] is
    computed when the image is requested; its [id] and [name] read
    [currentIndex] when React runs the state updater, which is then
    [seen]. *)
Definition localHat (index seen : nat) : Hat :=
  {| h_id := "local-" +:+ pretty seen;
     h_name := "款式 " +:+ pretty seen;
     h_src := "./hats/" +:+ pretty index +:+ ".png" |}.

(** [loadNextImage] from [currentIndex] on, for a component that stays
    mounted: [loads i] tells whether image [i] decodes, [seenBy i] is
    the value of [currentIndex] the updater of image [i] reads, and
    [remaining] bounds the recursion (the loop itself stops beyond
    [maxIndex]). *)
Fixpoint loadNextImage (loads : nat -> bool) (seenBy : nat -> nat)
    (remaining currentIndex : nat) : list Hat :=
  match remaining with
  | O => []
  | S remaining' =>
      if (maxIndex <? currentIndex)%nat then []
      else if loads currentIndex
      then localHat currentIndex (seenBy currentIndex)
           :: loadNextImage loads seenBy remaining' (S currentIndex)
      else []
  end.

(** The list the effect leaves in [localHats]: the scan starts at 1. *)
Definition discoverHats (loads : nat -> bool) (seenBy : nat -> nat)
    : list Hat :=
  loadNextImage loads seenBy (S maxIndex) 1.

(** ** Vocabulary of the further statements *)

(** What a pointer-move in mode [m] leaves of a hat: its identity and
    mirroring always, and every part of the placement the mode does not
    drive. *)
Definition movedOnly (m : Mode) (hat hat' : PlacedHat) : Prop :=
  hat_id hat' = hat_id hat
  /\ hat_name hat' = hat_name hat
  /\ hat_src hat' = hat_src hat
  /\ hat_uid hat' = hat_uid hat
  /\ hat_isMirrored hat' = hat_isMirrored hat
  /\ match m with
     | NONE => hat' = hat
     | DRAG =>
         hat_scale hat' = hat_scale hat
         /\ hat_rotation hat' = hat_rotation hat
     | ROTATE =>
         hat_x hat' = hat_x hat /\ hat_y hat' = hat_y hat
         /\ hat_scale hat' = hat_scale hat
     | SCALE =>
         hat_x hat' = hat_x hat /\ hat_y hat' = hat_y hat
         /\ hat_rotation hat' = hat_rotation hat
     end.

(** The parts of the state no pointer-move touches. *)
Definition sameSession (st st' : EditorState) : Prop :=
  image st' = image st
  /\ selectedHatId st' = selectedHatId st
  /\ loadedImages st' = loadedImages st
  /\ isDragging st' = isDragging st
  /\ mode st' = mode st
  /\ startInteraction st' = startInteraction st.

(** Events that neither press nor add: moves and releases. *)
Definition isMoveOrUp (ev : Event) : bool :=
  match ev with
  | EvPointerMove _ | EvPointerUp => true
  | _ => false
  end.

(** The uids of the placed hats are pairwise distinct. *)
Definition distinctUids (st : EditorState) : Prop :=
  NoDup (map hat_uid (hats st)).

(** Every hat added in the course of [evs], started in [st], gets a uid
    no hat of the scene has at that moment. *)
Fixpoint freshAdds (st : EditorState) (evs : list Event) : Prop :=
  match evs with
  | [] => True
  | ev :: rest =>
      match ev with
      | EvAddHat _ _ env => ~ In (newUid env) (map hat_uid (hats st))
      | _ => True
      end
      /\ freshAdds (step st ev) rest
  end.

(** A hat as a pointer-down can leave it: as it was, or mirrored. *)
Definition sameOrFlipped (hat hat' : PlacedHat) : Prop :=
  hat' = hat \/ hat' = flipHat hat.

(** An item the loop of [handlePaste] passes over: its type does not
    mention an image, or it yields no file. *)
Definition pasteSkips (item : ClipboardEntry) : bool :=
  negb (mentionsImage (item_type item))
  || match item_file item with Some _ => false | None => true end.

(** A clipboard item whose type mentions an image in a place other than
    its start, as happens with a vendor type. *)
Definition vendorEntry : ClipboardEntry :=
  {| item_type := "application/x-image";
     item_file := Some (mkFile "application/x-image" (Some smallBackground)) |}.

Definition textEntry : ClipboardEntry :=
  {| item_type := "text/plain"; item_file := None |}.

Definition imageEntry : ClipboardEntry :=
  {| item_type := "image/png"; item_file := Some sampleFile |}.

(** The path [loadNextImage] requests for image number [i]. *)
Definition localSrc (i : nat) : string := "./hats/" +:+ pretty i +:+ ".png".


(** What a scene keeps of a hat no gesture is on: the hat itself, the
    distinct uids, and a selection that is not the hat's while a gesture
    is in progress. *)
Definition outOfGesture (hat : PlacedHat) (st : EditorState) : Prop :=
  In hat (hats st)
  /\ distinctUids st
  /\ (mode st <> NONE -> selectedHatId st <> Some (hat_uid hat)).

(** The scene the session with the late hat ends in, once the pointer
    is released: its only hat has no scale. *)
Definition lostScene : EditorState :=
  setMode NONE (setHats (fun _ => [withScale lateHat NaN]) sessionRetargeted).

(** ** The greeting card (components/GreetingGenerator.tsx) *)










(** The selected hat is the last of the list, the one drawn on top. *)
Definition selectionOnTop (st : EditorState) : Prop :=
  forall sel, selectedHatId st = Some sel ->
    exists below hat, hats st = below ++ [hat] /\ hat_uid hat = sel.

(** * The add-hat effect, run by run (Editor.tsx) *)

(** What one run of the effect holds in its closure: the [image], the
    [hats] and the [loadedImages] of the render that started it, and the
    hat asked for. *)
Record EffectRun : Type := mkEffectRun {
  seenImage : option Image;
  seenHats : list PlacedHat;
  seenLoaded : gmap string Image;
  requested : Hat;
}.

(** The effect running in the render of [st] with [hatToAdd] set. *)
Definition startEffect (st : EditorState) (hatToAdd : Hat) : EffectRun :=
  {| seenImage := image st;
     seenHats := hats st;
     seenLoaded := loadedImages st;
     requested := hatToAdd |}.

(** The [then] callback of the run [r], with the decoded raster [img],
    applied to the state at the time the promise resolves.  The
    placement is computed from what the run saw; the two updaters act on
    the current state. *)
Definition addHatThen (r : EffectRun) (img : Image) (env : AddEnv)
    (st : EditorState) : EditorState :=
  let uid := newUid env in
  let '(initialScale, initialX, initialY) :=
    match seenImage r with
    | None => (Fin 1, Fin 400, Fin 300)
    | Some bg =>
        let d := getRenderDimensions bg in
        let cvsW := dim_width d in
        let cvsH := dim_height d in
        let targetWidth := cvsW * Fin 0.35 in
        let initialScale := targetWidth / JS.ofN (img_width img) in
        let initialX := cvsW / Fin 2 in
        let initialY := cvsH / Fin 3 in
        if (0 <? length (seenHats r))%nat
        then (initialScale,
              initialX + (randomX env - Fin 0.5) * Fin 40,
              initialY + (randomY env - Fin 0.5) * Fin 40)
        else (initialScale, initialX, initialY)
    end in
  let newHat :=
    {| hat_id := h_id (requested r);
       hat_name := h_name (requested r);
       hat_src := h_src (requested r);
       hat_uid := uid;
       hat_x := initialX;
       hat_y := initialY;
       hat_scale := initialScale;
       hat_rotation := Fin 0;
       hat_isMirrored := false |} in
  setSelectedHatId (Some uid) (setHats (fun prev => prev ++ [newHat]) st).

(** The run from its promise on: [loadHatImage] of the render that
    started the run resolves with the raster that render had cached, or
    decodes; [onload] stores the raster in the current cache and the
    callback follows; [onerror] rejects and nothing happens. *)
Definition resolveEffect (r : EffectRun) (decoded : option Image)
    (env : AddEnv) (st : EditorState) : EditorState :=
  match loadHatImage (seenLoaded r) (h_src (requested r)) with
  | Resolved img => addHatThen r img env st
  | Decoding src =>
      match decoded with
      | Some img => addHatThen r img env (hatImageOnload src img st)
      | None => st
      end
  end.

(** Several runs resolving one after the other. *)
Definition resolveAll (st : EditorState)
    (runs : list (EffectRun * option Image * AddEnv)) : EditorState :=
  fold_left
    (fun st run =>
       let '(r, decoded, env) := run in resolveEffect r decoded env st)
    runs st.

(** A run resolves with a raster: its render had it cached, or the
    decode succeeds. *)
Definition runYields (r : EffectRun) (decoded : option Image) (img : Image)
    : Prop :=
  seenLoaded r !! h_src (requested r) = Some img
  \/ (seenLoaded r !! h_src (requested r) = None /\ decoded = Some img).

(** * Lines of the code on binary64 floats *)

Module Float64.

Import PrimFloat.
#[local] Set Warnings "-inexact-float".

(** [startInteraction.startRotation + (angle - startAngle)], the value
    the ROTATE branch of [handleMouseMove] stores, for the two angles in
    degrees it computed. *)
Definition rotateTo (startRotation angle startAngle : float) : float :=
  (startRotation + (angle - startAngle))%float.

(** [targetWidth / img.width] with [targetWidth = cvsW * 0.35], the
    scale the add-hat callback computes. *)
Definition fittedScale (cvsW rasterWidth : float) : float :=
  (cvsW * 0.35 / rasterWidth)%float.

(** [isPointInCircle]; [Math.pow(d, 2)] is the product [d * d]. *)
Definition isPointInCircle (px py cx cy radius : float) : bool :=
  (sqrt ((px - cx) * (px - cx) + (py - cy) * (py - cy)) <=? radius)%float.

End Float64.

(** * Properties *)

(** ** Arithmetic of the number model *)

Section NumberFacts.

Lemma sgn_pos (r : R) : (0 < r)%R -> JS.sgn r = Gt.
Proof.
  intros Hr. unfold JS.sgn.
  destruct (total_order_T r 0) as [[Hlt | Heq] | Hgt]; try reflexivity; lra.
Qed.

Lemma sgn_zero : JS.sgn 0 = Eq.
Proof.
  unfold JS.sgn.
  destruct (total_order_T 0 0) as [[Hlt | Heq] | Hgt]; try reflexivity; lra.
Qed.

Lemma div_fin (x y : R) : y <> 0%R -> Fin x / Fin y = Fin (x / y).
Proof.
  intros Hy. unfold JS.div. destruct (Req_dec_T y 0); [contradiction | reflexivity].
Qed.

Lemma div_zero_zero : Fin 0 / Fin 0 = NaN.
Proof.
  unfold JS.div. destruct (Req_dec_T 0 0) as [_ | Hne]; [| lra].
  now rewrite sgn_zero.
Qed.

Lemma neg_div_two (a : number) : - a / Fin 2 = - (a / Fin 2).
Proof.
  destruct a as [r | | |]; unfold JS.div, JS.neg; try reflexivity.
  - destruct (Req_dec_T 2 0); [lra |]. f_equal. lra.
  - destruct (Rle_dec 0 2); [reflexivity | lra].
  - destruct (Rle_dec 0 2); [reflexivity | lra].
Qed.

Lemma leb_fin (x y : R) : (Fin x <=? Fin y) = true <-> (x <= y)%R.
Proof.
  simpl. destruct (Rle_dec x y); split; intros; try done.
Qed.

Lemma leb_fin_false (x y : R) : (Fin x <=? Fin y) = false <-> (y < x)%R.
Proof.
  simpl. destruct (Rle_dec x y); split; intros; try done; lra.
Qed.

Lemma ltb_fin (x y : R) : (Fin x <? Fin y) = true <-> (x < y)%R.
Proof.
  simpl. destruct (Rlt_dec x y); split; intros; try done.
Qed.

Lemma max_fin (x y : R) : JS.max (Fin x) (Fin y) = Fin (Rmax x y).
Proof.
  unfold JS.max, JS.leb, Rmax.
  destruct (Rle_dec x y); reflexivity.
Qed.

(** The distance the code computes with [Math.sqrt] and [Math.pow]. *)
Lemma distance_fin (x y cx cy : R) :
  JS.sqrt (JS.pow2 (Fin x - Fin cx) + JS.pow2 (Fin y - Fin cy))
  = Fin (sqrt ((x - cx) * (x - cx) + (y - cy) * (y - cy))).
Proof.
  unfold JS.sub, JS.neg, JS.add, JS.pow2, JS.sqrt.
  destruct (Rlt_dec _ 0) as [Hneg | _].
  - pose proof (Rle_0_sqr (x + - cx)) as Hx.
    pose proof (Rle_0_sqr (y + - cy)) as Hy.
    unfold Rsqr in Hx, Hy. lra.
  - reflexivity.
Qed.

Lemma sum_squares_nonneg (a b : R) : (0 <= a * a + b * b)%R.
Proof. nra. Qed.

End NumberFacts.

(** ** Geometry: the corners of a placed hat *)

Section Corners.

Variable loaded : gmap string Image.

Lemma getTransformedCorners_unloaded (hat : PlacedHat) :
  loaded !! hat_src hat = None -> getTransformedCorners loaded hat = None.
Proof. intros Hnone. unfold getTransformedCorners. now rewrite Hnone. Qed.

Lemma radians_of_zero : Fin 0 * JS.PI / Fin 180 = Fin 0.
Proof.
  unfold JS.PI, JS.mul. rewrite div_fin by lra. f_equal. lra.
Qed.

Lemma getTransformedCorners_general (hat : PlacedHat) (img : Image) :
  loaded !! hat_src hat = Some img ->
  getTransformedCorners loaded hat
  = Some (GeometrySpec.transformedCorners hat img).
Proof.
  intros Himg.
  unfold getTransformedCorners, GeometrySpec.transformedCorners,
    GeometrySpec.place, GeometrySpec.translateBy,
    GeometrySpec.rotateAboutOrigin, GeometrySpec.toRadians.
  rewrite Himg. cbn [pt_x pt_y]. rewrite !neg_div_two. reflexivity.
Qed.

Lemma getTransformedCorners_upright (hat : PlacedHat) (img : Image)
    (cx cy : R) :
  loaded !! hat_src hat = Some img ->
  hat_x hat = Fin cx -> hat_y hat = Fin cy ->
  hat_rotation hat = Fin 0 -> hat_scale hat = Fin 1 ->
  let w := IZR (Z.of_N (img_width img)) in
  let h := IZR (Z.of_N (img_height img)) in
  getTransformedCorners loaded hat
  = Some {| tl := mkPoint (Fin (cx - w / 2)) (Fin (cy - h / 2));
            tr := mkPoint (Fin (cx + w / 2)) (Fin (cy - h / 2));
            br := mkPoint (Fin (cx + w / 2)) (Fin (cy + h / 2));
            bl := mkPoint (Fin (cx - w / 2)) (Fin (cy + h / 2));
            width := Fin w;
            height := Fin h |}.
Proof.
  intros Himg Hx Hy Hrot Hscale w h.
  unfold getTransformedCorners. rewrite Himg, Hx, Hy, Hrot, Hscale.
  rewrite radians_of_zero.
  unfold JS.ofN, JS.cos, JS.sin, JS.mul, JS.neg.
  rewrite cos_0, sin_0, !div_fin by lra.
  fold w h. unfold JS.mul, JS.sub, JS.add, JS.neg.
  do 2 f_equal; try (f_equal; f_equal; lra); f_equal; lra.
Qed.

(** C1. For a placed hat whose raster is loaded, [getTransformedCorners]
    returns the corners of the box of width [rasterWidth * scale] and
    height [rasterHeight * scale], each rotated about the origin by the
    rotation in radians ([x' = x cos t - y sin t], [y' = x sin t + y cos t])
    and then translated by the centre [(x, y)].  For rotation 0, scale 1
    and no mirroring this is the axis-aligned box around [(x, y)] with
    the raster's own width and height. *)
Theorem getTransformedCorners_correct (hat : PlacedHat) (img : Image) :
  loaded !! hat_src hat = Some img ->
  getTransformedCorners loaded hat
    = Some (GeometrySpec.transformedCorners hat img)
  /\ (forall cx cy : R,
        hat_x hat = Fin cx -> hat_y hat = Fin cy ->
        hat_rotation hat = Fin 0 -> hat_scale hat = Fin 1 ->
        hat_isMirrored hat = false ->
        let w := IZR (Z.of_N (img_width img)) in
        let h := IZR (Z.of_N (img_height img)) in
        getTransformedCorners loaded hat
          = Some {| tl := mkPoint (Fin (cx - w / 2)) (Fin (cy - h / 2));
                    tr := mkPoint (Fin (cx + w / 2)) (Fin (cy - h / 2));
                    br := mkPoint (Fin (cx + w / 2)) (Fin (cy + h / 2));
                    bl := mkPoint (Fin (cx - w / 2)) (Fin (cy + h / 2));
                    width := Fin w;
                    height := Fin h |}).
Proof.
  intros Himg. split.
  - now apply getTransformedCorners_general.
  - intros cx cy Hx Hy Hrot Hscale _.
    now apply getTransformedCorners_upright.
Qed.

End Corners.

Lemma getTransformedCorners_correct_witness :
  let loaded : gmap string Image := <["/hats/1.png" := mkImage 100 40]> ∅ in
  getTransformedCorners loaded sampleHat
    = Some (GeometrySpec.transformedCorners sampleHat (mkImage 100 40))
  /\ getTransformedCorners loaded sampleHat
    = Some {| tl := mkPoint (Fin (400 - 100 / 2)) (Fin (300 - 40 / 2));
              tr := mkPoint (Fin (400 + 100 / 2)) (Fin (300 - 40 / 2));
              br := mkPoint (Fin (400 + 100 / 2)) (Fin (300 + 40 / 2));
              bl := mkPoint (Fin (400 - 100 / 2)) (Fin (300 + 40 / 2));
              width := Fin 100;
              height := Fin 40 |}.
Proof.
  intros loaded.
  destruct (getTransformedCorners_correct loaded sampleHat (mkImage 100 40)
              eq_refl) as [Hgeneral Hupright].
  split; [exact Hgeneral |].
  exact (Hupright 400%R 300%R eq_refl eq_refl eq_refl eq_refl eq_refl).
Defined.

(** ** Backing canvas dimensions and the first placement *)

Section RenderDimensions.

Lemma getRenderDimensions_native (img : Image) :
  (2048 <= IZR (Z.of_N (img_width img)))%R ->
  getRenderDimensions img
  = {| dim_width := JS.ofN (img_width img);
       dim_height := JS.ofN (img_height img) |}.
Proof.
  intros Hw. unfold getRenderDimensions, JS.geb, MIN_CANVAS_WIDTH, JS.ofN.
  apply leb_fin in Hw. now rewrite Hw.
Qed.

Lemma getRenderDimensions_scaled (img : Image) :
  (0 < IZR (Z.of_N (img_width img)) < 2048)%R ->
  let factor := Fin 2048 / JS.ofN (img_width img) in
  getRenderDimensions img
  = {| dim_width := JS.ofN (img_width img) * factor;
       dim_height := JS.ofN (img_height img) * factor |}
  /\ dim_width (getRenderDimensions img) = Fin 2048.
Proof.
  intros [Hpos Hsmall] factor.
  assert (Hbranch : getRenderDimensions img
                    = {| dim_width := Fin 2048;
                         dim_height := JS.ofN (img_height img) * factor |}).
  { unfold getRenderDimensions, JS.geb, MIN_CANVAS_WIDTH, JS.ofN.
    apply leb_fin_false in Hsmall. now rewrite Hsmall. }
  rewrite Hbranch. split; [| reflexivity].
  f_equal. unfold factor, JS.ofN. rewrite div_fin by lra.
  unfold JS.mul. f_equal. field. lra.
Qed.

Lemma getRenderDimensions_small_square :
  getRenderDimensions smallBackground
  = {| dim_width := Fin 2048; dim_height := Fin 2048 |}.
Proof.
  destruct (getRenderDimensions_scaled smallBackground) as [Heq _].
  { cbn. lra. }
  rewrite Heq. unfold smallBackground, JS.ofN. cbn [img_width img_height].
  rewrite div_fin by (cbn; lra). unfold JS.mul. cbn.
  f_equal; f_equal; lra.
Qed.

Lemma getRenderDimensions_zero_width (img : Image) :
  img_width img = 0%N ->
  getRenderDimensions img
  = {| dim_width := Fin 2048;
       dim_height := JS.ofN (img_height img) * PosInf |}
  /\ JS.isFinite (dim_height (getRenderDimensions img)) = false
  /\ JS.ofN (img_width img) * (Fin 2048 / JS.ofN (img_width img)) = NaN.
Proof.
  intros Hzero.
  assert (Hinf : Fin 2048 / Fin 0 = PosInf).
  { unfold JS.div. destruct (Req_dec_T 0 0) as [_ | Hne]; [| lra].
    now rewrite sgn_pos by lra. }
  assert (Hbranch : getRenderDimensions img
                    = {| dim_width := Fin 2048;
                         dim_height := JS.ofN (img_height img) * PosInf |}).
  { unfold getRenderDimensions, JS.geb, MIN_CANVAS_WIDTH, JS.ofN.
    rewrite Hzero. change (IZR (Z.of_N 0)) with 0%R.
    assert (Hlt : (0 < 2048)%R) by lra.
    apply leb_fin_false in Hlt. now rewrite Hlt, Hinf. }
  split; [exact Hbranch |]. split.
  - rewrite Hbranch. cbn [dim_height]. unfold JS.ofN, JS.mul, JS.scale_inf.
    now destruct (JS.sgn _).
  - unfold JS.ofN. rewrite Hzero. change (IZR (Z.of_N 0)) with 0%R.
    rewrite Hinf. unfold JS.mul, JS.scale_inf. now rewrite sgn_zero.
Qed.

(** The first hat of a run that saw the 512x512 background and no hat. *)
Lemma addHatThen_small_square (r : EffectRun) (st : EditorState)
    (env : AddEnv) :
  seenImage r = Some smallBackground -> seenHats r = [] ->
  addHatThen r sampleRaster env st
  = setSelectedHatId (Some (newUid env))
      (setHats
         (fun prev =>
            prev
            ++ [ {| hat_id := h_id (requested r);
                    hat_name := h_name (requested r);
                    hat_src := h_src (requested r);
                    hat_uid := newUid env;
                    hat_x := Fin 1024;
                    hat_y := Fin (2048 / 3);
                    hat_scale := Fin 7.168;
                    hat_rotation := Fin 0;
                    hat_isMirrored := false |} ])
         st).
Proof.
  intros Himg Hhats. unfold addHatThen.
  rewrite Himg, Hhats, getRenderDimensions_small_square.
  cbn [length Nat.ltb Nat.leb dim_width dim_height].
  unfold sampleRaster, JS.ofN. cbn [img_width]. unfold JS.mul.
  rewrite !div_fin by (cbn; lra).
  replace (2048 / 2)%R with 1024%R by lra.
  replace (2048 * 0.35 / IZR (Z.of_N 100))%R with 7.168%R by (cbn; lra).
  reflexivity.
Qed.

End RenderDimensions.

Section FirstPlacement.

Import PrimFloat.
#[local] Set Warnings "-inexact-float".

(** C2, as the code has it.  For an image of positive width the
    backing-canvas dimensions are the image's own when its width is at
    least 2048, and otherwise both are scaled by [2048 / nativeWidth],
    the width becoming 2048.  An image of width 0 gets the width 2048
    all the same, and a height that is not finite.  A 512x512 background
    gives a 2048x2048 canvas, and the hat of an add effect that ran with
    this background and no hat placed, decoded to a 100x40 raster, gets
    the scale [(2048 * 0.35) / 100], position [(1024, 2048 / 3)] (about
    682.67), rotation 0 and no mirroring, in whatever state its promise
    resolves.  The scale is 7.168 in exact arithmetic and
    7.167999999999999 in doubles. *)
Theorem render_dimensions_and_first_placement :
  (forall img : Image,
     (2048 <= IZR (Z.of_N (img_width img)))%R ->
     getRenderDimensions img
     = {| dim_width := JS.ofN (img_width img);
          dim_height := JS.ofN (img_height img) |})
  /\ (forall img : Image,
        (0 < IZR (Z.of_N (img_width img)) < 2048)%R ->
        getRenderDimensions img
        = {| dim_width :=
               JS.ofN (img_width img)
               * (Fin 2048 / JS.ofN (img_width img));
             dim_height :=
               JS.ofN (img_height img)
               * (Fin 2048 / JS.ofN (img_width img)) |}
        /\ dim_width (getRenderDimensions img) = Fin 2048)
  /\ (forall img : Image,
        img_width img = 0%N ->
        dim_width (getRenderDimensions img) = Fin 2048
        /\ JS.isFinite (dim_height (getRenderDimensions img)) = false)
  /\ getRenderDimensions smallBackground
     = {| dim_width := Fin 2048; dim_height := Fin 2048 |}
  /\ (forall (st : EditorState) (hatToAdd : Hat) (env : AddEnv),
        image st = Some smallBackground ->
        hats st = [] ->
        hats (addHat st hatToAdd sampleRaster env)
        = [ {| hat_id := h_id hatToAdd;
               hat_name := h_name hatToAdd;
               hat_src := h_src hatToAdd;
               hat_uid := newUid env;
               hat_x := Fin 1024;
               hat_y := Fin (2048 / 3);
               hat_scale := Fin 7.168;
               hat_rotation := Fin 0;
               hat_isMirrored := false |} ]
        /\ selectedHatId (addHat st hatToAdd sampleRaster env)
           = Some (newUid env))
  /\ (forall (r : EffectRun) (st : EditorState) (env : AddEnv),
        seenImage r = Some smallBackground ->
        seenHats r = [] ->
        hats (addHatThen r sampleRaster env st)
        = hats st
          ++ [ {| hat_id := h_id (requested r);
                  hat_name := h_name (requested r);
                  hat_src := h_src (requested r);
                  hat_uid := newUid env;
                  hat_x := Fin 1024;
                  hat_y := Fin (2048 / 3);
                  hat_scale := Fin 7.168;
                  hat_rotation := Fin 0;
                  hat_isMirrored := false |} ]
        /\ selectedHatId (addHatThen r sampleRaster env st)
           = Some (newUid env))
  /\ (Rabs (2048 / 3 - 682.67) < 0.005)%R
  /\ (2048 * 0.35 / 100 = 7.168)%R
  /\ Float64.fittedScale 2048 100 = 7.167999999999999%float
  /\ PrimFloat.eqb (Float64.fittedScale 2048 100) 7.168 = false.
Proof.
  split; [exact getRenderDimensions_native |].
  split; [intros img Hw; apply (getRenderDimensions_scaled img Hw) |].
  split.
  { intros img Hzero.
    destruct (getRenderDimensions_zero_width img Hzero) as (-> & Hinf & _).
    split; [reflexivity | exact Hinf]. }
  split; [exact getRenderDimensions_small_square |].
  split.
  - intros st hatToAdd env Himg Hhats.
    unfold addHat. rewrite Himg, Hhats, getRenderDimensions_small_square.
    cbn [length Nat.ltb Nat.leb dim_width dim_height].
    unfold sampleRaster, JS.ofN. cbn [img_width]. unfold JS.mul.
    rewrite !div_fin by (cbn; lra).
    cbn [setHats setSelectedHatId hats selectedHatId app].
    split; [| reflexivity].
    rewrite Hhats. cbn [app].
    replace (2048 / 2)%R with 1024%R by lra.
    replace (2048 * 0.35 / IZR (Z.of_N 100))%R with 7.168%R by (cbn; lra).
    reflexivity.
  - split.
    { intros r st env Himg Hhats.
      rewrite (addHatThen_small_square r st env Himg Hhats).
      split; reflexivity. }
    split; [apply Rabs_def1; lra |].
    split; [lra |].
    split; vm_compute; reflexivity.
Qed.

End FirstPlacement.

Lemma render_dimensions_and_first_placement_witness :
  getRenderDimensions (mkImage 4000 3000)
  = {| dim_width := JS.ofN 4000; dim_height := JS.ofN 3000 |}
  /\ getRenderDimensions (mkImage 1000 500)
     = {| dim_width := JS.ofN 1000 * (Fin 2048 / JS.ofN 1000);
          dim_height := JS.ofN 500 * (Fin 2048 / JS.ofN 1000) |}
  /\ dim_width (getRenderDimensions (mkImage 0 600)) = Fin 2048
  /\ hats (addHat sceneWithSmallBackground sampleOverlay sampleRaster
             sampleAddEnv)
     = [ {| hat_id := "hat-1"; hat_name := "1"; hat_src := "/hats/1.png";
            hat_uid := newUid sampleAddEnv;
            hat_x := Fin 1024; hat_y := Fin (2048 / 3);
            hat_scale := Fin 7.168; hat_rotation := Fin 0;
            hat_isMirrored := false |} ]
  /\ hats (addHatThen (startEffect sceneWithSmallBackground sampleOverlay)
             sampleRaster sampleAddEnv busyScene)
     = hats busyScene
       ++ [ {| hat_id := "hat-1"; hat_name := "1"; hat_src := "/hats/1.png";
               hat_uid := newUid sampleAddEnv;
               hat_x := Fin 1024; hat_y := Fin (2048 / 3);
               hat_scale := Fin 7.168; hat_rotation := Fin 0;
               hat_isMirrored := false |} ].
Proof.
  destruct render_dimensions_and_first_placement
    as (Hnative & Hscaled & Hzero & _ & Hplace & Hrun & _).
  split; [| split; [| split; [| split]]].
  - apply (Hnative (mkImage 4000 3000)). cbn. lra.
  - apply (Hscaled (mkImage 1000 500)). cbn. lra.
  - now apply (Hzero (mkImage 0 600)).
  - apply (Hplace sceneWithSmallBackground sampleOverlay sampleAddEnv);
      reflexivity.
  - apply (Hrun (startEffect sceneWithSmallBackground sampleOverlay)
             busyScene sampleAddEnv); reflexivity.
Defined.

(** The claim as first stated fails for an image without width: its
    canvas is 2048 wide, which is not the width 0 scaled by [2048 / 0];
    that product is [NaN].  Only the height is scaled, to infinity. *)
Lemma zero_width_is_not_scaled :
  getRenderDimensions (mkImage 0 600)
  = {| dim_width := Fin 2048; dim_height := PosInf |}
  /\ JS.ofN (img_width (mkImage 0 600))
     * (Fin 2048 / JS.ofN (img_width (mkImage 0 600)))
     = NaN.
Proof.
  destruct (getRenderDimensions_zero_width (mkImage 0 600) eq_refl)
    as (Hdim & _ & Hnan).
  split; [| exact Hnan].
  rewrite Hdim. f_equal. cbn [img_height]. unfold JS.ofN, JS.mul, JS.scale_inf.
  rewrite sgn_pos; [reflexivity |]. apply IZR_lt. lia.
Qed.

(** ** Loading a background *)

(** C6. Whatever the scene was, a background file that is an image and
    decodes replaces the background, empties the list of placed hats and
    clears the selection. *)
Theorem processFile_resets_scene (st : EditorState) (file : File)
    (img : Image) :
  String.prefix "image/" (file_type file) = true ->
  file_decoded file = Some img ->
  image (processFile st file) = Some img
  /\ hats (processFile st file) = []
  /\ selectedHatId (processFile st file) = None.
Proof.
  intros Htype Hdecoded. unfold processFile.
  rewrite Htype, Hdecoded. cbn. auto.
Qed.

Lemma processFile_resets_scene_witness :
  image (processFile busyScene sampleFile) = Some (mkImage 3000 2000)
  /\ hats (processFile busyScene sampleFile) = []
  /\ selectedHatId (processFile busyScene sampleFile) = None.
Proof.
  apply (processFile_resets_scene busyScene sampleFile (mkImage 3000 2000));
    reflexivity.
Defined.

Lemma processFile_not_image (st : EditorState) (file : File) :
  String.prefix "image/" (file_type file) = false -> processFile st file = st.
Proof. intros Htype. unfold processFile. now rewrite Htype. Qed.

(** ** What each handler leaves alone *)

Ltac handler_cases :=
  repeat match goal with
         | |- context [match ?t with _ => _ end] => destruct t eqn:?
         end.

Lemma deleteSelectedHat_image (st : EditorState) :
  image (deleteSelectedHat st) = image st.
Proof. unfold deleteSelectedHat. handler_cases; cbn; congruence. Qed.

Lemma checkControls_image (st st' : EditorState) (x y r : number) :
  checkControls st x y r = Some st' -> image st' = image st.
Proof.
  unfold checkControls. intros Hc.
  repeat match type of Hc with
         | context [match ?t with _ => _ end] => destruct t eqn:?
         end; try discriminate; injection Hc as <-;
    auto using deleteSelectedHat_image.
Qed.

Lemma handleMouseDown_image (st : EditorState) (e : PointerEvent) :
  image (handleMouseDown st e) = image st.
Proof.
  unfold handleMouseDown.
  destruct (image st) eqn:Himg; [| exact Himg].
  destruct (checkControls st _ _ _) as [st' |] eqn:Hc.
  - rewrite (checkControls_image _ _ _ _ _ Hc). exact Himg.
  - destruct (hitScan _ _ _ _ _); exact Himg.
Qed.

Lemma handleMouseMove_image (st : EditorState) (e : PointerEvent) :
  image (handleMouseMove st e) = image st.
Proof. unfold handleMouseMove. handler_cases; cbn; congruence. Qed.

Lemma handleMouseMove_mode (st : EditorState) (e : PointerEvent) :
  mode (handleMouseMove st e) = mode st.
Proof. unfold handleMouseMove. handler_cases; cbn; congruence. Qed.

Lemma addHat_image st hatToAdd img env :
  image (addHat st hatToAdd img env) = image st.
Proof. unfold addHat. handler_cases; cbn; congruence. Qed.

Lemma addHat_mode st hatToAdd img env :
  mode (addHat st hatToAdd img env) = mode st.
Proof. unfold addHat. handler_cases; cbn; congruence. Qed.

Lemma addHatEffect_image st hatToAdd decoded env :
  image (addHatEffect st hatToAdd decoded env) = image st.
Proof.
  unfold addHatEffect. handler_cases; rewrite ?addHat_image; reflexivity.
Qed.

Lemma addHatEffect_mode st hatToAdd decoded env :
  mode (addHatEffect st hatToAdd decoded env) = mode st.
Proof.
  unfold addHatEffect. handler_cases; rewrite ?addHat_mode; reflexivity.
Qed.

Lemma processFile_mode st file : mode (processFile st file) = mode st.
Proof. unfold processFile. handler_cases; cbn; congruence. Qed.

Lemma processFile_image_none st file :
  image (processFile st file) = None -> image st = None.
Proof. unfold processFile. handler_cases; cbn; congruence. Qed.

(** ** No pointer interaction without a background *)

(** A gesture can only be in progress over a background: the mode leaves
    [NONE] in [handleMouseDown] alone, behind its [image] guard. *)
Lemma idle_without_background (st : EditorState) :
  reachable st -> image st = None -> mode st = NONE.
Proof.
  induction 1 as [| st ev Hreach IH]; [reflexivity |].
  destruct ev; cbn [step].
  - intros Hnone. rewrite processFile_mode.
    apply IH, (processFile_image_none _ _ Hnone).
  - exact IH.
  - exact IH.
  - unfold handleDrop. destruct files as [| file ?]; [exact IH |].
    intros Hnone. rewrite processFile_mode.
    apply IH, (processFile_image_none _ _ Hnone).
  - rewrite addHatEffect_image, addHatEffect_mode. exact IH.
  - rewrite handleMouseDown_image. intros Hnone.
    unfold handleMouseDown. rewrite Hnone. auto.
  - rewrite handleMouseMove_image, handleMouseMove_mode. exact IH.
  - reflexivity.
Qed.

Lemma pointer_event_without_background (st : EditorState) (ev : Event) :
  image st = None -> mode st = NONE -> isPointerEvent ev = true ->
  step st ev = st.
Proof.
  intros Hnone Hmode Hev. destruct ev; try discriminate; cbn [step].
  - unfold handleMouseDown. now rewrite Hnone.
  - unfold handleMouseMove. now rewrite Hmode.
  - unfold handleMouseUp, setMode. rewrite <- Hmode. now destruct st.
Qed.

(** C10. A pointer-down while no background is loaded returns at once:
    the placed hats, the selection and the mode are unchanged.  So the
    hats added before any background (which sit at the default position
    (400, 300) with scale 1) are out of reach of the canvas: no sequence
    of pointer events selects, moves or deletes them. *)
Theorem pointer_down_without_background (st : EditorState) :
  image st = None ->
  (forall e : PointerEvent,
     handleMouseDown st e = st
     /\ hats (handleMouseDown st e) = hats st
     /\ selectedHatId (handleMouseDown st e) = selectedHatId st
     /\ mode (handleMouseDown st e) = mode st)
  /\ (forall hatToAdd img env,
        exists hat,
          hats (addHat st hatToAdd img env) = hats st ++ [hat]
          /\ defaultPlacement hat)
  /\ (reachable st ->
      forall evs : list Event,
        forallb isPointerEvent evs = true -> run st evs = st).
Proof.
  intros Hnone. split; [| split].
  - intros e. assert (Hsame : handleMouseDown st e = st).
    { unfold handleMouseDown. now rewrite Hnone. }
    rewrite Hsame. auto.
  - intros hatToAdd img env. unfold addHat. rewrite Hnone.
    eexists. split; [reflexivity |]. repeat split.
  - intros Hreach evs. induction evs as [| ev evs IH]; [reflexivity |].
    cbn [forallb]. intros [Hev Hevs]%andb_prop. unfold run. cbn [fold_left].
    rewrite pointer_event_without_background;
      auto using idle_without_background.
Qed.

Lemma pointer_down_without_background_witness :
  handleMouseDown
    (step initialState
       (EvAddHat sampleOverlay (Some sampleRaster) sampleAddEnv))
    (pointerAt 400 300)
  = step initialState
      (EvAddHat sampleOverlay (Some sampleRaster) sampleAddEnv)
  /\ run
       (step initialState
          (EvAddHat sampleOverlay (Some sampleRaster) sampleAddEnv))
       [EvPointerDown (pointerAt 400 300); EvPointerMove (pointerAt 450 320);
        EvPointerUp]
     = step initialState
         (EvAddHat sampleOverlay (Some sampleRaster) sampleAddEnv).
Proof.
  destruct (pointer_down_without_background
              (step initialState
                 (EvAddHat sampleOverlay (Some sampleRaster) sampleAddEnv))
              eq_refl)
    as (Hdown & _ & Hrun).
  split; [apply Hdown |].
  apply Hrun; [apply reachable_step, reachable_init | reflexivity].
Defined.

(** ** Selection validity *)

Section SelectionValidity.

Lemma pretty_N_go_nonempty (x : N) (s : string) :
  s <> "" -> pretty_N_go x s <> "".
Proof.
  revert s. induction (N.lt_wf_0 x) as [x _ IH]. intros s Hs.
  destruct (N.eq_dec x 0%N) as [-> | Hx].
  - now rewrite pretty_N_go_0.
  - rewrite pretty_N_go_step by lia.
    apply IH; [apply N.div_lt; lia | discriminate].
Qed.

Lemma newUid_nonempty (env : AddEnv) : newUid env <> "".
Proof.
  unfold newUid, pretty, pretty_N.
  destruct (decide (now env = 0%N)) as [_ | Hnz]; [discriminate |].
  rewrite pretty_N_go_step by lia.
  destruct (pretty_N_go _ _) eqn:Hgo; [| discriminate].
  exfalso. revert Hgo. apply pretty_N_go_nonempty. discriminate.
Qed.

Lemma truthy_some (sel : string) : sel <> "" -> truthy (Some sel) = true.
Proof.
  intros Hsel. cbn. destruct (String.eqb_spec sel ""); [contradiction | reflexivity].
Qed.

Lemma findHat_some (uid : string) (l : list PlacedHat) (hat : PlacedHat) :
  findHat uid l = Some hat -> In hat l /\ hat_uid hat = uid.
Proof.
  intros Hfind. apply find_some in Hfind as [Hin Heq].
  split; [exact Hin | now apply String.eqb_eq].
Qed.

Lemma hitScan_some loaded x y (l : list PlacedHat) (n : nat) (hat : PlacedHat) :
  hitScan loaded x y l n = Some hat ->
  In hat l /\ hitsHat loaded x y hat = true.
Proof.
  induction n as [| i IH]; cbn [hitScan]; [discriminate |].
  destruct (l !! i) as [h |] eqn:Hlookup; [| exact IH].
  destruct (hitsHat loaded x y h) eqn:Hhit; [| exact IH].
  intros [= <-]. split; [| exact Hhit].
  apply list_elem_of_In. eapply list_elem_of_lookup_2, Hlookup.
Qed.

Lemma sceneInvariant_same_scene (st st' : EditorState) :
  hats st' = hats st -> selectedHatId st' = selectedHatId st ->
  sceneInvariant st -> sceneInvariant st'.
Proof.
  intros Hhats Hsel [Hvalid Huids]. split.
  - intros sel. rewrite Hsel, Hhats. apply Hvalid.
  - intros hat. rewrite Hhats. apply Huids.
Qed.

Lemma sceneInvariant_map (f : PlacedHat -> PlacedHat) (st : EditorState) :
  (forall h, hat_uid (f h) = hat_uid h) ->
  sceneInvariant st -> sceneInvariant (setHats (map f) st).
Proof.
  intros Hf [Hvalid Huids]. split.
  - intros sel Hsel. destruct (Hvalid sel Hsel) as (hat & Hin & Huid).
    exists (f hat). split; [now apply in_map | now rewrite Hf].
  - intros hat [h [<- Hin]]%in_map_iff. rewrite Hf. now apply Huids.
Qed.

Lemma sceneInvariant_deselect (st : EditorState) (f : list PlacedHat -> list PlacedHat) :
  (forall h, In h (f (hats st)) -> In h (hats st)) ->
  sceneInvariant st ->
  sceneInvariant (setSelectedHatId None (setHats f st)).
Proof.
  intros Hsub [_ Huids]. split.
  - intros sel [=].
  - intros hat Hin. apply Huids, Hsub, Hin.
Qed.

Lemma moveHat_uid m s x y (h : PlacedHat) : hat_uid (moveHat m s x y h) = hat_uid h.
Proof. now destruct m. Qed.

Lemma deleteSelectedHat_invariant (st : EditorState) :
  sceneInvariant st -> sceneInvariant (deleteSelectedHat st).
Proof.
  intros Hinv. unfold deleteSelectedHat.
  destruct (selectedHatId st) as [sel |]; [| exact Hinv].
  destruct (truthy (Some sel)); [| exact Hinv].
  apply (sceneInvariant_same_scene
           (setSelectedHatId None
              (setHats
                 (List.filter (fun h => negb (String.eqb (hat_uid h) sel)))
                 st))); try reflexivity.
  apply sceneInvariant_deselect; [| exact Hinv].
  intros h Hin. now apply filter_In in Hin.
Qed.

Lemma toggleMirror_invariant (st : EditorState) :
  sceneInvariant st -> sceneInvariant (toggleMirror st).
Proof.
  intros Hinv. unfold toggleMirror.
  destruct (selectedHatId st) as [sel |]; [| exact Hinv].
  apply sceneInvariant_map; [| exact Hinv].
  intros h. now destruct (String.eqb _ _).
Qed.

Lemma processFile_invariant (st : EditorState) (file : File) :
  sceneInvariant st -> sceneInvariant (processFile st file).
Proof.
  intros Hinv. unfold processFile.
  destruct (negb _); [exact Hinv |].
  destruct (file_decoded file); [| exact Hinv].
  split; [intros sel [=] | intros hat []].
Qed.

Lemma addHat_shape st hatToAdd img env :
  exists hat,
    hats (addHat st hatToAdd img env) = hats st ++ [hat]
    /\ hat_uid hat = newUid env
    /\ selectedHatId (addHat st hatToAdd img env) = Some (newUid env).
Proof.
  unfold addHat.
  destruct (match image st with Some _ => _ | None => _ end)
    as [[initialScale initialX] initialY].
  eexists. split; [reflexivity |]. split; reflexivity.
Qed.

Lemma addHat_invariant st hatToAdd img env :
  sceneInvariant st -> sceneInvariant (addHat st hatToAdd img env).
Proof.
  intros [_ Huids].
  destruct (addHat_shape st hatToAdd img env) as (hat & Hhats & Huid & Hsel).
  split.
  - intros sel. rewrite Hsel, Hhats. intros [= <-].
    exists hat. split; [| exact Huid].
    apply in_app_iff. right. now left.
  - intros h. rewrite Hhats, in_app_iff. intros [Hold | [<- | []]].
    + now apply Huids.
    + rewrite Huid. apply newUid_nonempty.
Qed.

Lemma checkControls_invariant (st st' : EditorState) (x y r : number) :
  checkControls st x y r = Some st' ->
  sceneInvariant st -> sceneInvariant st'.
Proof.
  unfold checkControls. intros Hc Hinv.
  repeat match type of Hc with
         | context [match ?t with _ => _ end] => destruct t eqn:?
         end; try discriminate; injection Hc as <-.
  - now apply deleteSelectedHat_invariant.
  - revert Hinv. now apply sceneInvariant_same_scene.
  - revert Hinv. now apply sceneInvariant_same_scene.
  - apply sceneInvariant_map; [| exact Hinv].
    intros h. now destruct (String.eqb _ _).
Qed.

Lemma handleMouseDown_invariant (st : EditorState) (e : PointerEvent) :
  sceneInvariant st -> sceneInvariant (handleMouseDown st e).
Proof.
  intros Hinv. unfold handleMouseDown.
  destruct (image st); [| exact Hinv].
  destruct (checkControls st _ _ _) as [st' |] eqn:Hc.
  { eapply checkControls_invariant; eauto. }
  destruct (hitScan _ _ _ _ _) as [hat |] eqn:Hscan.
  - apply hitScan_some in Hscan as [Hin _].
    destruct Hinv as [_ Huids]. split.
    + intros sel [= <-]. exists hat. split; [| reflexivity].
      cbn. apply in_app_iff. right. now left.
    + intros h. cbn. rewrite in_app_iff, filter_In.
      intros [[Hold _] | [<- | []]]; now apply Huids.
  - apply (sceneInvariant_deselect st (fun l => l)); auto.
Qed.

Lemma handleMouseMove_invariant (st : EditorState) (e : PointerEvent) :
  sceneInvariant st -> sceneInvariant (handleMouseMove st e).
Proof.
  intros Hinv. unfold handleMouseMove.
  destruct (mode st) eqn:Hmode; [exact Hinv | | |];
    (destruct (selectedHatId st) as [sel |]; [| exact Hinv];
     destruct (negb (truthy (Some sel))); [exact Hinv |];
     apply sceneInvariant_map; [| exact Hinv];
     intros h; destruct (negb _); [reflexivity | apply moveHat_uid]).
Qed.

Lemma initialState_invariant : sceneInvariant initialState.
Proof. split; [intros sel [=] | intros hat []]. Qed.

Lemma mutate_invariant (st : EditorState) (m : Mutator) :
  sceneInvariant st -> sceneInvariant (mutate st m).
Proof.
  destruct m; cbn [mutate];
    auto using addHat_invariant, handleMouseDown_invariant,
      deleteSelectedHat_invariant, toggleMirror_invariant,
      processFile_invariant.
Qed.

Lemma step_invariant (st : EditorState) (ev : Event) :
  sceneInvariant st -> sceneInvariant (step st ev).
Proof.
  intros Hinv. destruct ev; cbn [step];
    auto using handleMouseDown_invariant, handleMouseMove_invariant,
      processFile_invariant.
  - unfold handleDrop. destruct files; [exact Hinv |].
    now apply processFile_invariant.
  - unfold addHatEffect. destruct (loadHatImage _ _).
    + now apply addHat_invariant.
    + destruct decoded; [| exact Hinv]. now apply addHat_invariant.
Qed.

Lemma mutators_invariant (ms : list Mutator) (st : EditorState) :
  sceneInvariant st -> sceneInvariant (fold_left mutate ms st).
Proof.
  revert st. induction ms as [| m ms IH]; intros st Hinv; [exact Hinv |].
  cbn [fold_left]. apply IH, mutate_invariant, Hinv.
Qed.

Lemma reachable_invariant (st : EditorState) :
  reachable st -> sceneInvariant st.
Proof.
  induction 1; auto using initialState_invariant, step_invariant.
Qed.

Lemma filter_keeps_all {A : Type} (p : A -> bool) (l : list A) :
  (forall a, In a l -> p a = true) -> List.filter p l = l.
Proof.
  induction l as [| a l IH]; intros Hall; [reflexivity |].
  cbn. rewrite (Hall a) by now left.
  f_equal. apply IH. intros b Hb. apply Hall. now right.
Qed.

(** With distinct uids the filter of [deleteSelectedHat] takes out the
    selected hat and nothing else. *)
Lemma filter_removes_one (sel : string) (before after : list PlacedHat)
    (hat : PlacedHat) :
  hat_uid hat = sel ->
  NoDup (map hat_uid (before ++ hat :: after)) ->
  List.filter (fun h => negb (String.eqb (hat_uid h) sel))
    (before ++ hat :: after)
  = before ++ after.
Proof.
  intros Huid Hnodup.
  rewrite map_app in Hnodup. cbn [map] in Hnodup.
  apply NoDup_app in Hnodup as (_ & Hdisjoint & Hafter).
  apply NoDup_cons in Hafter as [Hnotin _].
  rewrite List.filter_app. cbn [List.filter].
  rewrite Huid, String.eqb_refl. cbn [negb].
  rewrite !filter_keeps_all; [reflexivity | |].
  - intros h Hin. destruct (String.eqb_spec (hat_uid h) sel) as [Heq |];
      [| reflexivity].
    exfalso. apply Hnotin. rewrite Huid, <- Heq.
    apply list_elem_of_In. now apply in_map.
  - intros h Hin. destruct (String.eqb_spec (hat_uid h) sel) as [Heq |];
      [| reflexivity].
    exfalso. apply (Hdisjoint (hat_uid h)).
    + apply list_elem_of_In. now apply in_map.
    + rewrite Heq, <- Huid. left.
Qed.

(** C7. Selection validity is an invariant: after any sequence of the
    scene mutators (and in every reachable state of the editor) a
    selection is the uid of a placed hat.  Deleting the selected hat
    removes exactly that entry and clears the selection; deleting with no
    selection changes nothing. *)
Theorem selection_validity :
  (forall ms : list Mutator,
     selectionValid (fold_left mutate ms initialState))
  /\ (forall st : EditorState, reachable st -> selectionValid st)
  /\ (forall (st : EditorState) (sel : string),
        sceneInvariant st ->
        selectedHatId st = Some sel ->
        NoDup (map hat_uid (hats st)) ->
        exists before hat after,
          hats st = before ++ hat :: after
          /\ hat_uid hat = sel
          /\ hats (deleteSelectedHat st) = before ++ after
          /\ selectedHatId (deleteSelectedHat st) = None)
  /\ (forall st : EditorState,
        selectedHatId st = None -> deleteSelectedHat st = st).
Proof.
  split; [| split; [| split]].
  - intros ms. apply (mutators_invariant ms), initialState_invariant.
  - intros st Hreach. now apply reachable_invariant.
  - intros st sel [Hvalid Huids] Hsel Hnodup.
    destruct (Hvalid sel Hsel) as (hat & Hin & Huid).
    destruct (in_split _ _ Hin) as (before & after & Hsplit).
    exists before, hat, after. split; [exact Hsplit |]. split; [exact Huid |].
    unfold deleteSelectedHat. rewrite Hsel, truthy_some.
    + cbn. split; [| reflexivity].
      rewrite Hsplit in *. now apply filter_removes_one.
    + rewrite <- Huid. now apply Huids.
  - intros st Hnone. unfold deleteSelectedHat. now rewrite Hnone.
Qed.

End SelectionValidity.

Lemma selection_validity_witness :
  exists before hat after,
    hats busyScene = before ++ hat :: after
    /\ hat_uid hat = "17000000000022"
    /\ hats (deleteSelectedHat busyScene) = before ++ after
    /\ selectedHatId (deleteSelectedHat busyScene) = None.
Proof.
  destruct selection_validity as (_ & _ & Hdelete & _).
  apply (Hdelete busyScene "17000000000022").
  - split.
    + intros sel [= <-]. exists otherHat. split; [right; now left | reflexivity].
    + intros hat [<- | [<- | []]]; discriminate.
  - reflexivity.
  - cbn. apply NoDup_cons. split; [| apply NoDup_singleton].
    intros [= ]%list_elem_of_singleton.
Defined.

(** ** Pointer-down: the order of the hit tests *)

Section HitTesting.

Variables (loaded : gmap string Image) (x y : number).

Lemma hitScan_find (l : list PlacedHat) (n : nat) :
  hitScan loaded x y l n = List.find (hitsHat loaded x y) (rev (take n l)).
Proof.
  induction n as [| i IH]; [reflexivity |]. cbn [hitScan].
  destruct (l !! i) as [hat |] eqn:Hlookup.
  - rewrite (take_S_r _ _ _ Hlookup), rev_unit. cbn [List.find].
    now rewrite IH.
  - apply lookup_ge_None in Hlookup.
    rewrite IH, !take_ge by lia. reflexivity.
Qed.

Lemma find_skips_misses (misses rest : list PlacedHat) :
  (forall h, In h misses -> hitsHat loaded x y h = false) ->
  List.find (hitsHat loaded x y) (misses ++ rest)
  = List.find (hitsHat loaded x y) rest.
Proof.
  induction misses as [| h misses IH]; intros Hmiss; [reflexivity |].
  cbn [app List.find]. rewrite (Hmiss h) by now left.
  apply IH. intros h' Hin. apply Hmiss. now right.
Qed.

(** The scan returns the topmost hat under the pointer: the one with
    nothing hit above it. *)
Lemma hitScan_topmost (below above : list PlacedHat) (hat : PlacedHat) :
  hitsHat loaded x y hat = true ->
  (forall h, In h above -> hitsHat loaded x y h = false) ->
  hitScan loaded x y (below ++ hat :: above)
    (length (below ++ hat :: above)) = Some hat.
Proof.
  intros Hhit Habove.
  rewrite hitScan_find, firstn_all, rev_app_distr. cbn [rev].
  rewrite <- app_assoc, find_skips_misses.
  - cbn. now rewrite Hhit.
  - intros h Hin. apply Habove. now apply in_rev.
Qed.

Lemma hitScan_nothing (l : list PlacedHat) :
  (forall h, In h l -> hitsHat loaded x y h = false) ->
  hitScan loaded x y l (length l) = None.
Proof.
  intros Hall. rewrite hitScan_find, firstn_all.
  rewrite <- (app_nil_r (rev l)), find_skips_misses; [reflexivity |].
  intros h Hin. apply Hall. now apply in_rev.
Qed.

End HitTesting.

(** ** The hit test of a hat *)

Section HatHitTest.

Variable loaded : gmap string Image.

Lemma hitsHat_unloaded (x y : number) (hat : PlacedHat) :
  loaded !! hat_src hat = None -> hitsHat loaded x y hat = false.
Proof. intros Hnone. unfold hitsHat. now rewrite Hnone. Qed.

(** For finite data the test of the code is the inverse rotation of the
    pointer offset compared with the half extents of the scaled raster. *)
Lemma hitsHat_local (hat : PlacedHat) (img : Image)
    (cx cy rot s px py : R) :
  loaded !! hat_src hat = Some img ->
  hat_x hat = Fin cx -> hat_y hat = Fin cy ->
  hat_rotation hat = Fin rot -> hat_scale hat = Fin s ->
  hitsHat loaded (Fin px) (Fin py) hat = true
  <-> withinHalfExtents
        (IZR (Z.of_N (img_width img)) * s)
        (IZR (Z.of_N (img_height img)) * s)
        (localPoint rot cx cy px py).
Proof.
  intros Himg Hx Hy Hrot Hscale.
  unfold hitsHat. rewrite Himg, Hx, Hy, Hrot, Hscale.
  unfold JS.ofN, JS.PI, JS.geb.
  cbn [JS.neg JS.mul JS.sub JS.add JS.cos JS.sin].
  rewrite !div_fin by lra.
  cbn [JS.neg JS.mul JS.sub JS.add JS.cos JS.sin].
  replace (- rot * PI / 180)%R with (- (rot * PI / 180))%R by lra.
  rewrite cos_neg, sin_neg.
  rewrite !andb_true_iff, !leb_fin.
  unfold withinHalfExtents, localPoint. cbn [fst snd].
  set (t := (rot * PI / 180)%R).
  set (w := (IZR (Z.of_N (img_width img)) * s)%R).
  set (h := (IZR (Z.of_N (img_height img)) * s)%R).
  split; intros; repeat split; lra.
Qed.

End HatHitTest.

(** ** Concrete pointer events *)

Lemma getCanvasCoords_pointerOn (w h px py : R) :
  w <> 0%R -> h <> 0%R ->
  getCanvasCoords (pointerOn w h px py) = mkPoint (Fin px) (Fin py).
Proof.
  intros Hw Hh. unfold getCanvasCoords, pointerOn.
  cbn [clientX clientY rect_left rect_top rect_width rect_height
       canvas_width canvas_height].
  rewrite !div_fin by assumption. cbn [JS.sub JS.neg JS.add JS.mul].
  f_equal; f_equal; now field.
Qed.

Lemma getUiScale_pointerOn (w h px py : R) :
  w <> 0%R -> getUiScale (pointerOn w h px py) = Fin 1.
Proof.
  intros Hw. unfold getUiScale, pointerOn. cbn [rect_width canvas_width JS.eqb].
  destruct (Req_dec_T w 0); [contradiction |].
  rewrite div_fin by assumption. f_equal. now field.
Qed.

Lemma hitRadiusOf_pointerOn (w h px py : R) :
  w <> 0%R -> hitRadiusOf (pointerOn w h px py) = Fin 18.
Proof.
  intros Hw. unfold hitRadiusOf, handleRadius, BASE_HANDLE_RADIUS.
  rewrite getUiScale_pointerOn by assumption. cbn [JS.mul]. f_equal. lra.
Qed.

Lemma getCanvasCoords_pointerAt (px py : R) :
  getCanvasCoords (pointerAt px py) = mkPoint (Fin px) (Fin py).
Proof. apply getCanvasCoords_pointerOn; lra. Qed.

Lemma hitRadiusOf_pointerAt (px py : R) :
  hitRadiusOf (pointerAt px py) = Fin 18.
Proof. apply hitRadiusOf_pointerOn; lra. Qed.

(** Whether a finite point is on the handle at a finite corner. *)
Lemma onHandle_fin (px py r cx cy : R) :
  onHandle (Fin px) (Fin py) (Fin r) (mkPoint (Fin cx) (Fin cy)) = true
  <-> ((px - cx) * (px - cx) + (py - cy) * (py - cy) <= r * r /\ 0 <= r)%R.
Proof.
  unfold onHandle, isPointInCircle. cbn [pt_x pt_y].
  rewrite distance_fin, leb_fin.
  set (d := ((px - cx) * (px - cx) + (py - cy) * (py - cy))%R).
  assert (Hd : (0 <= d)%R) by apply sum_squares_nonneg.
  split.
  - intros Hle. pose proof (sqrt_pos d) as Hpos.
    split; [| lra].
    rewrite <- (sqrt_sqrt d Hd). nra.
  - intros [Hle Hr]. rewrite <- (sqrt_square r Hr).
    now apply sqrt_le_1_alt.
Qed.

Lemma onHandle_fin_false (px py r cx cy : R) :
  (r * r < (px - cx) * (px - cx) + (py - cy) * (py - cy))%R ->
  onHandle (Fin px) (Fin py) (Fin r) (mkPoint (Fin cx) (Fin cy)) = false.
Proof.
  intros Hfar. apply not_true_is_false. rewrite onHandle_fin. lra.
Qed.

Section PointerDown.

Lemma controlTarget_some (st : EditorState) (hat : PlacedHat) (c : Corners) :
  controlTarget st = Some (hat, c) ->
  exists sel,
    selectedHatId st = Some sel
    /\ truthy (Some sel) = true
    /\ findHat sel (hats st) = Some hat
    /\ getTransformedCorners (loadedImages st) hat = Some c.
Proof.
  unfold controlTarget. intros Ht.
  destruct (selectedHatId st) as [sel |]; [| discriminate].
  destruct (truthy (Some sel)) eqn:Htruthy; [| discriminate].
  destruct (findHat sel (hats st)) as [h |] eqn:Hfind; [| discriminate].
  destruct (getTransformedCorners (loadedImages st) h) as [c' |] eqn:Hc;
    [| discriminate].
  injection Ht as -> ->. exists sel. auto.
Qed.

Lemma controlTarget_intro (st : EditorState) (sel : string)
    (hat : PlacedHat) (c : Corners) :
  selectedHatId st = Some sel ->
  truthy (Some sel) = true ->
  findHat sel (hats st) = Some hat ->
  getTransformedCorners (loadedImages st) hat = Some c ->
  controlTarget st = Some (hat, c).
Proof.
  intros Hsel Htruthy Hfind Hc. unfold controlTarget.
  now rewrite Hsel, Htruthy, Hfind, Hc.
Qed.

Lemma checkControls_target (st : EditorState) (x y r : number)
    (sel : string) (hat : PlacedHat) (c : Corners) :
  selectedHatId st = Some sel ->
  truthy (Some sel) = true ->
  findHat sel (hats st) = Some hat ->
  getTransformedCorners (loadedImages st) hat = Some c ->
  checkControls st x y r
  = if onHandle x y r (tl c) then Some (deleteSelectedHat st)
    else if onHandle x y r (tr c)
    then Some (setStartInteraction (captureStart x y hat) (setMode ROTATE st))
    else if onHandle x y r (br c)
    then Some (setStartInteraction (captureStart x y hat) (setMode SCALE st))
    else if onHandle x y r (bl c) then Some (toggleMirror st)
    else None.
Proof.
  intros Hsel Htruthy Hfind Hc. unfold checkControls, toggleMirror, onHandle.
  rewrite Hsel, Htruthy, Hfind, Hc. reflexivity.
Qed.

Lemma checkControls_none (st : EditorState) (x y r : number) :
  noControlHit st x y r -> checkControls st x y r = None.
Proof.
  unfold noControlHit. intros Hno.
  destruct (controlTarget st) as [[hat c] |] eqn:Ht.
  - destruct (controlTarget_some _ _ _ Ht) as (sel & Hsel & Htr & Hfind & Hc).
    destruct Hno as (Htl & Htr' & Hbr & Hbl).
    rewrite (checkControls_target st x y r sel hat c) by assumption.
    now rewrite Htl, Htr', Hbr, Hbl.
  - unfold controlTarget in Ht. unfold checkControls.
    destruct (selectedHatId st) as [sel |]; [| reflexivity].
    destruct (truthy (Some sel)); [| reflexivity]. cbn [negb].
    destruct (findHat sel (hats st)) as [h |]; [| reflexivity].
    destruct (getTransformedCorners (loadedImages st) h); [discriminate |].
    reflexivity.
Qed.

(** *** A selection of a reachable scene has its controls *)

Lemma checkControls_loadedImages (st st' : EditorState) (x y r : number) :
  checkControls st x y r = Some st' ->
  loadedImages st' = loadedImages st
  /\ forall h', In h' (hats st') ->
       exists h, In h (hats st) /\ hat_src h' = hat_src h.
Proof.
  unfold checkControls. intros Hc.
  repeat match type of Hc with
         | context [match ?t with _ => _ end] => destruct t eqn:?
         end; try discriminate; injection Hc as <-.
  - unfold deleteSelectedHat.
    destruct (selectedHatId st) as [sel |]; [| now eauto].
    destruct (truthy (Some sel)); [| now eauto].
    split; [reflexivity |]. cbn. intros h' [Hin _]%filter_In. eauto.
  - split; [reflexivity |]. cbn. eauto.
  - split; [reflexivity |]. cbn. eauto.
  - split; [reflexivity |]. cbn. intros h' [h [<- Hin]]%in_map_iff.
    exists h. split; [exact Hin |]. now destruct (String.eqb _ _).
Qed.

Lemma handleMouseDown_rastersLoaded (st : EditorState) (e : PointerEvent) :
  rastersLoaded st -> rastersLoaded (handleMouseDown st e).
Proof.
  intros Hloaded. unfold handleMouseDown.
  destruct (image st); [| exact Hloaded].
  destruct (checkControls st _ _ _) as [st' |] eqn:Hc.
  - destruct (checkControls_loadedImages _ _ _ _ _ Hc) as [Hsame Hsrc].
    intros h' Hin. destruct (Hsrc h' Hin) as (h & Hh & ->).
    rewrite Hsame. now apply Hloaded.
  - destruct (hitScan _ _ _ _ _) as [hat |] eqn:Hscan; [| exact Hloaded].
    apply hitScan_some in Hscan as [Hhat _].
    intros h'. cbn. rewrite in_app_iff, filter_In.
    intros [[Hin _] | [<- | []]]; now apply Hloaded.
Qed.

Lemma handleMouseMove_rastersLoaded (st : EditorState) (e : PointerEvent) :
  rastersLoaded st -> rastersLoaded (handleMouseMove st e).
Proof.
  intros Hloaded. unfold handleMouseMove.
  destruct (mode st) eqn:Hmode; [exact Hloaded | | |];
    (destruct (selectedHatId st) as [sel |]; [| exact Hloaded];
     destruct (negb (truthy (Some sel))); [exact Hloaded |];
     intros h'; cbn; intros [h [<- Hin]]%in_map_iff;
     destruct (negb _); [now apply Hloaded |];
     apply (Hloaded h Hin)).
Qed.

Lemma processFile_rastersLoaded (st : EditorState) (file : File) :
  rastersLoaded st -> rastersLoaded (processFile st file).
Proof.
  intros Hloaded. unfold processFile.
  destruct (negb _); [exact Hloaded |].
  destruct (file_decoded file); [| exact Hloaded]. intros h [].
Qed.

Lemma addHat_rastersLoaded st hatToAdd img env :
  is_Some (loadedImages st !! h_src hatToAdd) ->
  rastersLoaded st -> rastersLoaded (addHat st hatToAdd img env).
Proof.
  intros Hsrc Hloaded. unfold addHat.
  destruct (match image st with Some _ => _ | None => _ end)
    as [[initialScale initialX] initialY].
  intros h. cbn. rewrite in_app_iff. intros [Hold | [<- | []]].
  - now apply Hloaded.
  - exact Hsrc.
Qed.

Lemma reachable_rastersLoaded (st : EditorState) :
  reachable st -> rastersLoaded st.
Proof.
  induction 1 as [| st ev _ IH]; [intros h [] |].
  destruct ev; cbn [step];
    auto using processFile_rastersLoaded, handleMouseDown_rastersLoaded,
      handleMouseMove_rastersLoaded.
  - unfold handleDrop. destruct files; [exact IH |].
    now apply processFile_rastersLoaded.
  - unfold addHatEffect, loadHatImage.
    destruct (loadedImages st !! h_src hatToAdd) as [img |] eqn:Hsrc.
    + apply addHat_rastersLoaded; [rewrite Hsrc; eauto | exact IH].
    + destruct decoded as [img |]; [| exact IH].
      apply addHat_rastersLoaded.
      * cbn. rewrite lookup_insert_eq. eauto.
      * intros h Hin. cbn. apply lookup_insert_is_Some'. right.
        now apply IH.
Qed.

Lemma findHat_finds (sel : string) (l : list PlacedHat) (hat : PlacedHat) :
  In hat l -> hat_uid hat = sel -> exists found, findHat sel l = Some found.
Proof.
  intros Hin Huid. unfold findHat.
  destruct (List.find _ l) as [found |] eqn:Hfind; [eauto |].
  exfalso. apply (find_none _ _ Hfind) in Hin.
  now rewrite Huid, String.eqb_refl in Hin.
Qed.

Lemma findHat_map (sel : string) (f : PlacedHat -> PlacedHat)
    (l : list PlacedHat) :
  (forall h, hat_uid (f h) = hat_uid h) ->
  findHat sel (map f l) = option_map f (findHat sel l).
Proof.
  intros Hf. unfold findHat.
  induction l as [| h l IH]; [reflexivity |].
  cbn [map List.find]. rewrite Hf.
  destruct (String.eqb (hat_uid h) sel); [reflexivity | exact IH].
Qed.

Lemma reachable_controlTarget (st : EditorState) (sel : string) :
  reachable st -> selectedHatId st = Some sel ->
  exists hat c, controlTarget st = Some (hat, c) /\ hat_uid hat = sel.
Proof.
  intros Hreach Hsel.
  destruct (reachable_invariant st Hreach) as [Hvalid Huids].
  destruct (Hvalid sel Hsel) as (h & Hin & Huid).
  destruct (findHat_finds sel (hats st) h Hin Huid) as [hat Hfind].
  destruct (findHat_some _ _ _ Hfind) as [Hhat Hhat_uid].
  destruct (reachable_rastersLoaded st Hreach hat Hhat) as [img Himg].
  exists hat, (GeometrySpec.transformedCorners hat img).
  split; [| exact Hhat_uid].
  apply (controlTarget_intro st sel); try assumption.
  - apply truthy_some. rewrite <- Huid. now apply Huids.
  - now apply getTransformedCorners_general.
Qed.

(** C3. With a background loaded, a pointer-down is tested in a fixed
    order.  When the selection has controls, its four hit circles, of
    radius 1.5 times the drawn handle radius, come first, in the order
    delete, rotate, scale, mirror, and the first hit decides.  Delete
    removes the hat, clears the selection and goes to [NONE].  Rotate and
    scale enter their mode and store as baseline the pointer and the
    hat's rotation, scale and position, changing nothing else.  Mirror
    negates the [isMirrored] flag of the selected hat at once and leaves
    everything else, the mode included.  When no control is hit, the hats
    are tested from the top of the z-order down, the pointer taken into
    the hat's frame and compared with its half extents; the first hit is
    selected, moved to the end of the list and dragged, with the same
    baseline.  When nothing is hit the selection is cleared.  In a scene
    the editor can reach every selection has its controls. *)
Theorem handleMouseDown_priority (st : EditorState) (e : PointerEvent)
    (bg : Image) :
  image st = Some bg ->
  let x := pt_x (getCanvasCoords e) in
  let y := pt_y (getCanvasCoords e) in
  let r := hitRadiusOf e in
  (forall hat c,
     controlTarget st = Some (hat, c) ->
     (onHandle x y r (tl c) = true ->
      handleMouseDown st e
      = {| image := image st;
           hats :=
             List.filter
               (fun h => negb (String.eqb (hat_uid h) (hat_uid hat)))
               (hats st);
           selectedHatId := None;
           loadedImages := loadedImages st;
           isDragging := isDragging st;
           mode := NONE;
           startInteraction := startInteraction st |})
     /\ (onHandle x y r (tl c) = false ->
         onHandle x y r (tr c) = true ->
         handleMouseDown st e
         = {| image := image st;
              hats := hats st;
              selectedHatId := selectedHatId st;
              loadedImages := loadedImages st;
              isDragging := isDragging st;
              mode := ROTATE;
              startInteraction :=
                {| mouseX := x; mouseY := y;
                   startRotation := hat_rotation hat;
                   startScale := hat_scale hat;
                   startX := hat_x hat; startY := hat_y hat |} |})
     /\ (onHandle x y r (tl c) = false ->
         onHandle x y r (tr c) = false ->
         onHandle x y r (br c) = true ->
         handleMouseDown st e
         = {| image := image st;
              hats := hats st;
              selectedHatId := selectedHatId st;
              loadedImages := loadedImages st;
              isDragging := isDragging st;
              mode := SCALE;
              startInteraction :=
                {| mouseX := x; mouseY := y;
                   startRotation := hat_rotation hat;
                   startScale := hat_scale hat;
                   startX := hat_x hat; startY := hat_y hat |} |})
     /\ (onHandle x y r (tl c) = false ->
         onHandle x y r (tr c) = false ->
         onHandle x y r (br c) = false ->
         onHandle x y r (bl c) = true ->
         handleMouseDown st e
         = {| image := image st;
              hats :=
                map (fun h =>
                       if String.eqb (hat_uid h) (hat_uid hat)
                       then {| hat_id := hat_id h;
                               hat_name := hat_name h;
                               hat_src := hat_src h;
                               hat_uid := hat_uid h;
                               hat_x := hat_x h;
                               hat_y := hat_y h;
                               hat_scale := hat_scale h;
                               hat_rotation := hat_rotation h;
                               hat_isMirrored := negb (hat_isMirrored h) |}
                       else h)
                  (hats st);
              selectedHatId := selectedHatId st;
              loadedImages := loadedImages st;
              isDragging := isDragging st;
              mode := mode st;
              startInteraction := startInteraction st |}
         /\ findHat (hat_uid hat) (hats (handleMouseDown st e))
            = Some {| hat_id := hat_id hat;
                      hat_name := hat_name hat;
                      hat_src := hat_src hat;
                      hat_uid := hat_uid hat;
                      hat_x := hat_x hat;
                      hat_y := hat_y hat;
                      hat_scale := hat_scale hat;
                      hat_rotation := hat_rotation hat;
                      hat_isMirrored := negb (hat_isMirrored hat) |}))
  /\ (noControlHit st x y r ->
      (forall below hat above,
         hats st = below ++ hat :: above ->
         hitsHat (loadedImages st) x y hat = true ->
         (forall h, In h above -> hitsHat (loadedImages st) x y h = false) ->
         handleMouseDown st e
         = {| image := image st;
              hats :=
                List.filter
                  (fun h => negb (String.eqb (hat_uid h) (hat_uid hat)))
                  (hats st)
                ++ [hat];
              selectedHatId := Some (hat_uid hat);
              loadedImages := loadedImages st;
              isDragging := isDragging st;
              mode := DRAG;
              startInteraction :=
                {| mouseX := x; mouseY := y;
                   startRotation := hat_rotation hat;
                   startScale := hat_scale hat;
                   startX := hat_x hat; startY := hat_y hat |} |}
         /\ (NoDup (map hat_uid (hats st)) ->
             hats (handleMouseDown st e) = (below ++ above) ++ [hat]))
      /\ ((forall h, In h (hats st) ->
             hitsHat (loadedImages st) x y h = false) ->
          handleMouseDown st e
          = {| image := image st;
               hats := hats st;
               selectedHatId := None;
               loadedImages := loadedImages st;
               isDragging := isDragging st;
               mode := mode st;
               startInteraction := startInteraction st |}))
  /\ (forall (hat : PlacedHat) (img : Image) (cx cy rot s px py : R),
        x = Fin px -> y = Fin py ->
        loadedImages st !! hat_src hat = Some img ->
        hat_x hat = Fin cx -> hat_y hat = Fin cy ->
        hat_rotation hat = Fin rot -> hat_scale hat = Fin s ->
        hitsHat (loadedImages st) x y hat = true
        <-> withinHalfExtents
              (IZR (Z.of_N (img_width img)) * s)
              (IZR (Z.of_N (img_height img)) * s)
              (localPoint rot cx cy px py))
  /\ (reachable st ->
      forall sel, selectedHatId st = Some sel ->
        exists hat c, controlTarget st = Some (hat, c) /\ hat_uid hat = sel)
  /\ r = Fin 12 * getUiScale e * Fin 1.5
  /\ (forall p : Point,
        onHandle x y r p = isPointInCircle x y (pt_x p) (pt_y p) r).
Proof.
  intros Himg x y r.
  assert (Hdown : handleMouseDown st e
                  = match checkControls st x y r with
                    | Some st' => st'
                    | None =>
                        match hitScan (loadedImages st) x y (hats st)
                                (length (hats st)) with
                        | Some hat =>
                            setStartInteraction (captureStart x y hat)
                              (setMode DRAG
                                 (setHats
                                    (fun prev =>
                                       List.filter
                                         (fun h =>
                                            negb (String.eqb (hat_uid h)
                                                    (hat_uid hat)))
                                         prev
                                       ++ [hat])
                                    (setSelectedHatId (Some (hat_uid hat)) st)))
                        | None => setSelectedHatId None st
                        end
                    end).
  { unfold handleMouseDown. now rewrite Himg. }
  split; [| split; [| split; [| split; [| split]]]].
  - intros hat c Ht.
    destruct (controlTarget_some _ _ _ Ht) as (sel & Hsel & Htruthy & Hfind & Hc).
    rewrite Hdown, (checkControls_target st x y r sel hat c) by assumption.
    destruct (findHat_some _ _ _ Hfind) as [_ Huid].
    split; [| split; [| split]].
    + intros ->. unfold deleteSelectedHat. rewrite Hsel, Htruthy, Huid.
      reflexivity.
    + now intros -> ->.
    + now intros -> -> ->.
    + intros -> -> -> ->. unfold toggleMirror. rewrite Hsel, Huid.
      split; [unfold setHats, flipHat; now rewrite Hsel |].
      cbn [setHats hats]. rewrite findHat_map.
      * rewrite Hfind. cbn [option_map].
        rewrite Huid, String.eqb_refl. unfold flipHat. now rewrite Huid.
      * intros h. now destruct (String.eqb _ _).
  - intros Hno. rewrite Hdown, (checkControls_none _ _ _ _ Hno). split.
    + intros below hat above Hsplit Hhit Habove.
      rewrite Hsplit, hitScan_topmost by assumption.
      split; [now rewrite <- Hsplit |].
      intros Hnodup. cbn [hats setStartInteraction setMode setHats].
      cbn [setSelectedHatId hats]. rewrite Hsplit in *.
      now rewrite filter_removes_one.
    + intros Hall. now rewrite hitScan_nothing.
  - intros hat img cx cy rot s px py -> -> Himg' Hx Hy Hrot Hs.
    now apply hitsHat_local.
  - intros Hreach sel Hsel. now apply reachable_controlTarget.
  - reflexivity.
  - reflexivity.
Qed.

End PointerDown.

Lemma sampleHat_corners :
  getTransformedCorners (loadedImages selectedScene) sampleHat
  = Some {| tl := mkPoint (Fin (400 - 100 / 2)) (Fin (300 - 40 / 2));
            tr := mkPoint (Fin (400 + 100 / 2)) (Fin (300 - 40 / 2));
            br := mkPoint (Fin (400 + 100 / 2)) (Fin (300 + 40 / 2));
            bl := mkPoint (Fin (400 - 100 / 2)) (Fin (300 + 40 / 2));
            width := Fin 100;
            height := Fin 40 |}.
Proof.
  exact (getTransformedCorners_upright (loadedImages selectedScene)
           sampleHat sampleRaster 400 300 eq_refl eq_refl eq_refl eq_refl
           eq_refl).
Qed.

Lemma sampleHat_controlTarget :
  controlTarget selectedScene
  = Some (sampleHat,
          {| tl := mkPoint (Fin (400 - 100 / 2)) (Fin (300 - 40 / 2));
             tr := mkPoint (Fin (400 + 100 / 2)) (Fin (300 - 40 / 2));
             br := mkPoint (Fin (400 + 100 / 2)) (Fin (300 + 40 / 2));
             bl := mkPoint (Fin (400 - 100 / 2)) (Fin (300 + 40 / 2));
             width := Fin 100;
             height := Fin 40 |}).
Proof.
  apply (controlTarget_intro selectedScene (hat_uid sampleHat));
    try reflexivity.
  apply sampleHat_corners.
Qed.

Lemma handleMouseDown_priority_witness :
  handleMouseDown selectedScene (pointerAt 450 280)
  = {| image := image selectedScene;
       hats := hats selectedScene;
       selectedHatId := selectedHatId selectedScene;
       loadedImages := loadedImages selectedScene;
       isDragging := isDragging selectedScene;
       mode := ROTATE;
       startInteraction :=
         {| mouseX := Fin 450; mouseY := Fin 280;
            startRotation := hat_rotation sampleHat;
            startScale := hat_scale sampleHat;
            startX := hat_x sampleHat; startY := hat_y sampleHat |} |}
  /\ hat_isMirrored sampleHat = false
  /\ findHat (hat_uid sampleHat)
       (hats (handleMouseDown selectedScene (pointerAt 350 320)))
     = Some {| hat_id := hat_id sampleHat;
               hat_name := hat_name sampleHat;
               hat_src := hat_src sampleHat;
               hat_uid := hat_uid sampleHat;
               hat_x := hat_x sampleHat;
               hat_y := hat_y sampleHat;
               hat_scale := hat_scale sampleHat;
               hat_rotation := hat_rotation sampleHat;
               hat_isMirrored := true |}
  /\ handleMouseDown selectedScene (pointerAt 400 300)
     = {| image := image selectedScene;
          hats :=
            List.filter
              (fun h => negb (String.eqb (hat_uid h) (hat_uid sampleHat)))
              (hats selectedScene)
            ++ [sampleHat];
          selectedHatId := Some (hat_uid sampleHat);
          loadedImages := loadedImages selectedScene;
          isDragging := isDragging selectedScene;
          mode := DRAG;
          startInteraction :=
            {| mouseX := Fin 400; mouseY := Fin 300;
               startRotation := hat_rotation sampleHat;
               startScale := hat_scale sampleHat;
               startX := hat_x sampleHat; startY := hat_y sampleHat |} |}.
Proof.
  split; [| split; [reflexivity | split]].
  - destruct (handleMouseDown_priority selectedScene (pointerAt 450 280)
                smallBackground eq_refl) as (Hcontrols & _).
    destruct (Hcontrols _ _ sampleHat_controlTarget) as (_ & Hrotate & _).
    rewrite getCanvasCoords_pointerAt, hitRadiusOf_pointerAt in Hrotate.
    cbn [pt_x pt_y tl tr] in Hrotate. apply Hrotate.
    + apply onHandle_fin_false. lra.
    + apply onHandle_fin. lra.
  - destruct (handleMouseDown_priority selectedScene (pointerAt 350 320)
                smallBackground eq_refl) as (Hcontrols & _).
    destruct (Hcontrols _ _ sampleHat_controlTarget) as (_ & _ & _ & Hflip).
    rewrite getCanvasCoords_pointerAt, hitRadiusOf_pointerAt in Hflip.
    cbn [pt_x pt_y tl tr br bl] in Hflip.
    destruct Hflip as [_ Hflipped].
    + apply onHandle_fin_false. lra.
    + apply onHandle_fin_false. lra.
    + apply onHandle_fin_false. lra.
    + apply onHandle_fin. lra.
    + exact Hflipped.
  - destruct (handleMouseDown_priority selectedScene (pointerAt 400 300)
                smallBackground eq_refl) as (_ & Hhats & Hlocal & _).
    rewrite getCanvasCoords_pointerAt, hitRadiusOf_pointerAt in Hhats.
    rewrite getCanvasCoords_pointerAt in Hlocal.
    cbn [pt_x pt_y] in Hhats, Hlocal.
    destruct Hhats as [Hselect _].
    + unfold noControlHit. rewrite sampleHat_controlTarget. cbn [tl tr br bl].
      repeat split; apply onHandle_fin_false; lra.
    + apply (Hselect [] sampleHat []); [reflexivity | | intros h []].
      apply (Hlocal sampleHat sampleRaster 400 300 0 1 400 300)%R;
        try reflexivity.
      unfold withinHalfExtents, localPoint. cbn [fst snd img_width img_height
        sampleRaster].
      replace (400 - 400)%R with 0%R by lra.
      replace (300 - 300)%R with 0%R by lra.
      cbn. lra.
Defined.


(** ** Pointer-move: what happens to the selected hat *)

Section PointerMove.

Lemma handleMouseMove_active (st : EditorState) (e : PointerEvent)
    (sel : string) :
  mode st <> NONE ->
  selectedHatId st = Some sel ->
  sel <> "" ->
  handleMouseMove st e
  = setHats
      (map (fun hat =>
              if String.eqb (hat_uid hat) sel
              then moveHat (mode st) (startInteraction st)
                     (pt_x (getCanvasCoords e)) (pt_y (getCanvasCoords e)) hat
              else hat))
      st.
Proof.
  intros Hmode Hsel Hne. unfold handleMouseMove.
  rewrite Hsel, (truthy_some _ Hne). cbn [negb].
  destruct (mode st) eqn:Hm; [contradiction | | |];
    (unfold setHats; f_equal; apply map_ext; intros hat;
     now destruct (String.eqb (hat_uid hat) sel)).
Qed.

Lemma Rdistance_nonneg (px py cx cy : R) : (0 <= Rdistance px py cx cy)%R.
Proof. apply sqrt_pos. Qed.

Lemma Rdistance_zero (px py cx cy : R) :
  Rdistance px py cx cy = 0%R <-> px = cx /\ py = cy.
Proof.
  unfold Rdistance. split.
  - intros Hz. apply sqrt_eq_0 in Hz; [| apply sum_squares_nonneg].
    assert (Hx : ((px - cx) * (px - cx) = 0)%R)
      by (pose proof (sum_squares_nonneg (py - cy) 0);
          pose proof (sum_squares_nonneg (px - cx) 0); lra).
    assert (Hy : ((py - cy) * (py - cy) = 0)%R) by lra.
    apply Rmult_integral in Hx. apply Rmult_integral in Hy. lra.
  - intros [-> ->].
    replace ((cx - cx) * (cx - cx) + (cy - cy) * (cy - cy))%R with 0%R by lra.
    apply sqrt_0.
Qed.

Lemma distanceFromCentre_fin (hat : PlacedHat) (px py cx cy : R) :
  hat_x hat = Fin cx -> hat_y hat = Fin cy ->
  distanceFromCentre (Fin px) (Fin py) hat = Fin (Rdistance px py cx cy).
Proof.
  intros Hx Hy. unfold distanceFromCentre. rewrite Hx, Hy.
  apply distance_fin.
Qed.

(** The floored scale on finite data with the baseline off the centre. *)
Lemma flooredScale_fin (s : StartInteraction) (hat : PlacedHat)
    (px py cx cy mx my k : R) :
  hat_x hat = Fin cx -> hat_y hat = Fin cy ->
  mouseX s = Fin mx -> mouseY s = Fin my -> startScale s = Fin k ->
  (mx, my) <> (cx, cy) ->
  flooredScale s (Fin px) (Fin py) hat
  = Fin (Rmax 0.1 (k * (Rdistance px py cx cy / Rdistance mx my cx cy))).
Proof.
  intros Hx Hy Hmx Hmy Hk Hoff. unfold flooredScale.
  rewrite Hmx, Hmy, Hk, !(distanceFromCentre_fin hat _ _ cx cy) by assumption.
  rewrite div_fin.
  - cbn [JS.mul]. apply max_fin.
  - intros Hz. apply Rdistance_zero in Hz as [-> ->]. now apply Hoff.
Qed.

Lemma Rmax_floor_monotone (k d1 d2 d0 : R) :
  (0 < d0)%R -> (0 <= d1 <= d2)%R ->
  (Rmax 0.1 (k * (d1 / d0)) <= Rmax 0.1 (k * (d2 / d0)))%R.
Proof.
  intros Hd0 [Hd1 Hle]. unfold Rdiv.
  pose proof (Rinv_0_lt_compat d0 Hd0) as Hinv.
  set (i := (/ d0)%R) in *.
  assert (Hq1 : (0 <= d1 * i)%R) by nra.
  assert (Hq : (d1 * i <= d2 * i)%R) by nra.
  destruct (Rle_dec 0 k) as [Hk | Hk].
  - apply Rle_max_compat_l. nra.
  - assert (Hneg : (k * (d2 * i) <= 0)%R) by nra.
    rewrite (Rmax_left 0.1 (k * (d2 * i))) by lra.
    apply Rmax_lub; [lra | nra].
Qed.

Lemma Rmax_floor_strict (k d1 d2 d0 : R) :
  (0 < d0)%R -> (0 < k)%R -> (d1 < d2)%R ->
  (0.1 <= k * (d1 / d0))%R ->
  (Rmax 0.1 (k * (d1 / d0)) < Rmax 0.1 (k * (d2 / d0)))%R.
Proof.
  intros Hd0 Hk Hlt. unfold Rdiv.
  pose proof (Rinv_0_lt_compat d0 Hd0) as Hinv.
  set (i := (/ d0)%R) in *. intros Hfloor.
  assert (Hq : (d1 * i < d2 * i)%R) by nra.
  assert (Hprod : (k * (d1 * i) < k * (d2 * i))%R) by nra.
  rewrite !Rmax_right by lra. exact Hprod.
Qed.

End PointerMove.

(** ** Scaling *)

Section Scaling.

Lemma moveHat_scale (s : StartInteraction) (x y : number) (hat : PlacedHat) :
  moveHat SCALE s x y hat = withScale hat (flooredScale s x y hat).
Proof. reflexivity. Qed.

Lemma Rdistance_horizontal (px cx cy d : R) :
  (0 <= d)%R -> (px - cx = d)%R -> Rdistance px cy cx cy = d.
Proof.
  intros Hd Hpx. unfold Rdistance. rewrite Hpx.
  replace (d * d + (cy - cy) * (cy - cy))%R with (d * d)%R by lra.
  now apply sqrt_square.
Qed.

Lemma max_floor (v : number) :
  JS.max (Fin 0.1) v = NaN \/ (Fin 0.1 <=? JS.max (Fin 0.1) v) = true.
Proof.
  destruct v as [r | | |]; cbn [JS.max].
  - right. destruct (Fin 0.1 <=? Fin r) eqn:Hle; [exact Hle |].
    apply leb_fin. lra.
  - right. reflexivity.
  - right. cbn [JS.leb]. apply leb_fin. lra.
  - left. reflexivity.
Qed.

(** C4, as the code has it.  A pointer-move in Scaling mode changes
    nothing but the scale of the selected hat, which becomes
    [max(0.1, baselineScale * (currentDistance / baselineDistance))], the
    distances taken from the hat's centre.  This value is [NaN] or at
    least 0.1, whatever the data.  When the hat's centre, the baseline
    pointer, the baseline scale and the pointer are finite and the
    baseline pointer is off the centre, it is the real number
    [Rmax 0.1 (k * (d / d0))], at least 0.1 for every pointer position,
    the centre included; it never decreases when the pointer distance
    grows, and it grows strictly where the unfloored value has reached
    the floor.  With the centre at infinity it is [NaN], although the
    baseline pointer is off the centre, and so it is with the baseline
    pointer and the pointer both on the centre. *)
Theorem scaling_floored_and_monotone (st : EditorState) (e : PointerEvent)
    (sel : string) :
  mode st = SCALE ->
  selectedHatId st = Some sel ->
  sel <> "" ->
  let x := pt_x (getCanvasCoords e) in
  let y := pt_y (getCanvasCoords e) in
  let s := startInteraction st in
  handleMouseMove st e
  = {| image := image st;
       hats :=
         map (fun hat =>
                if String.eqb (hat_uid hat) sel
                then {| hat_id := hat_id hat;
                        hat_name := hat_name hat;
                        hat_src := hat_src hat;
                        hat_uid := hat_uid hat;
                        hat_x := hat_x hat;
                        hat_y := hat_y hat;
                        hat_scale := flooredScale s x y hat;
                        hat_rotation := hat_rotation hat;
                        hat_isMirrored := hat_isMirrored hat |}
                else hat)
           (hats st);
       selectedHatId := selectedHatId st;
       loadedImages := loadedImages st;
       isDragging := isDragging st;
       mode := mode st;
       startInteraction := startInteraction st |}
  /\ (forall (hat : PlacedHat) (px py : number),
        flooredScale s px py hat
        = JS.max (Fin 0.1)
            (startScale s
             * (JS.sqrt (JS.pow2 (px - hat_x hat) + JS.pow2 (py - hat_y hat))
                / JS.sqrt (JS.pow2 (mouseX s - hat_x hat)
                           + JS.pow2 (mouseY s - hat_y hat)))))
  /\ (forall (hat : PlacedHat) (px py : number),
        flooredScale s px py hat = NaN
        \/ (Fin 0.1 <=? flooredScale s px py hat) = true)
  /\ (forall (hat : PlacedHat) (cx cy mx my k : R),
        hat_x hat = Fin cx -> hat_y hat = Fin cy ->
        mouseX s = Fin mx -> mouseY s = Fin my -> startScale s = Fin k ->
        (mx, my) <> (cx, cy) ->
        (forall px py : R,
           flooredScale s (Fin px) (Fin py) hat
           = Fin (Rmax 0.1
                    (k * (Rdistance px py cx cy / Rdistance mx my cx cy)))
           /\ (0.1 <= Rmax 0.1
                        (k * (Rdistance px py cx cy / Rdistance mx my cx cy)))%R)
        /\ (forall px py qx qy : R,
              (Rdistance px py cx cy <= Rdistance qx qy cx cy)%R ->
              (flooredScale s (Fin px) (Fin py) hat
               <=? flooredScale s (Fin qx) (Fin qy) hat) = true)
        /\ (forall px py qx qy : R,
              (0 < k)%R ->
              (0.1 <= k * (Rdistance px py cx cy / Rdistance mx my cx cy))%R ->
              (Rdistance px py cx cy < Rdistance qx qy cx cy)%R ->
              (flooredScale s (Fin px) (Fin py) hat
               <? flooredScale s (Fin qx) (Fin qy) hat) = true))
  /\ (forall (hat : PlacedHat) (cx mx my px py : R),
        hat_x hat = Fin cx -> hat_y hat = PosInf ->
        mouseX s = Fin mx -> mouseY s = Fin my ->
        flooredScale s (Fin px) (Fin py) hat = NaN)
  /\ (forall (hat : PlacedHat) (cx cy : R),
        hat_x hat = Fin cx -> hat_y hat = Fin cy ->
        mouseX s = Fin cx -> mouseY s = Fin cy ->
        flooredScale s (Fin cx) (Fin cy) hat = NaN).
Proof.
  intros Hmode Hsel Hne x y s.
  split; [| split; [| split; [| split; [| split]]]].
  - rewrite (handleMouseMove_active st e sel) by (congruence || assumption).
    unfold setHats. f_equal. now rewrite Hmode.
  - reflexivity.
  - intros hat px py. apply max_floor.
  - intros hat cx cy mx my k Hx Hy Hmx Hmy Hk Hoff.
    assert (Hd0 : (0 < Rdistance mx my cx cy)%R).
    { destruct (Rdistance_nonneg mx my cx cy) as [Hpos | Hzero]; [exact Hpos |].
      symmetry in Hzero. apply Rdistance_zero in Hzero as [-> ->].
      now contradiction Hoff. }
    split; [| split].
    + intros px py. split.
      * now apply (flooredScale_fin s hat px py cx cy mx my k).
      * apply Rmax_l.
    + intros px py qx qy Hle.
      rewrite !(flooredScale_fin s hat _ _ cx cy mx my k) by assumption.
      apply leb_fin, Rmax_floor_monotone; [exact Hd0 |].
      split; [apply Rdistance_nonneg | exact Hle].
    + intros px py qx qy Hkpos Hfloor Hlt.
      rewrite !(flooredScale_fin s hat _ _ cx cy mx my k) by assumption.
      now apply ltb_fin, Rmax_floor_strict.
  - intros hat cx mx my px py Hx Hy Hmx Hmy.
    unfold flooredScale, distanceFromCentre.
    rewrite Hx, Hy, Hmx, Hmy. cbn.
    now destruct (startScale s).
  - intros hat cx cy Hx Hy Hmx Hmy. unfold flooredScale.
    rewrite Hmx, Hmy, !(distanceFromCentre_fin hat _ _ cx cy) by assumption.
    replace (Rdistance cx cy cx cy) with 0%R
      by (symmetry; now apply Rdistance_zero).
    rewrite div_zero_zero. now destruct (startScale s).
Qed.

End Scaling.

(** ** Entering a gesture *)

Section GestureStart.

Lemma handleMouseDown_outcome (st : EditorState) (e : PointerEvent)
    (bg : Image) :
  image st = Some bg ->
  handleMouseDown st e
  = pointerDownOutcome st (pt_x (getCanvasCoords e))
      (pt_y (getCanvasCoords e)) (hitRadiusOf e).
Proof. intros Himg. unfold handleMouseDown. now rewrite Himg. Qed.

Lemma deleteSelectedHat_mode (st : EditorState) (sel : string) :
  selectedHatId st = Some sel -> truthy (Some sel) = true ->
  mode (deleteSelectedHat st) = NONE.
Proof.
  intros Hsel Htruthy. unfold deleteSelectedHat. now rewrite Hsel, Htruthy.
Qed.

Lemma toggleMirror_mode (st : EditorState) :
  mode (toggleMirror st) = mode st.
Proof. unfold toggleMirror. now destruct (selectedHatId st). Qed.

Lemma scan_outcome_mode (st : EditorState) (x y : number) (m : Mode) :
  m <> DRAG -> mode st <> m ->
  mode
    match hitScan (loadedImages st) x y (hats st) (length (hats st)) with
    | Some hat =>
        setStartInteraction (captureStart x y hat)
          (setMode DRAG
             (setHats
                (fun prev =>
                   List.filter
                     (fun h => negb (String.eqb (hat_uid h) (hat_uid hat)))
                     prev
                   ++ [hat])
                (setSelectedHatId (Some (hat_uid hat)) st)))
    | None => setSelectedHatId None st
    end
  <> m.
Proof.
  intros Hdrag Hmode. destruct (hitScan _ _ _ _ _); cbn; congruence.
Qed.

(** A pointer-down that takes the editor into [ROTATE] or [SCALE] went
    through the matching handle of the selected hat, past the delete
    handle, and captured that hat's transform. *)
Lemma handleMouseDown_enters (st : EditorState) (e : PointerEvent) (m : Mode) :
  m = ROTATE \/ m = SCALE ->
  mode st <> m ->
  mode (handleMouseDown st e) = m ->
  let x := pt_x (getCanvasCoords e) in
  let y := pt_y (getCanvasCoords e) in
  exists hat c,
    controlTarget st = Some (hat, c)
    /\ onHandle x y (hitRadiusOf e) (tl c) = false
    /\ onHandle x y (hitRadiusOf e)
         (match m with SCALE => br c | _ => tr c end) = true
    /\ handleMouseDown st e
       = setStartInteraction (captureStart x y hat) (setMode m st).
Proof.
  intros Hm Hbefore Hafter x y.
  destruct (image st) as [bg |] eqn:Himg.
  2:{ unfold handleMouseDown in Hafter. rewrite Himg in Hafter. congruence. }
  rewrite (handleMouseDown_outcome st e bg Himg) in *.
  fold x y in Hafter |- *. unfold pointerDownOutcome in *.
  destruct (controlTarget st) as [[hat c] |] eqn:Htarget.
  - destruct (controlTarget_some _ _ _ Htarget)
      as (sel & Hsel & Htruthy & Hfind & Hc).
    rewrite (checkControls_target st x y _ sel hat c) in * by assumption.
    exists hat, c. split; [reflexivity |].
    destruct (onHandle x y (hitRadiusOf e) (tl c)).
    { rewrite (deleteSelectedHat_mode st sel) in Hafter by assumption.
      destruct Hm; congruence. }
    split; [reflexivity |].
    destruct (onHandle x y (hitRadiusOf e) (tr c)) eqn:Htr.
    { cbn in Hafter. subst m. auto. }
    destruct (onHandle x y (hitRadiusOf e) (br c)) eqn:Hbr.
    { cbn in Hafter. subst m. auto. }
    destruct (onHandle x y (hitRadiusOf e) (bl c)).
    { rewrite toggleMirror_mode in Hafter. congruence. }
    exfalso. revert Hafter. apply scan_outcome_mode; [| exact Hbefore].
    destruct Hm; congruence.
  - exfalso. revert Hafter.
    rewrite checkControls_none
      by (unfold noControlHit; now rewrite Htarget).
    apply scan_outcome_mode; [| exact Hbefore].
    destruct Hm; congruence.
Qed.

End GestureStart.

(** ** The scale handle is never pressed on the centre *)

Section ScalePress.

(** The corners of a hat with finite placement. *)
Lemma getTransformedCorners_fin (loaded : gmap string Image)
    (hat : PlacedHat) (img : Image) (cx cy rot k : R) :
  loaded !! hat_src hat = Some img ->
  hat_x hat = Fin cx -> hat_y hat = Fin cy ->
  hat_rotation hat = Fin rot -> hat_scale hat = Fin k ->
  let w := (IZR (Z.of_N (img_width img)) * k)%R in
  let h := (IZR (Z.of_N (img_height img)) * k)%R in
  let u := fst (RcornerOffsets w h rot) in
  let v := snd (RcornerOffsets w h rot) in
  getTransformedCorners loaded hat
  = Some {| tl := mkPoint (Fin (cx - fst u)) (Fin (cy - snd u));
            tr := mkPoint (Fin (cx + fst v)) (Fin (cy + snd v));
            br := mkPoint (Fin (cx + fst u)) (Fin (cy + snd u));
            bl := mkPoint (Fin (cx - fst v)) (Fin (cy - snd v));
            width := Fin w;
            height := Fin h |}.
Proof.
  intros Himg Hx Hy Hrot Hk w h u v. unfold getTransformedCorners.
  rewrite Himg, Hx, Hy, Hrot, Hk. unfold JS.ofN, JS.PI.
  cbn [JS.mul JS.neg]. rewrite !div_fin by lra.
  cbn [JS.mul JS.neg JS.cos JS.sin JS.sub JS.add].
  unfold u, v, RcornerOffsets. cbn [fst snd]. fold w h.
  set (t := (rot * PI / 180)%R).
  do 2 f_equal; f_equal; f_equal; lra.
Qed.

(** Opposite corners are mirror images of each other in the centre. *)
Lemma corners_opposite (loaded : gmap string Image) (hat : PlacedHat)
    (c : Corners) (cx cy rot k : R) :
  hat_x hat = Fin cx -> hat_y hat = Fin cy ->
  hat_rotation hat = Fin rot -> hat_scale hat = Fin k ->
  getTransformedCorners loaded hat = Some c ->
  exists ux uy : R,
    tl c = mkPoint (Fin (cx - ux)) (Fin (cy - uy))
    /\ br c = mkPoint (Fin (cx + ux)) (Fin (cy + uy)).
Proof.
  intros Hx Hy Hrot Hk Hc.
  destruct (loaded !! hat_src hat) as [img |] eqn:Himg.
  - rewrite (getTransformedCorners_fin loaded hat img cx cy rot k) in Hc
      by assumption.
    injection Hc as <-. cbn [tl br]. eauto.
  - unfold getTransformedCorners in Hc. now rewrite Himg in Hc.
Qed.

Lemma onHandle_centre_symmetric (r : number) (cx cy ux uy : R) :
  onHandle (Fin cx) (Fin cy) r (mkPoint (Fin (cx - ux)) (Fin (cy - uy)))
  = onHandle (Fin cx) (Fin cy) r (mkPoint (Fin (cx + ux)) (Fin (cy + uy))).
Proof.
  unfold onHandle, isPointInCircle. cbn [pt_x pt_y].
  rewrite !distance_fin. do 3 f_equal. lra.
Qed.

(** A gesture that enters [SCALE] through [handleMouseDown] has its
    baseline pointer off the centre of the hat: on the centre the delete
    handle, tested first and just as far away, would have taken it. *)
Lemma scale_press_off_centre (st : EditorState) (e : PointerEvent)
    (hat : PlacedHat) (c : Corners) (cx cy rot k px py : R) :
  controlTarget st = Some (hat, c) ->
  hat_x hat = Fin cx -> hat_y hat = Fin cy ->
  hat_rotation hat = Fin rot -> hat_scale hat = Fin k ->
  getCanvasCoords e = mkPoint (Fin px) (Fin py) ->
  mode st <> SCALE ->
  mode (handleMouseDown st e) = SCALE ->
  startInteraction (handleMouseDown st e)
    = captureStart (Fin px) (Fin py) hat
  /\ (px, py) <> (cx, cy).
Proof.
  intros Htarget Hx Hy Hrot Hk Hcoords Hbefore Hafter.
  destruct (handleMouseDown_enters st e SCALE (or_intror eq_refl)
              Hbefore Hafter)
    as (hat' & c' & Htarget' & Htl & Hbr & Hdown).
  rewrite Htarget in Htarget'. injection Htarget' as <- <-.
  rewrite Hcoords in Htl, Hbr, Hdown. cbn [pt_x pt_y] in Htl, Hbr, Hdown.
  split; [now rewrite Hdown |].
  intros [= -> ->].
  destruct (controlTarget_some _ _ _ Htarget) as (sel & _ & _ & _ & Hc).
  destruct (corners_opposite _ _ _ cx cy rot k Hx Hy Hrot Hk Hc)
    as (ux & uy & Htlc & Hbrc).
  rewrite Htlc in Htl. rewrite Hbrc in Hbr.
  rewrite onHandle_centre_symmetric in Htl. congruence.
Qed.

End ScalePress.

(** ** Rotation *)

Section Rotation.

Lemma moveHat_rotate (s : StartInteraction) (x y : number) (hat : PlacedHat) :
  moveHat ROTATE s x y hat
  = withRotation hat
      (startRotation s
       + (pointerAngle x y hat - pointerAngle (mouseX s) (mouseY s) hat)).
Proof. reflexivity. Qed.

Lemma pointerAngle_fin (hat : PlacedHat) (px py cx cy : R) :
  hat_x hat = Fin cx -> hat_y hat = Fin cy ->
  pointerAngle (Fin px) (Fin py) hat = Fin (Rangle px py cx cy).
Proof.
  intros Hx Hy. unfold pointerAngle, Rangle, JS.PI. rewrite Hx, Hy.
  rewrite div_fin by apply PI_neq0. reflexivity.
Qed.

Lemma controlTarget_selectedHat (st : EditorState) (hat : PlacedHat)
    (c : Corners) :
  controlTarget st = Some (hat, c) ->
  selectedHat st = Some hat
  /\ exists sel, selectedHatId st = Some sel /\ sel <> "" /\ hat_uid hat = sel.
Proof.
  intros Htarget.
  destruct (controlTarget_some _ _ _ Htarget)
    as (sel & Hsel & Htruthy & Hfind & _).
  unfold selectedHat. rewrite Hsel. split; [exact Hfind |].
  exists sel. split; [reflexivity |].
  split; [| now apply findHat_some in Hfind].
  intros ->. discriminate.
Qed.

Lemma withRotation_restore (hat : PlacedHat) (a b : number) :
  hat_rotation hat = b -> withRotation (withRotation hat a) b = hat.
Proof. intros <-. now destruct hat. Qed.

(** One complete rotate gesture: press on the rotate handle, move, and
    release. *)
Lemma rotate_gesture (st : EditorState) (eDown eMove : PointerEvent)
    (hat : PlacedHat) (cx cy r px py qx qy : R) :
  mode st = NONE ->
  selectedHat st = Some hat ->
  hat_x hat = Fin cx -> hat_y hat = Fin cy -> hat_rotation hat = Fin r ->
  getCanvasCoords eDown = mkPoint (Fin px) (Fin py) ->
  getCanvasCoords eMove = mkPoint (Fin qx) (Fin qy) ->
  mode (handleMouseDown st eDown) = ROTATE ->
  let st' := run st [EvPointerDown eDown; EvPointerMove eMove; EvPointerUp] in
  mode st' = NONE
  /\ selectedHat st'
     = Some (withRotation hat
               (Fin (r + (Rangle qx qy cx cy - Rangle px py cx cy)))).
Proof.
  intros Hidle Hselected Hx Hy Hr Hdown Hmove Hrotate st'.
  split; [reflexivity |].
  assert (Hbefore : mode st <> ROTATE) by congruence.
  destruct (handleMouseDown_enters st eDown ROTATE (or_introl eq_refl)
              Hbefore Hrotate)
    as (hat' & c & Htarget & _ & _ & Hpress).
  destruct (controlTarget_selectedHat _ _ _ Htarget)
    as (Hselected' & sel & Hsel & Hne & Huid).
  assert (hat' = hat) as -> by congruence.
  unfold st', run. cbn [fold_left step].
  rewrite Hpress, Hdown. cbn [pt_x pt_y].
  rewrite (handleMouseMove_active _ eMove sel);
    [| cbn; discriminate | exact Hsel | exact Hne].
  rewrite Hmove. cbn [pt_x pt_y].
  unfold selectedHat. cbn [handleMouseUp setMode setHats setStartInteraction
    selectedHatId hats mode startInteraction].
  rewrite Hsel, findHat_map.
  2:{ intros h. destruct (String.eqb _ _); [apply moveHat_uid | reflexivity]. }
  unfold selectedHat in Hselected. rewrite Hsel in Hselected.
  rewrite Hselected. cbn [option_map].
  rewrite Huid, String.eqb_refl, moveHat_rotate.
  cbn [captureStart startRotation mouseX mouseY].
  rewrite Hr, !(pointerAngle_fin hat _ _ cx cy) by assumption.
  reflexivity.
Qed.

End Rotation.

Section RotationGestures.

Import PrimFloat.
#[local] Set Warnings "-inexact-float".

(** C5, as the code has it.  A pointer-move in Rotating mode changes
    nothing but the rotation of the selected hat, which becomes the
    baseline rotation plus the difference of the current and the baseline
    pointer angle about the hat's centre; the sum is stored as it is,
    without reduction modulo 360.  In exact arithmetic two gestures in a
    row whose angle differences are opposite leave the hat with the
    rotation it started with.  In doubles the two additions round: from
    360 by a quarter turn to 450 and back gives 360 again, but from 0.1
    by 11.976132444203351 degrees and back gives 0.09999999999999964. *)
Theorem rotation_composes_additively :
  (forall (st : EditorState) (e : PointerEvent) (sel : string),
     mode st = ROTATE ->
     selectedHatId st = Some sel ->
     sel <> "" ->
     let x := pt_x (getCanvasCoords e) in
     let y := pt_y (getCanvasCoords e) in
     let s := startInteraction st in
     handleMouseMove st e
     = {| image := image st;
          hats :=
            map (fun hat =>
                   if String.eqb (hat_uid hat) sel
                   then {| hat_id := hat_id hat;
                           hat_name := hat_name hat;
                           hat_src := hat_src hat;
                           hat_uid := hat_uid hat;
                           hat_x := hat_x hat;
                           hat_y := hat_y hat;
                           hat_scale := hat_scale hat;
                           hat_rotation :=
                             startRotation s
                             + (JS.atan2 (y - hat_y hat) (x - hat_x hat)
                                * (Fin 180 / JS.PI)
                                - JS.atan2 (mouseY s - hat_y hat)
                                    (mouseX s - hat_x hat)
                                  * (Fin 180 / JS.PI));
                           hat_isMirrored := hat_isMirrored hat |}
                   else hat)
              (hats st);
          selectedHatId := selectedHatId st;
          loadedImages := loadedImages st;
          isDragging := isDragging st;
          mode := mode st;
          startInteraction := startInteraction st |})
  /\ (forall (st : EditorState) (e1 e2 e3 e4 : PointerEvent)
        (hat : PlacedHat) (cx cy r theta : R)
        (p1x p1y p2x p2y p3x p3y p4x p4y : R),
        mode st = NONE ->
        selectedHat st = Some hat ->
        hat_x hat = Fin cx -> hat_y hat = Fin cy ->
        hat_rotation hat = Fin r ->
        getCanvasCoords e1 = mkPoint (Fin p1x) (Fin p1y) ->
        getCanvasCoords e2 = mkPoint (Fin p2x) (Fin p2y) ->
        getCanvasCoords e3 = mkPoint (Fin p3x) (Fin p3y) ->
        getCanvasCoords e4 = mkPoint (Fin p4x) (Fin p4y) ->
        let first :=
          run st [EvPointerDown e1; EvPointerMove e2; EvPointerUp] in
        let second :=
          run first [EvPointerDown e3; EvPointerMove e4; EvPointerUp] in
        mode (handleMouseDown st e1) = ROTATE ->
        mode (handleMouseDown first e3) = ROTATE ->
        (Rangle p2x p2y cx cy - Rangle p1x p1y cx cy = theta)%R ->
        (Rangle p4x p4y cx cy - Rangle p3x p3y cx cy = - theta)%R ->
        selectedHat first
        = Some {| hat_id := hat_id hat;
                  hat_name := hat_name hat;
                  hat_src := hat_src hat;
                  hat_uid := hat_uid hat;
                  hat_x := hat_x hat;
                  hat_y := hat_y hat;
                  hat_scale := hat_scale hat;
                  hat_rotation := Fin (r + theta);
                  hat_isMirrored := hat_isMirrored hat |}
        /\ option_map hat_rotation (selectedHat second) = Some (Fin r)
        /\ selectedHat second = Some hat)
  /\ Float64.rotateTo 360 45 (-45) = 450%float
  /\ Float64.rotateTo (Float64.rotateTo 360 45 (-45)) (-45) 45 = 360%float
  /\ Float64.rotateTo 0.1 11.976132444203351 0 = 12.07613244420335%float
  /\ Float64.rotateTo (Float64.rotateTo 0.1 11.976132444203351 0)
       0 11.976132444203351
     = 0.09999999999999964%float
  /\ PrimFloat.ltb
       (abs (Float64.rotateTo (Float64.rotateTo 0.1 11.976132444203351 0)
               0 11.976132444203351
             - 0.1))
       1e-15
     = true.
Proof.
  split; [| split].
  - intros st e sel Hmode Hsel Hne x y s.
    rewrite (handleMouseMove_active st e sel) by (congruence || assumption).
    unfold setHats. f_equal. now rewrite Hmode.
  - intros st e1 e2 e3 e4 hat cx cy r theta p1x p1y p2x p2y p3x p3y p4x p4y
      Hidle Hselected Hx Hy Hr H1 H2 H3 H4 first second Hpress1 Hpress2
      Htheta Hback.
    destruct (rotate_gesture st e1 e2 hat cx cy r p1x p1y p2x p2y)
      as [Hidle1 Hfirst]; try assumption.
    fold first in Hidle1, Hfirst. rewrite Htheta in Hfirst.
    split; [exact Hfirst |].
    destruct (rotate_gesture first e3 e4
                (withRotation hat (Fin (r + theta))) cx cy (r + theta)
                p3x p3y p4x p4y)
      as [_ Hsecond]; try assumption; try reflexivity.
    fold second in Hsecond. rewrite Hsecond, Hback.
    replace (r + theta + - theta)%R with r by lra.
    rewrite (withRotation_restore hat _ _ Hr).
    split; [cbn [option_map]; now rewrite Hr | reflexivity].
  - repeat split; vm_compute; reflexivity.
Qed.

(** The claim as first stated fails in the arithmetic the browser has.
    Two gestures with the opposite angle differences 11.976132444203351
    and -11.976132444203351 take a rotation of 0.1 degrees to
    12.07613244420335 and back to 0.09999999999999964, which is not
    0.1. *)
Lemma rotation_not_restored_in_doubles :
  Float64.rotateTo 0.1 11.976132444203351 0 = 12.07613244420335%float
  /\ (11.976132444203351 - 0 = - (0 - 11.976132444203351))%float
  /\ Float64.rotateTo (Float64.rotateTo 0.1 11.976132444203351 0)
       0 11.976132444203351
     = 0.09999999999999964%float
  /\ PrimFloat.eqb
       (Float64.rotateTo (Float64.rotateTo 0.1 11.976132444203351 0)
          0 11.976132444203351)
       0.1
     = false.
Proof. repeat split; vm_compute; reflexivity. Qed.

End RotationGestures.

(** ** The hat image cache *)

Section AssetCache.

Lemma loadHatImage_cached (loaded : gmap string Image) (src : string)
    (img : Image) :
  loaded !! src = Some img -> loadHatImage loaded src = Resolved img.
Proof. intros Hin. unfold loadHatImage. now rewrite Hin. Qed.

Lemma loadHatImage_missing (loaded : gmap string Image) (src : string) :
  loaded !! src = None -> loadHatImage loaded src = Decoding src.
Proof. intros Hout. unfold loadHatImage. now rewrite Hout. Qed.

Lemma cacheStep_keeps_cached (c : CacheRun) (ev : CacheEvent) (src : string) :
  is_Some (cache c !! src) -> is_Some (cache (cacheStep c ev) !! src).
Proof.
  intros Hin. destruct ev as [src' | src' img]; cbn [cacheStep].
  - now destruct (loadHatImage (cache c) src').
  - cbn [cache]. destruct (decide (src' = src)) as [-> | Hne].
    + rewrite lookup_insert_eq. eauto.
    + now rewrite lookup_insert_ne.
Qed.

Lemma cacheStep_cached_no_decode (c : CacheRun) (ev : CacheEvent)
    (src : string) :
  is_Some (cache c !! src) ->
  decodeCount src (cacheStep c ev) = decodeCount src c.
Proof.
  intros [img Hin]. destruct ev as [src' | src' img']; cbn [cacheStep];
    [| reflexivity].
  unfold loadHatImage. destruct (cache c !! src') as [img' |] eqn:Hsrc';
    [reflexivity |].
  unfold decodeCount. cbn [decodes List.filter].
  destruct (String.eqb_spec src src') as [-> | Hne]; [congruence | reflexivity].
Qed.

Lemma cacheRun_cached_no_decode (evs : list CacheEvent) (c : CacheRun)
    (src : string) :
  is_Some (cache c !! src) ->
  decodeCount src (cacheRun c evs) = decodeCount src c.
Proof.
  revert c. induction evs as [| ev evs IH]; intros c Hin; [reflexivity |].
  unfold cacheRun. cbn [fold_left]. fold (cacheRun (cacheStep c ev) evs).
  rewrite IH by now apply cacheStep_keeps_cached.
  now apply cacheStep_cached_no_decode.
Qed.

(** C8, as the code has it.  The cache holds the decodes that have
    completed.  A request for a path that is in it resolves with the
    cached image and starts no decode, and no later request for that path
    starts one; a request for a path that is not in it starts a new
    decode, whether or not one is already pending. *)
Theorem cache_memoizes_completed_decodes :
  (forall (loaded : gmap string Image) (src : string) (img : Image),
     loaded !! src = Some img -> loadHatImage loaded src = Resolved img)
  /\ (forall (c : CacheRun) (src : string) (img : Image),
        cache (cacheStep c (Onload src img)) !! src = Some img)
  /\ (forall (c : CacheRun) (evs : list CacheEvent) (src : string),
        is_Some (cache c !! src) ->
        decodeCount src (cacheRun c evs) = decodeCount src c)
  /\ (forall (c : CacheRun) (src : string),
        cache c !! src = None ->
        decodeCount src (cacheStep c (Request src)) = S (decodeCount src c)
        /\ cache (cacheStep c (Request src)) !! src = None).
Proof.
  split; [exact loadHatImage_cached |].
  split; [intros c src img; cbn; apply lookup_insert_eq |].
  split; [intros c evs src; apply cacheRun_cached_no_decode |].
  intros c src Hout. cbn [cacheStep].
  rewrite (loadHatImage_missing _ _ Hout).
  unfold decodeCount. cbn [decodes cache List.filter].
  rewrite String.eqb_refl. cbn [length]. auto.
Qed.

End AssetCache.

Lemma cache_memoizes_completed_decodes_witness :
  decodeCount "/hats/1.png"
    (cacheRun
       (cacheRun emptyCache
          [Request "/hats/1.png"; Onload "/hats/1.png" sampleRaster])
       [Request "/hats/1.png"; Request "/hats/2.png"; Request "/hats/1.png"])
  = decodeCount "/hats/1.png"
      (cacheRun emptyCache
         [Request "/hats/1.png"; Onload "/hats/1.png" sampleRaster]).
Proof.
  destruct cache_memoizes_completed_decodes as (_ & _ & Hstable & _).
  apply Hstable. exists sampleRaster. reflexivity.
Defined.

(** Two requests for one path, the second made before the first decode
    has completed: two decodes are started. *)
Lemma concurrent_requests_decode_twice :
  decodeCount "/hats/1.png"
    (cacheRun emptyCache [Request "/hats/1.png"; Request "/hats/1.png"])
  = 2%nat.
Proof. reflexivity. Qed.

(** ** Export *)

Section ExportOperations.

Lemma draw_without_controls (st : EditorState) :
  f_controls (draw st false) = None.
Proof.
  unfold draw, drawnControls. cbn [f_controls].
  destruct (image st); [| reflexivity].
  now destruct (selectedHatId st).
Qed.

Lemma draw_with_controls (st : EditorState) (bg : Image) :
  image st = Some bg ->
  f_controls (draw st true)
  = match controlTarget st with
    | Some (_, c) => Some c
    | None => None
    end.
Proof.
  intros Himg. unfold draw, drawnControls, controlTarget. cbn [f_controls].
  rewrite Himg. destruct (selectedHatId st) as [sel |]; [| reflexivity].
  cbn [andb]. destruct (truthy (Some sel)); [| reflexivity].
  destruct (findHat sel (hats st)) as [hat |]; [| reflexivity].
  now destruct (getTransformedCorners (loadedImages st) hat).
Qed.

(** C9. Both exports leave the canvas as [draw(true)] leaves it: the
    background, every hat whose raster is loaded, and the outline and
    handles of the selected hat at its corners, so that a selection that
    had its controls before the export has them on the canvas after it.
    Download draws the same picture without the controls, saves it under
    the fixed name and draws with controls again.  Copy draws without
    controls and returns [true] when the picture reached the clipboard,
    [false] when the encoding or the clipboard write failed; it never
    throws, and in either case the canvas is drawn with controls again.
    In a scene the editor can reach every selection has its controls on
    the canvas after an export.  Without a canvas or a background neither
    export does anything. *)
Theorem export_restores_controls (st : EditorState) (w : World) :
  (forall (frame : Frame) (bg : Image),
     canvas w = Some frame -> image st = Some bg ->
     handleDownload st w
     = (Returned tt,
        {| canvas := Some (draw st true);
           clipboard := clipboard w;
           downloads :=
             downloads w ++ [("christmas-avatar.png", draw st false)] |})
     /\ f_controls (draw st false) = None
     /\ (forall env : ExportEnv,
           handleCopy st env w
           = (Returned (blobEncodes env && clipboardAllows env),
              {| canvas := Some (draw st true);
                 clipboard :=
                   if blobEncodes env && clipboardAllows env
                   then Some (draw st false)
                   else clipboard w;
                 downloads := downloads w |}))
     /\ draw st true
        = {| f_backdrop := BackgroundImage bg;
             f_hats :=
               omap (fun hat =>
                       match loadedImages st !! hat_src hat with
                       | Some img => Some (hat, img)
                       | None => None
                       end)
                 (hats st);
             f_controls :=
               match controlTarget st with
               | Some (_, c) => Some c
               | None => None
               end |}
     /\ draw st false
        = {| f_backdrop := BackgroundImage bg;
             f_hats :=
               omap (fun hat =>
                       match loadedImages st !! hat_src hat with
                       | Some img => Some (hat, img)
                       | None => None
                       end)
                 (hats st);
             f_controls := None |}
     /\ (forall (hat : PlacedHat) (c : Corners),
           controlTarget st = Some (hat, c) ->
           selectedHat st = Some hat
           /\ getTransformedCorners (loadedImages st) hat = Some c
           /\ option_map f_controls (canvas (snd (handleDownload st w)))
              = Some (Some c)
           /\ forall env : ExportEnv,
                option_map f_controls (canvas (snd (handleCopy st env w)))
                = Some (Some c))
     /\ (reachable st ->
         forall sel : string,
           selectedHatId st = Some sel ->
           exists (hat : PlacedHat) (c : Corners),
             hat_uid hat = sel
             /\ In hat (hats st)
             /\ getTransformedCorners (loadedImages st) hat = Some c
             /\ option_map f_controls (canvas (snd (handleDownload st w)))
                = Some (Some c)
             /\ forall env : ExportEnv,
                  option_map f_controls (canvas (snd (handleCopy st env w)))
                  = Some (Some c)))
  /\ (canvas w = None \/ image st = None ->
      handleDownload st w = (Returned tt, w)
      /\ forall env : ExportEnv, handleCopy st env w = (Returned false, w)).
Proof.
  split.
  - intros frame bg Hcanvas Himg.
    assert (Hdownload :
              handleDownload st w
              = (Returned tt,
                 {| canvas := Some (draw st true);
                    clipboard := clipboard w;
                    downloads :=
                      downloads w
                      ++ [("christmas-avatar.png", draw st false)] |})).
    { unfold handleDownload. rewrite Hcanvas, Himg.
      unfold bind, drawOn, saveAs. rewrite Hcanvas. reflexivity. }
    assert (Hcopy :
              forall env : ExportEnv,
                handleCopy st env w
                = (Returned (blobEncodes env && clipboardAllows env),
                   {| canvas := Some (draw st true);
                      clipboard :=
                        if blobEncodes env && clipboardAllows env
                        then Some (draw st false)
                        else clipboard w;
                      downloads := downloads w |})).
    { intros env. unfold handleCopy. rewrite Hcanvas, Himg.
      unfold bind, tryCatch, drawOn, toBlob, clipboardWrite, throw, ret.
      rewrite Hcanvas. cbn [canvas clipboard downloads].
      destruct (blobEncodes env), (clipboardAllows env); reflexivity. }
    assert (Hshown :
              forall c : Corners,
                f_controls (draw st true) = Some c ->
                option_map f_controls (canvas (snd (handleDownload st w)))
                = Some (Some c)
                /\ forall env : ExportEnv,
                     option_map f_controls
                       (canvas (snd (handleCopy st env w)))
                     = Some (Some c)).
    { intros c Hc. rewrite Hdownload. cbn [snd canvas option_map].
      split; [now rewrite Hc |].
      intros env. rewrite Hcopy. cbn [snd canvas option_map].
      now rewrite Hc. }
    split; [exact Hdownload |].
    split; [apply draw_without_controls |].
    split; [exact Hcopy |].
    split.
    { rewrite <- (draw_with_controls st bg Himg).
      unfold draw, drawnHats. now rewrite Himg. }
    split.
    { rewrite <- (draw_without_controls st).
      unfold draw, drawnHats. now rewrite Himg. }
    split.
    + intros hat c Htarget.
      destruct (controlTarget_some _ _ _ Htarget)
        as (sel & Hsel & _ & Hfind & Hc).
      split; [unfold selectedHat; now rewrite Hsel |].
      split; [exact Hc |].
      apply Hshown. rewrite (draw_with_controls st bg Himg).
      now rewrite Htarget.
    + intros Hreach sel Hsel.
      destruct (reachable_controlTarget st sel Hreach Hsel)
        as (hat & c & Htarget & Huid).
      destruct (controlTarget_some _ _ _ Htarget)
        as (sel' & Hsel' & _ & Hfind & Hc).
      exists hat, c. split; [exact Huid |].
      split; [now apply findHat_some in Hfind |].
      split; [exact Hc |].
      apply Hshown. rewrite (draw_with_controls st bg Himg).
      now rewrite Htarget.
  - intros Hmissing. unfold handleDownload, handleCopy.
    destruct Hmissing as [-> | ->]; [auto |].
    destruct (canvas w); auto.
Qed.

End ExportOperations.

Lemma export_restores_controls_witness :
  handleDownload selectedScene (shownWorld selectedScene)
  = (Returned tt,
     {| canvas := Some (draw selectedScene true);
        clipboard := None;
        downloads := [("christmas-avatar.png", draw selectedScene false)] |})
  /\ handleCopy selectedScene (mkExportEnv true false)
       (shownWorld selectedScene)
     = (Returned false,
        {| canvas := Some (draw selectedScene true);
           clipboard := None;
           downloads := [] |})
  /\ option_map f_controls
       (canvas (snd (handleDownload selectedScene
                       (shownWorld selectedScene))))
     = Some
         (Some {| tl := mkPoint (Fin (400 - 100 / 2)) (Fin (300 - 40 / 2));
                  tr := mkPoint (Fin (400 + 100 / 2)) (Fin (300 - 40 / 2));
                  br := mkPoint (Fin (400 + 100 / 2)) (Fin (300 + 40 / 2));
                  bl := mkPoint (Fin (400 - 100 / 2)) (Fin (300 + 40 / 2));
                  width := Fin 100;
                  height := Fin 40 |})
  /\ handleCopy initialState (mkExportEnv true true)
       (shownWorld initialState)
     = (Returned false, shownWorld initialState).
Proof.
  destruct (export_restores_controls selectedScene (shownWorld selectedScene))
    as [Hexport _].
  destruct (Hexport (draw selectedScene true) smallBackground eq_refl eq_refl)
    as (Hdownload & _ & Hcopy & _ & _ & Hcontrols & _).
  destruct (export_restores_controls initialState (shownWorld initialState))
    as [_ Hnothing].
  destruct (Hnothing (or_intror eq_refl)) as [_ Hcopy0].
  split; [exact Hdownload |].
  split; [exact (Hcopy (mkExportEnv true false)) |].
  split; [| exact (Hcopy0 (mkExportEnv true true))].
  now destruct (Hcontrols _ _ sampleHat_controlTarget) as (_ & _ & Hshown & _).
Defined.

(** ** A quarter turn and back, past 360 degrees *)

Section QuarterTurn.

Lemma press_on_rotate_handle (st : EditorState) (e : PointerEvent)
    (bg : Image) (hat : PlacedHat) (c : Corners) :
  image st = Some bg ->
  controlTarget st = Some (hat, c) ->
  let x := pt_x (getCanvasCoords e) in
  let y := pt_y (getCanvasCoords e) in
  onHandle x y (hitRadiusOf e) (tl c) = false ->
  onHandle x y (hitRadiusOf e) (tr c) = true ->
  handleMouseDown st e
  = setStartInteraction (captureStart x y hat) (setMode ROTATE st).
Proof.
  intros Himg Htarget x y Htl Htr.
  destruct (controlTarget_some _ _ _ Htarget)
    as (sel & Hsel & Htruthy & Hfind & Hc).
  rewrite (handleMouseDown_outcome st e bg Himg). fold x y.
  unfold pointerDownOutcome.
  rewrite (checkControls_target st x y _ sel hat c) by assumption.
  now rewrite Htl, Htr.
Qed.

Lemma Ratan2_right (y x : R) : (0 < x)%R -> JS.Ratan2 y x = atan (y / x).
Proof. intros Hx. unfold JS.Ratan2. now rewrite sgn_pos. Qed.

Lemma Rangle_down_right (px py cx cy : R) :
  (0 < px - cx)%R -> (py - cy = px - cx)%R -> Rangle px py cx cy = 45%R.
Proof.
  intros Hx Hy. unfold Rangle. rewrite Ratan2_right by exact Hx.
  rewrite Hy. replace ((px - cx) / (px - cx))%R with 1%R by (field; lra).
  rewrite atan_1. field. apply PI_neq0.
Qed.

Lemma Rangle_up_right (px py cx cy : R) :
  (0 < px - cx)%R -> (py - cy = - (px - cx))%R ->
  Rangle px py cx cy = (- 45)%R.
Proof.
  intros Hx Hy. unfold Rangle. rewrite Ratan2_right by exact Hx.
  rewrite Hy. replace (- (px - cx) / (px - cx))%R with (- (1))%R
    by (field; lra).
  rewrite atan_opp, atan_1. field. apply PI_neq0.
Qed.

Lemma turn_360 : (cos (360 * PI / 180) = 1 /\ sin (360 * PI / 180) = 0)%R.
Proof.
  replace (360 * PI / 180)%R with (2 * PI)%R by lra.
  split; [apply cos_2PI | apply sin_2PI].
Qed.

Lemma turn_450 : (cos (450 * PI / 180) = 0 /\ sin (450 * PI / 180) = 1)%R.
Proof.
  replace (450 * PI / 180)%R with (PI / 2 + 2 * INR 1 * PI)%R
    by (cbn [INR]; lra).
  rewrite cos_period, sin_period. split; [apply cos_PI2 | apply sin_PI2].
Qed.

Lemma squareScene_target (hat : PlacedHat) (s : StartInteraction) (rot : R) :
  hat_src hat = "/hats/3.png" -> hat_uid hat <> "" ->
  hat_x hat = Fin 400 -> hat_y hat = Fin 300 ->
  hat_rotation hat = Fin rot -> hat_scale hat = Fin 1 ->
  let u := fst (RcornerOffsets 40 40 rot) in
  let v := snd (RcornerOffsets 40 40 rot) in
  controlTarget (squareScene hat s)
  = Some (hat,
          {| tl := mkPoint (Fin (400 - fst u)) (Fin (300 - snd u));
             tr := mkPoint (Fin (400 + fst v)) (Fin (300 + snd v));
             br := mkPoint (Fin (400 + fst u)) (Fin (300 + snd u));
             bl := mkPoint (Fin (400 - fst v)) (Fin (300 - snd v));
             width := Fin 40;
             height := Fin 40 |}).
Proof.
  intros Hsrc Huid Hx Hy Hrot Hk u v.
  apply (controlTarget_intro _ (hat_uid hat)).
  - reflexivity.
  - now apply truthy_some.
  - unfold findHat. cbn [squareScene hats List.find].
    now rewrite String.eqb_refl.
  - assert (Himg : loadedImages (squareScene hat s) !! hat_src hat
                   = Some squareRaster) by now rewrite Hsrc.
    rewrite (getTransformedCorners_fin _ hat squareRaster 400 300 rot 1
               Himg Hx Hy Hrot Hk).
    cbn [squareRaster img_width img_height].
    replace (IZR (Z.of_N 40) * 1)%R with 40%R by (cbn; lra).
    reflexivity.
Qed.

(** Pressing the rotate handle of the hat at a full turn, at its
    top-right corner (420, 280). *)
Lemma turnedScene_press :
  handleMouseDown turnedScene (pointerAt 420 280)
  = setStartInteraction (captureStart (Fin 420) (Fin 280) turnedHat)
      (setMode ROTATE turnedScene).
Proof.
  pose proof (squareScene_target turnedHat (startInteraction initialState)
                360) as Htarget.
  cbv zeta in Htarget. unfold RcornerOffsets in Htarget.
  destruct turn_360 as [Hcos Hsin]. rewrite Hcos, Hsin in Htarget.
  cbn [fst snd] in Htarget.
  rewrite (press_on_rotate_handle turnedScene (pointerAt 420 280)
             smallBackground turnedHat _ eq_refl
             (Htarget eq_refl ltac:(discriminate) eq_refl eq_refl eq_refl
                eq_refl)).
  - now rewrite getCanvasCoords_pointerAt.
  - rewrite getCanvasCoords_pointerAt, hitRadiusOf_pointerAt.
    apply onHandle_fin_false. cbn [tl pt_x pt_y]. lra.
  - rewrite getCanvasCoords_pointerAt, hitRadiusOf_pointerAt.
    apply onHandle_fin. cbn [tr pt_x pt_y]. lra.
Qed.

(** The first gesture, from (420, 280) to (420, 320): a quarter turn,
    stored as 450 degrees. *)
Lemma turnedScene_first_gesture :
  run turnedScene
    [EvPointerDown (pointerAt 420 280); EvPointerMove (pointerAt 420 320);
     EvPointerUp]
  = squareScene (withRotation turnedHat (Fin 450))
      (captureStart (Fin 420) (Fin 280) turnedHat).
Proof.
  unfold run. cbn [fold_left step]. rewrite turnedScene_press.
  rewrite (handleMouseMove_active _ _ (hat_uid turnedHat))
    by (discriminate || reflexivity).
  rewrite getCanvasCoords_pointerAt.
  cbn [pt_x pt_y mode startInteraction setStartInteraction setMode].
  unfold handleMouseUp, setMode, setHats, setStartInteraction, turnedScene,
    squareScene.
  cbn [image hats selectedHatId loadedImages isDragging startInteraction
       mode map].
  change (String.eqb (hat_uid turnedHat) (hat_uid turnedHat)) with true.
  cbv iota. rewrite moveHat_rotate.
  cbn [captureStart startRotation mouseX mouseY].
  rewrite !(pointerAngle_fin turnedHat _ _ 400 300) by reflexivity.
  rewrite (Rangle_down_right 420 320), (Rangle_up_right 420 280) by lra.
  change (hat_rotation turnedHat) with (Fin 360).
  cbn [JS.add JS.sub JS.neg].
  replace (360 + (45 + - - 45))%R with 450%R by lra.
  reflexivity.
Qed.

(** The second press, on the rotate handle where the turned hat has it:
    at (420, 320). *)
Lemma turnedScene_second_press :
  mode
    (handleMouseDown
       (squareScene (withRotation turnedHat (Fin 450))
          (captureStart (Fin 420) (Fin 280) turnedHat))
       (pointerAt 420 320))
  = ROTATE.
Proof.
  pose proof (squareScene_target (withRotation turnedHat (Fin 450))
                (captureStart (Fin 420) (Fin 280) turnedHat) 450) as Htarget.
  cbv zeta in Htarget. unfold RcornerOffsets in Htarget.
  destruct turn_450 as [Hcos Hsin]. rewrite Hcos, Hsin in Htarget.
  cbn [fst snd] in Htarget.
  rewrite (press_on_rotate_handle
             (squareScene (withRotation turnedHat (Fin 450))
                (captureStart (Fin 420) (Fin 280) turnedHat))
             (pointerAt 420 320)
             smallBackground (withRotation turnedHat (Fin 450)) _ eq_refl
             (Htarget eq_refl ltac:(discriminate) eq_refl eq_refl eq_refl
                eq_refl)).
  - reflexivity.
  - rewrite getCanvasCoords_pointerAt, hitRadiusOf_pointerAt.
    apply onHandle_fin_false. cbn [tl pt_x pt_y]. lra.
  - rewrite getCanvasCoords_pointerAt, hitRadiusOf_pointerAt.
    apply onHandle_fin. cbn [tr pt_x pt_y]. lra.
Qed.

End QuarterTurn.

Lemma rotation_composes_additively_witness :
  let first :=
    run turnedScene
      [EvPointerDown (pointerAt 420 280); EvPointerMove (pointerAt 420 320);
       EvPointerUp] in
  let second :=
    run first
      [EvPointerDown (pointerAt 420 320); EvPointerMove (pointerAt 420 280);
       EvPointerUp] in
  selectedHat first
  = Some {| hat_id := "hat-3"; hat_name := "3"; hat_src := "/hats/3.png";
            hat_uid := "17000000000333"; hat_x := Fin 400; hat_y := Fin 300;
            hat_scale := Fin 1; hat_rotation := Fin (360 + 90);
            hat_isMirrored := false |}
  /\ option_map hat_rotation (selectedHat second) = Some (Fin 360)
  /\ selectedHat second = Some turnedHat.
Proof.
  intros first second.
  destruct rotation_composes_additively as (_ & Hgestures & _).
  apply (Hgestures turnedScene
           (pointerAt 420 280) (pointerAt 420 320)
           (pointerAt 420 320) (pointerAt 420 280)
           turnedHat 400 300 360 90
           420 280 420 320 420 320 420 280)%R;
    try reflexivity; try apply getCanvasCoords_pointerAt.
  - now rewrite turnedScene_press.
  - rewrite turnedScene_first_gesture. apply turnedScene_second_press.
  - rewrite (Rangle_down_right 420 320), (Rangle_up_right 420 280) by lra.
    lra.
  - rewrite (Rangle_down_right 420 320), (Rangle_up_right 420 280) by lra.
    lra.
Defined.

(** ** A reachable [NaN] scale *)

Section NaNSession.

Lemma run_reachable (evs : list Event) (st : EditorState) :
  reachable st -> reachable (run st evs).
Proof.
  revert st. induction evs as [| ev evs IH]; intros st Hst; [exact Hst |].
  unfold run. cbn [fold_left]. apply IH. now apply reachable_step.
Qed.

Lemma run_app (evs evs' : list Event) (st : EditorState) :
  run st (evs ++ evs') = run (run st evs) evs'.
Proof. unfold run. apply fold_left_app. Qed.

(** The first hat over a background at least 2048 wide. *)
Lemma addHat_first_native (st : EditorState) (bg img : Image)
    (hatToAdd : Hat) (env : AddEnv) :
  image st = Some bg -> hats st = [] ->
  (2048 <= IZR (Z.of_N (img_width bg)))%R ->
  IZR (Z.of_N (img_width img)) <> 0%R ->
  addHat st hatToAdd img env
  = setSelectedHatId (Some (newUid env))
      (setHats
         (fun prev =>
            prev
            ++ [ {| hat_id := h_id hatToAdd;
                    hat_name := h_name hatToAdd;
                    hat_src := h_src hatToAdd;
                    hat_uid := newUid env;
                    hat_x := Fin (IZR (Z.of_N (img_width bg)) / 2);
                    hat_y := Fin (IZR (Z.of_N (img_height bg)) / 3);
                    hat_scale :=
                      Fin (IZR (Z.of_N (img_width bg)) * 0.35
                           / IZR (Z.of_N (img_width img)));
                    hat_rotation := Fin 0;
                    hat_isMirrored := false |} ])
         st).
Proof.
  intros Himg Hhats Hwide Hraster. unfold addHat.
  rewrite Himg, Hhats, (getRenderDimensions_native bg Hwide).
  cbn [length Nat.ltb Nat.leb dim_width dim_height]. unfold JS.ofN.
  cbn [JS.mul]. rewrite !div_fin by (assumption || lra). reflexivity.
Qed.

Lemma press_on_scale_handle (st : EditorState) (e : PointerEvent)
    (bg : Image) (hat : PlacedHat) (c : Corners) :
  image st = Some bg ->
  controlTarget st = Some (hat, c) ->
  let x := pt_x (getCanvasCoords e) in
  let y := pt_y (getCanvasCoords e) in
  onHandle x y (hitRadiusOf e) (tl c) = false ->
  onHandle x y (hitRadiusOf e) (tr c) = false ->
  onHandle x y (hitRadiusOf e) (br c) = true ->
  handleMouseDown st e
  = setStartInteraction (captureStart x y hat) (setMode SCALE st).
Proof.
  intros Himg Htarget x y Htl Htr Hbr.
  destruct (controlTarget_some _ _ _ Htarget)
    as (sel & Hsel & Htruthy & Hfind & Hc).
  rewrite (handleMouseDown_outcome st e bg Himg). fold x y.
  unfold pointerDownOutcome.
  rewrite (checkControls_target st x y _ sel hat c) by assumption.
  now rewrite Htl, Htr, Hbr.
Qed.

Lemma session_placed :
  run initialState
    [ EvLoadFile (mkFile "image/png" (Some largeBackground));
      EvAddHat sampleOverlay (Some tallRaster) sampleAddEnv ]
  = sessionPlaced.
Proof.
  unfold run. cbn [fold_left step].
  change (processFile initialState
            (mkFile "image/png" (Some largeBackground)))
    with (setSelectedHatId None
            (setHats (fun _ => []) (setImage largeBackground initialState))).
  unfold addHatEffect.
  change (loadHatImage _ (h_src sampleOverlay))
    with (Decoding "/hats/1.png").
  cbv iota.
  rewrite (addHat_first_native _ largeBackground tallRaster);
    try reflexivity; [| cbn; lra | cbn; lra].
  unfold sessionPlaced, firstHat. cbn.
  replace (3000 / 2)%R with 1500%R by lra.
  replace (3000 / 3)%R with 1000%R by lra.
  replace (3000 * 0.35 / 60)%R with 17.5%R by lra.
  reflexivity.
Qed.

Lemma upright_offsets (w h : R) :
  RcornerOffsets w h 0 = ((w / 2, h / 2), (w / 2, - (h / 2)))%R.
Proof.
  unfold RcornerOffsets. replace (0 * PI / 180)%R with 0%R by lra.
  rewrite cos_0, sin_0. repeat f_equal; lra.
Qed.

Lemma session_press :
  handleMouseDown sessionPlaced (pointerOn 3000 3000 2025 1700)
  = sessionPressed.
Proof.
  assert (Htarget :
            controlTarget sessionPlaced
            = Some (firstHat,
                    {| tl := mkPoint (Fin (1500 - 525)) (Fin (1000 - 700));
                       tr := mkPoint (Fin (1500 + 525)) (Fin (1000 + - 700));
                       br := mkPoint (Fin (1500 + 525)) (Fin (1000 + 700));
                       bl := mkPoint (Fin (1500 - 525)) (Fin (1000 - - 700));
                       width := Fin 1050;
                       height := Fin 1400 |})).
  { apply (controlTarget_intro _ (newUid sampleAddEnv)).
    - reflexivity.
    - apply truthy_some, newUid_nonempty.
    - unfold findHat. cbn [sessionPlaced hats List.find firstHat hat_uid].
      now rewrite String.eqb_refl.
    - rewrite (getTransformedCorners_fin _ firstHat tallRaster
                 1500 1000 0 17.5) by reflexivity.
      cbn [tallRaster img_width img_height].
      replace (IZR (Z.of_N 60) * 17.5)%R with 1050%R by (cbn; lra).
      replace (IZR (Z.of_N 80) * 17.5)%R with 1400%R by (cbn; lra).
      rewrite upright_offsets. cbn [fst snd].
      replace (1050 / 2)%R with 525%R by lra.
      replace (1400 / 2)%R with 700%R by lra.
      reflexivity. }
  rewrite (press_on_scale_handle sessionPlaced _ largeBackground firstHat _
             eq_refl Htarget);
    rewrite ?getCanvasCoords_pointerOn, ?hitRadiusOf_pointerOn by lra;
    cbn [pt_x pt_y tl tr br].
  - reflexivity.
  - apply onHandle_fin_false. lra.
  - apply onHandle_fin_false. lra.
  - apply onHandle_fin. lra.
Qed.

Lemma session_pressed : run initialState pressSession = sessionPressed.
Proof.
  change pressSession
    with ([ EvLoadFile (mkFile "image/png" (Some largeBackground));
            EvAddHat sampleOverlay (Some tallRaster) sampleAddEnv ]
          ++ [ EvPointerDown (pointerOn 3000 3000 2025 1700) ]).
  rewrite run_app, session_placed. apply session_press.
Qed.

(** The baseline of the session is 875 pixels from the centre. *)
Lemma session_baseline_distance : Rdistance 2025 1700 1500 1000 = 875%R.
Proof.
  unfold Rdistance.
  replace ((2025 - 1500) * (2025 - 1500) + (1700 - 1000) * (1700 - 1000))%R
    with (875 * 875)%R by lra.
  apply sqrt_square. lra.
Qed.

(** Moving the pointer during the gesture of the session. *)
Lemma session_scaled (px py : R) :
  hats (run initialState (scaleSession px py))
  = [withScale firstHat
       (Fin (Rmax 0.1 (17.5 * (Rdistance px py 1500 1000 / 875))))].
Proof.
  unfold scaleSession. rewrite run_app, session_pressed.
  unfold run. cbn [fold_left step].
  rewrite (handleMouseMove_active _ _ (newUid sampleAddEnv));
    [| discriminate | reflexivity | apply newUid_nonempty].
  rewrite getCanvasCoords_pointerOn by lra.
  cbn [pt_x pt_y setHats hats sessionPressed setStartInteraction setMode
       sessionPlaced map mode startInteraction firstHat hat_uid].
  rewrite String.eqb_refl, moveHat_scale. do 2 f_equal.
  rewrite (flooredScale_fin _ _ px py 1500 1000 2025 1700 17.5);
    try reflexivity.
  - now rewrite session_baseline_distance.
  - intros [= Hx Hy]. lra.
Qed.

Lemma session_retargeted :
  run initialState
    (pressSession
     ++ [ EvLoadFile (mkFile "image/png" (Some widerBackground));
          EvAddHat sampleOverlay None laterAddEnv ])
  = sessionRetargeted.
Proof.
  rewrite run_app, session_pressed. unfold run. cbn [fold_left step].
  change (processFile sessionPressed
            (mkFile "image/png" (Some widerBackground)))
    with (setSelectedHatId None
            (setHats (fun _ => []) (setImage widerBackground sessionPressed))).
  unfold addHatEffect.
  change (loadHatImage _ (h_src sampleOverlay)) with (Resolved tallRaster).
  cbv iota.
  rewrite (addHat_first_native _ widerBackground tallRaster);
    try reflexivity; [| cbn; lra | cbn; lra].
  unfold sessionRetargeted, lateHat. cbn.
  replace (4050 / 2)%R with 2025%R by lra.
  replace (5100 / 3)%R with 1700%R by lra.
  replace (4050 * 0.35 / 60)%R with 23.625%R by lra.
  reflexivity.
Qed.

(** The last session is a run of the editor, and it leaves the scene
    with a single, selected hat whose scale is [NaN]. *)
Lemma scale_NaN_reachable :
  reachable (run initialState nanSession)
  /\ hats (run initialState nanSession) = [withScale lateHat NaN]
  /\ selectedHat (run initialState nanSession) = Some (withScale lateHat NaN).
Proof.
  split; [apply run_reachable, reachable_init |].
  assert (Hrun : run initialState nanSession
                 = handleMouseMove sessionRetargeted
                     (pointerOn 4050 5100 2025 1700)).
  { rewrite <- session_retargeted. unfold nanSession.
    rewrite !run_app. reflexivity. }
  assert (Hmove : handleMouseMove sessionRetargeted
                    (pointerOn 4050 5100 2025 1700)
                  = setHats (fun _ => [withScale lateHat NaN])
                      sessionRetargeted).
  { rewrite (handleMouseMove_active _ _ (newUid laterAddEnv));
      [| discriminate | reflexivity | apply newUid_nonempty].
    rewrite getCanvasCoords_pointerOn by lra. cbn [pt_x pt_y].
    unfold setHats. f_equal.
    cbn [sessionRetargeted hats map mode startInteraction lateHat hat_uid].
    rewrite String.eqb_refl, moveHat_scale. do 2 f_equal.
    unfold flooredScale.
    cbn [captureStart mouseX mouseY startScale].
    rewrite !(distanceFromCentre_fin _ _ _ 2025 1700) by reflexivity.
    replace (Rdistance 2025 1700 2025 1700) with 0%R
      by (symmetry; now apply Rdistance_zero).
    rewrite div_zero_zero. reflexivity. }
  rewrite Hrun, Hmove. split; [reflexivity |].
  unfold selectedHat, findHat.
  cbn [setHats selectedHatId hats sessionRetargeted List.find withScale
       hat_uid lateHat].
  now rewrite String.eqb_refl.
Qed.

End NaNSession.

Lemma scaling_floored_and_monotone_witness :
  hats (handleMouseMove sessionPressed (pointerOn 3000 3000 1800 1400))
  = [ {| hat_id := hat_id firstHat;
         hat_name := hat_name firstHat;
         hat_src := hat_src firstHat;
         hat_uid := hat_uid firstHat;
         hat_x := hat_x firstHat;
         hat_y := hat_y firstHat;
         hat_scale :=
           flooredScale (startInteraction sessionPressed)
             (pt_x (getCanvasCoords (pointerOn 3000 3000 1800 1400)))
             (pt_y (getCanvasCoords (pointerOn 3000 3000 1800 1400)))
             firstHat;
         hat_rotation := hat_rotation firstHat;
         hat_isMirrored := hat_isMirrored firstHat |} ]
  /\ flooredScale (startInteraction sessionPressed) (Fin 1500) (Fin 1000)
       firstHat
     = Fin (Rmax 0.1
              (17.5 * (Rdistance 1500 1000 1500 1000
                       / Rdistance 2025 1700 1500 1000)))
  /\ (0.1 <= Rmax 0.1
               (17.5 * (Rdistance 1500 1000 1500 1000
                        / Rdistance 2025 1700 1500 1000)))%R.
Proof.
  destruct (scaling_floored_and_monotone sessionPressed
              (pointerOn 3000 3000 1800 1400) (newUid sampleAddEnv)
              eq_refl eq_refl (newUid_nonempty sampleAddEnv))
    as (Hmove & _ & _ & Hfacts & _).
  split.
  - rewrite Hmove. cbn [hats sessionPressed setStartInteraction setMode
      sessionPlaced map firstHat hat_uid].
    now rewrite String.eqb_refl.
  - destruct (Hfacts firstHat 1500 1000 2025 1700 17.5 eq_refl eq_refl eq_refl
                eq_refl eq_refl)%R as (Hfloor & _ & _).
    + intros [= Hx Hy]. lra.
    + apply Hfloor.
Defined.

(** The claim as first stated fails in two ways.  Below the floor the
    scale does not grow with the distance: in the session above, with
    the baseline 875 pixels from the centre, pointers 1 and 2 pixels from
    the centre both give 0.1.  And when the selection changes during the
    gesture to a hat centred on the baseline pointer, a pointer on that
    point gives [0 / 0]: the scale becomes [NaN]. *)
Lemma scaling_not_strict_below_floor :
  (Rdistance 1501 1000 1500 1000 < Rdistance 1502 1000 1500 1000)%R
  /\ hats (run initialState (scaleSession 1501 1000))
     = [withScale firstHat (Fin 0.1)]
  /\ hats (run initialState (scaleSession 1502 1000))
     = [withScale firstHat (Fin 0.1)]
  /\ hats (run initialState nanSession) = [withScale lateHat NaN].
Proof.
  assert (Hd1 : Rdistance 1501 1000 1500 1000 = 1%R)
    by (apply Rdistance_horizontal; lra).
  assert (Hd2 : Rdistance 1502 1000 1500 1000 = 2%R)
    by (apply Rdistance_horizontal; lra).
  split; [rewrite Hd1, Hd2; lra |].
  split; [| split].
  - rewrite session_scaled, Hd1. do 3 f_equal. apply Rmax_left. lra.
  - rewrite session_scaled, Hd2. do 3 f_equal. apply Rmax_left. lra.
  - apply scale_NaN_reachable.
Qed.

(** * Further properties of the code *)

(** ** Pointer moves *)

Section PointerMoves.

Lemma moveHat_again (m : Mode) (s : StartInteraction) (x1 y1 x2 y2 : number)
    (hat : PlacedHat) :
  moveHat m s x2 y2 (moveHat m s x1 y1 hat) = moveHat m s x2 y2 hat.
Proof. destruct m; reflexivity. Qed.

Lemma handleMouseMove_idle (st : EditorState) (e : PointerEvent) :
  mode st = NONE \/ truthy (selectedHatId st) = false ->
  handleMouseMove st e = st.
Proof.
  intros Hidle. unfold handleMouseMove.
  destruct (mode st); [reflexivity | | |];
    (destruct (selectedHatId st) as [sel |]; [| reflexivity];
     destruct Hidle as [[=] | ->]; reflexivity).
Qed.

Lemma handleMouseMove_twice (st : EditorState) (e1 e2 : PointerEvent) :
  handleMouseMove (handleMouseMove st e1) e2 = handleMouseMove st e2.
Proof.
  destruct (truthy (selectedHatId st)) eqn:Htruthy.
  2:{ now rewrite (handleMouseMove_idle st e1) by auto. }
  destruct (selectedHatId st) as [sel |] eqn:Hsel; [| discriminate].
  assert (Hne : sel <> "") by (intros ->; discriminate).
  destruct (mode st) eqn:Hmode.
  { now rewrite (handleMouseMove_idle st e1) by auto. }
  all: rewrite (handleMouseMove_active st e1 sel) by congruence;
    rewrite (handleMouseMove_active _ e2 sel)
      by (cbn; congruence || assumption);
    rewrite (handleMouseMove_active st e2 sel) by congruence;
    unfold setHats;
    cbn [image hats selectedHatId loadedImages isDragging mode
         startInteraction];
    f_equal; rewrite map_map; apply map_ext; intros hat;
    destruct (String.eqb (hat_uid hat) sel) eqn:Huid;
    [ rewrite moveHat_uid, Huid; apply moveHat_again | now rewrite Huid ].
Qed.

(** X1. During a gesture only the last pointer position counts: a
    pointer-move after any number of earlier moves leaves the state the
    move alone would have left, in every mode and for every number. *)
Theorem pointer_moves_last_wins (st : EditorState)
    (earlier : list PointerEvent) (e : PointerEvent) :
  run st (map EvPointerMove (earlier ++ [e])) = handleMouseMove st e.
Proof.
  revert st. induction earlier as [| e1 earlier IH]; intros st; [reflexivity |].
  cbn [app map]. unfold run. cbn [fold_left step].
  fold (run (handleMouseMove st e1) (map EvPointerMove (earlier ++ [e]))).
  rewrite IH. apply handleMouseMove_twice.
Qed.

Lemma Forall2_map_same {A : Type} (R : A -> A -> Prop) (f : A -> A)
    (l : list A) :
  (forall a, R a (f a)) -> Forall2 R l (map f l).
Proof. intros Hf. induction l; cbn; constructor; auto. Qed.

Lemma movedOnly_refl (m : Mode) (hat : PlacedHat) : movedOnly m hat hat.
Proof. unfold movedOnly. destruct m; auto 10. Qed.

Lemma movedOnly_moveHat (m : Mode) (s : StartInteraction) (x y : number)
    (hat : PlacedHat) :
  movedOnly m hat (moveHat m s x y hat).
Proof. unfold movedOnly. destruct m; cbn; auto 10. Qed.

Lemma pointer_move_keeps_session (st : EditorState) (e : PointerEvent) :
  sameSession st (handleMouseMove st e).
Proof.
  unfold sameSession, handleMouseMove.
  destruct (mode st) eqn:Hmode;
    destruct (selectedHatId st) as [sel |] eqn:Hsel;
    try (repeat split; congruence);
    destruct (negb (truthy (Some sel))); cbn; repeat split; congruence.
Qed.

(** X2. A pointer-move touches nothing but the placement of the selected
    hat: the background, the selection, the cache, the mode and the
    baseline stay, the hats keep their number, order, identity and
    mirroring, every hat that is not selected is unchanged, and of the
    selected one only the position moves in [DRAG], only the rotation in
    [ROTATE] and only the scale in [SCALE]. *)
Theorem pointer_move_frame (st : EditorState) (e : PointerEvent) :
  sameSession st (handleMouseMove st e)
  /\ Forall2
       (fun hat hat' =>
          movedOnly (mode st) hat hat'
          /\ (selectedHatId st <> Some (hat_uid hat) -> hat' = hat))
       (hats st) (hats (handleMouseMove st e)).
Proof.
  assert (Hsame : Forall2
                    (fun hat hat' =>
                       movedOnly (mode st) hat hat'
                       /\ (selectedHatId st <> Some (hat_uid hat) ->
                           hat' = hat))
                    (hats st) (hats st)).
  { rewrite <- (map_id (hats st)) at 2. apply Forall2_map_same.
    intros hat. split; [apply movedOnly_refl | reflexivity]. }
  unfold handleMouseMove, sameSession.
  destruct (mode st) eqn:Hmode; [now auto 10 | | |];
    (destruct (selectedHatId st) as [sel |] eqn:Hsel; [| now auto 10];
     destruct (negb (truthy (Some sel))); [now auto 10 |];
     split; [cbn; now auto 10 |];
     cbn [setHats hats]; apply Forall2_map_same; intros hat;
     destruct (String.eqb_spec (hat_uid hat) sel) as [Huid | Huid];
     cbn [negb];
     [ split; [apply movedOnly_moveHat | congruence]
     | split; [apply movedOnly_refl | reflexivity] ]).
Qed.

(** X3. After a release nothing follows the pointer: [handleMouseUp]
    keeps the scene as the gesture left it, and no sequence of
    pointer-moves and further releases changes the state until the next
    press. *)
Theorem released_pointer_moves_nothing (st : EditorState) (evs : list Event) :
  forallb isMoveOrUp evs = true ->
  run (handleMouseUp st) evs = handleMouseUp st
  /\ hats (handleMouseUp st) = hats st
  /\ selectedHatId (handleMouseUp st) = selectedHatId st
  /\ mode (handleMouseUp st) = NONE.
Proof.
  intros Hevs. split; [| now auto].
  induction evs as [| ev evs IH]; [reflexivity |].
  cbn [forallb] in Hevs. apply andb_prop in Hevs as [Hev Hevs].
  unfold run in *. cbn [fold_left].
  destruct ev; try discriminate; cbn [step]; auto.
Qed.

End PointerMoves.

Lemma released_pointer_moves_nothing_witness :
  run (handleMouseUp sessionPressed)
    [EvPointerMove (pointerOn 3000 3000 1600 1100); EvPointerUp;
     EvPointerMove (pointerOn 3000 3000 10 10)]
  = handleMouseUp sessionPressed
  /\ hats (handleMouseUp sessionPressed) = hats sessionPressed
  /\ selectedHatId (handleMouseUp sessionPressed)
     = selectedHatId sessionPressed
  /\ mode (handleMouseUp sessionPressed) = NONE.
Proof.
  apply (released_pointer_moves_nothing sessionPressed). reflexivity.
Defined.

(** ** Dragging *)

Section Dragging.

Lemma press_on_hat (st : EditorState) (e : PointerEvent) (bg : Image)
    (below above : list PlacedHat) (hat : PlacedHat) :
  image st = Some bg ->
  let x := pt_x (getCanvasCoords e) in
  let y := pt_y (getCanvasCoords e) in
  noControlHit st x y (hitRadiusOf e) ->
  hats st = below ++ hat :: above ->
  hitsHat (loadedImages st) x y hat = true ->
  (forall h, In h above -> hitsHat (loadedImages st) x y h = false) ->
  handleMouseDown st e
  = setStartInteraction (captureStart x y hat)
      (setMode DRAG
         (setHats
            (fun prev =>
               List.filter
                 (fun h => negb (String.eqb (hat_uid h) (hat_uid hat))) prev
               ++ [hat])
            (setSelectedHatId (Some (hat_uid hat)) st))).
Proof.
  intros Himg x y Hno Hsplit Hhit Habove.
  rewrite (handleMouseDown_outcome st e bg Himg). fold x y.
  unfold pointerDownOutcome.
  rewrite (checkControls_none _ _ _ _ Hno).
  now rewrite Hsplit, hitScan_topmost.
Qed.




End Dragging.




(** ** The disc test of the handles *)

Section DiscTest.

Lemma sub_NaN_l (a : number) : NaN - a = NaN.
Proof. now destruct a. Qed.

Lemma sub_NaN_r (a : number) : a - NaN = NaN.
Proof. now destruct a. Qed.

Lemma add_NaN_r (a : number) : a + NaN = NaN.
Proof. now destruct a. Qed.

Lemma leb_NaN_r (a : number) : (a <=? NaN) = false.
Proof. now destruct a. Qed.

Import PrimFloat SpecFloat FloatOps FloatAxioms.
#[local] Set Warnings "-inexact-float".

Lemma Prim2SF_nan (x : float) : is_nan x = true -> Prim2SF x = S754_nan.
Proof. unfold Prim2SF. now intros ->. Qed.

Lemma SF64sub_nan_r (x : spec_float) : SF64sub x S754_nan = S754_nan.
Proof. now destruct x. Qed.

Lemma SF64add_nan_r (x : spec_float) : SF64add x S754_nan = S754_nan.
Proof. now destruct x. Qed.

Lemma SFleb_nan_r (x : spec_float) : SFleb x S754_nan = false.
Proof. now destruct x. Qed.

(** On doubles, a [NaN] among the five numbers makes the test fail. *)
Lemma isPointInCircle_nan (px py cx cy radius : float) :
  is_nan px = true \/ is_nan py = true \/ is_nan cx = true
  \/ is_nan cy = true \/ is_nan radius = true ->
  Float64.isPointInCircle px py cx cy radius = false.
Proof.
  intros Hnan. unfold Float64.isPointInCircle.
  rewrite leb_spec, sqrt_spec, add_spec, !mul_spec, !sub_spec.
  assert (Hsub : forall y, SF64sub S754_nan y = S754_nan) by reflexivity.
  assert (Hadd : forall y, SF64add S754_nan y = S754_nan) by reflexivity.
  assert (Hmul : SF64mul S754_nan S754_nan = S754_nan) by reflexivity.
  assert (Hsqrt : SF64sqrt S754_nan = S754_nan) by reflexivity.
  assert (Hleb : forall y, SFleb S754_nan y = false) by reflexivity.
  destruct Hnan as [H | [H | [H | [H | H]]]]; rewrite (Prim2SF_nan _ H);
    rewrite ?Hsub, ?SF64sub_nan_r, ?Hmul, ?Hadd, ?SF64add_nan_r, ?Hsqrt,
      ?Hleb, ?SFleb_nan_r; reflexivity.
Qed.

(** X5. In exact arithmetic [isPointInCircle] is the test of a closed
    disc: for finite points, a finite radius accepts exactly the points
    whose squared distance from the centre is at most the squared radius,
    and none at all when it is negative; an infinite radius accepts every
    point.  A [NaN] among the five numbers makes the test fail, in exact
    arithmetic and in doubles.  In doubles the same line agrees on the
    3-4-5 triangle and fails on a negative radius, but a square that
    overflows makes it reject a point of the disc: (1e200, 0) is not
    within 1e300 of the origin. *)
Theorem isPointInCircle_closed_disc :
  (forall (px py cx cy : R) (radius : number),
     isPointInCircle (Fin px) (Fin py) (Fin cx) (Fin cy) radius = true
     <-> match radius with
         | Fin r =>
             (0 <= r
              /\ (px - cx) * (px - cx) + (py - cy) * (py - cy) <= r * r)%R
         | PosInf => True
         | NegInf | NaN => False
         end)
  /\ (forall px py cx cy radius : number,
        px = NaN \/ py = NaN \/ cx = NaN \/ cy = NaN \/ radius = NaN ->
        isPointInCircle px py cx cy radius = false)
  /\ (forall px py cx cy radius : float,
        is_nan px = true \/ is_nan py = true \/ is_nan cx = true
        \/ is_nan cy = true \/ is_nan radius = true ->
        Float64.isPointInCircle px py cx cy radius = false)
  /\ Float64.isPointInCircle 3 4 0 0 5 = true
  /\ Float64.isPointInCircle 3 4 0 0 4.9 = false
  /\ Float64.isPointInCircle 0 0 0 0 (-1) = false
  /\ Float64.isPointInCircle 0 0 0 0 infinity = true
  /\ PrimFloat.leb 1e200 1e300 = true
  /\ Float64.isPointInCircle 1e200 0 0 0 1e300 = false.
Proof.
  split; [| split; [| split; [exact isPointInCircle_nan |]]].
  - intros px py cx cy [r | | |].
    + change (isPointInCircle (Fin px) (Fin py) (Fin cx) (Fin cy) (Fin r))
        with (onHandle (Fin px) (Fin py) (Fin r) (mkPoint (Fin cx) (Fin cy))).
      rewrite onHandle_fin. tauto.
    + unfold isPointInCircle. rewrite distance_fin. cbn. tauto.
    + unfold isPointInCircle. rewrite distance_fin. cbn.
      split; [discriminate | tauto].
    + unfold isPointInCircle. rewrite leb_NaN_r.
      split; [discriminate | tauto].
  - intros px py cx cy radius Hnan. unfold isPointInCircle.
    destruct Hnan as [-> | [-> | [-> | [-> | ->]]]];
      rewrite ?sub_NaN_l, ?sub_NaN_r, ?add_NaN_r, ?leb_NaN_r;
      reflexivity.
  - repeat split; vm_compute; reflexivity.
Qed.

End DiscTest.

(** ** The shape of the selection box *)

Section SelectionBox.

(** X6. The four corners of a hat with a finite placement are those of
    a rectangle around its centre: both diagonals have the centre as
    their midpoint, the top edge has the length of the scaled raster
    width and the right edge that of the scaled raster height, and the
    two edges are perpendicular. *)
Theorem corners_form_rectangle (loaded : gmap string Image)
    (hat : PlacedHat) (img : Image) (cx cy rot k : R) :
  loaded !! hat_src hat = Some img ->
  hat_x hat = Fin cx -> hat_y hat = Fin cy ->
  hat_rotation hat = Fin rot -> hat_scale hat = Fin k ->
  let w := (IZR (Z.of_N (img_width img)) * k)%R in
  let h := (IZR (Z.of_N (img_height img)) * k)%R in
  exists (c : Corners) (tlx tly trx try' brx bry blx bly : R),
    getTransformedCorners loaded hat = Some c
    /\ tl c = mkPoint (Fin tlx) (Fin tly)
    /\ tr c = mkPoint (Fin trx) (Fin try')
    /\ br c = mkPoint (Fin brx) (Fin bry)
    /\ bl c = mkPoint (Fin blx) (Fin bly)
    /\ (tlx + brx = 2 * cx /\ tly + bry = 2 * cy)%R
    /\ (trx + blx = 2 * cx /\ try' + bly = 2 * cy)%R
    /\ ((trx - tlx) * (trx - tlx) + (try' - tly) * (try' - tly) = w * w)%R
    /\ ((brx - trx) * (brx - trx) + (bry - try') * (bry - try') = h * h)%R
    /\ ((trx - tlx) * (brx - trx) + (try' - tly) * (bry - try') = 0)%R.
Proof.
  intros Himg Hx Hy Hrot Hk w h.
  pose proof (getTransformedCorners_fin loaded hat img cx cy rot k
                Himg Hx Hy Hrot Hk) as Hc.
  cbv zeta in Hc. fold w h in Hc.
  unfold RcornerOffsets in Hc. cbn [fst snd] in Hc.
  set (t := (rot * PI / 180)%R) in Hc.
  pose proof (sin2_cos2 t) as Hunit. unfold Rsqr in Hunit.
  set (c := cos t) in *. set (s := sin t) in *.
  eexists _, _, _, _, _, _, _, _, _.
  split; [exact Hc |]. cbn [tl tr br bl].
  do 4 (split; [reflexivity |]).
  split; [split; lra |]. split; [split; lra |].
  split; [| split].
  - replace (cx + (w / 2 * c + h / 2 * s) - (cx - (w / 2 * c - h / 2 * s)))%R
      with (w * c)%R by lra.
    replace (cy + (w / 2 * s - h / 2 * c) - (cy - (w / 2 * s + h / 2 * c)))%R
      with (w * s)%R by lra.
    replace (w * c * (w * c) + w * s * (w * s))%R
      with (w * w * (s * s + c * c))%R by ring.
    rewrite Hunit. ring.
  - replace (cx + (w / 2 * c - h / 2 * s) - (cx + (w / 2 * c + h / 2 * s)))%R
      with (- (h * s))%R by lra.
    replace (cy + (w / 2 * s + h / 2 * c) - (cy + (w / 2 * s - h / 2 * c)))%R
      with (h * c)%R by lra.
    replace (- (h * s) * - (h * s) + h * c * (h * c))%R
      with (h * h * (s * s + c * c))%R by ring.
    rewrite Hunit. ring.
  - ring.
Qed.

End SelectionBox.

Lemma corners_form_rectangle_witness :
  exists (c : Corners) (tlx tly trx try' brx bry blx bly : R),
    getTransformedCorners (loadedImages selectedScene) sampleHat = Some c
    /\ tl c = mkPoint (Fin tlx) (Fin tly)
    /\ tr c = mkPoint (Fin trx) (Fin try')
    /\ br c = mkPoint (Fin brx) (Fin bry)
    /\ bl c = mkPoint (Fin blx) (Fin bly)
    /\ (tlx + brx = 2 * 400 /\ tly + bry = 2 * 300)%R
    /\ (trx + blx = 2 * 400 /\ try' + bly = 2 * 300)%R
    /\ ((trx - tlx) * (trx - tlx) + (try' - tly) * (try' - tly)
        = IZR (Z.of_N 100) * 1 * (IZR (Z.of_N 100) * 1))%R
    /\ ((brx - trx) * (brx - trx) + (bry - try') * (bry - try')
        = IZR (Z.of_N 40) * 1 * (IZR (Z.of_N 40) * 1))%R
    /\ ((trx - tlx) * (brx - trx) + (try' - tly) * (bry - try') = 0)%R.
Proof.
  apply (corners_form_rectangle (loadedImages selectedScene) sampleHat
           sampleRaster 400 300 0 1); reflexivity.
Defined.

(** ** Mirroring *)

Section Mirroring.

Lemma flipHat_involutive (h : PlacedHat) : flipHat (flipHat h) = h.
Proof.
  destruct h. unfold flipHat. cbn. now rewrite negb_involutive.
Qed.

Lemma toggleMirror_twice (st : EditorState) :
  toggleMirror (toggleMirror st) = st.
Proof.
  destruct st as [img l sel loaded dragging m s]. unfold toggleMirror.
  cbn [selectedHatId setHats]. destruct sel as [sel |]; [| reflexivity].
  unfold setHats.
  cbn [selectedHatId hats image loadedImages isDragging mode startInteraction].
  f_equal. rewrite map_map.
  induction l as [| h l IH]; [reflexivity |]. cbn [map]. rewrite IH. f_equal.
  destruct (String.eqb (hat_uid h) sel) eqn:Huid.
  - change (hat_uid (flipHat h)) with (hat_uid h). rewrite Huid.
    apply flipHat_involutive.
  - now rewrite Huid.
Qed.

Lemma controlTarget_toggleMirror (st : EditorState) (hat : PlacedHat)
    (c : Corners) :
  controlTarget st = Some (hat, c) ->
  controlTarget (toggleMirror st) = Some (flipHat hat, c).
Proof.
  intros Ht.
  destruct (controlTarget_some _ _ _ Ht) as (sel & Hsel & Htruthy & Hfind & Hc).
  unfold toggleMirror. rewrite Hsel.
  apply (controlTarget_intro _ sel); try assumption.
  cbn [setHats hats]. rewrite findHat_map.
  - rewrite Hfind. cbn [option_map].
    apply findHat_some in Hfind as [_ Huid].
    rewrite Huid, String.eqb_refl. reflexivity.
  - intros h. now destruct (String.eqb (hat_uid h) sel).
Qed.

Lemma press_on_flip_handle (st : EditorState) (e : PointerEvent)
    (bg : Image) (hat : PlacedHat) (c : Corners) :
  image st = Some bg ->
  controlTarget st = Some (hat, c) ->
  let x := pt_x (getCanvasCoords e) in
  let y := pt_y (getCanvasCoords e) in
  onHandle x y (hitRadiusOf e) (tl c) = false ->
  onHandle x y (hitRadiusOf e) (tr c) = false ->
  onHandle x y (hitRadiusOf e) (br c) = false ->
  onHandle x y (hitRadiusOf e) (bl c) = true ->
  handleMouseDown st e = toggleMirror st.
Proof.
  intros Himg Ht x y Htl Htr Hbr Hbl.
  destruct (controlTarget_some _ _ _ Ht) as (sel & Hsel & Htruthy & Hfind & Hc).
  rewrite (handleMouseDown_outcome st e bg Himg). fold x y.
  unfold pointerDownOutcome.
  rewrite (checkControls_target st x y _ sel hat c) by assumption.
  now rewrite Htl, Htr, Hbr, Hbl.
Qed.

(** X7. A press on the mirror handle flips the selected hat and nothing
    else, and leaves the handle where it was: pressing at the same place
    once more gives back the state from before the first press. *)
Theorem mirror_twice_restores (st : EditorState) (e : PointerEvent)
    (bg : Image) (hat : PlacedHat) (c : Corners) :
  image st = Some bg ->
  controlTarget st = Some (hat, c) ->
  let x := pt_x (getCanvasCoords e) in
  let y := pt_y (getCanvasCoords e) in
  onHandle x y (hitRadiusOf e) (tl c) = false ->
  onHandle x y (hitRadiusOf e) (tr c) = false ->
  onHandle x y (hitRadiusOf e) (br c) = false ->
  onHandle x y (hitRadiusOf e) (bl c) = true ->
  controlTarget (handleMouseDown st e) = Some (flipHat hat, c)
  /\ hat_isMirrored (flipHat hat) = negb (hat_isMirrored hat)
  /\ handleMouseDown (handleMouseDown st e) e = st.
Proof.
  intros Himg Ht x y Htl Htr Hbr Hbl.
  assert (Hfirst : handleMouseDown st e = toggleMirror st)
    by now apply (press_on_flip_handle st e bg hat c).
  pose proof (controlTarget_toggleMirror st hat c Ht) as Ht'.
  rewrite Hfirst. split; [exact Ht' |]. split; [reflexivity |].
  rewrite (press_on_flip_handle (toggleMirror st) e bg (flipHat hat) c);
    try assumption.
  - apply toggleMirror_twice.
  - unfold toggleMirror. now destruct (selectedHatId st).
Qed.

End Mirroring.

Lemma mirror_twice_restores_witness :
  controlTarget (handleMouseDown selectedScene (pointerAt 350 320))
  = Some (flipHat sampleHat,
          {| tl := mkPoint (Fin (400 - 100 / 2)) (Fin (300 - 40 / 2));
             tr := mkPoint (Fin (400 + 100 / 2)) (Fin (300 - 40 / 2));
             br := mkPoint (Fin (400 + 100 / 2)) (Fin (300 + 40 / 2));
             bl := mkPoint (Fin (400 - 100 / 2)) (Fin (300 + 40 / 2));
             width := Fin 100;
             height := Fin 40 |})
  /\ hat_isMirrored (flipHat sampleHat) = negb (hat_isMirrored sampleHat)
  /\ handleMouseDown (handleMouseDown selectedScene (pointerAt 350 320))
       (pointerAt 350 320)
     = selectedScene.
Proof.
  apply (mirror_twice_restores selectedScene (pointerAt 350 320)
           smallBackground sampleHat _ eq_refl sampleHat_controlTarget);
    rewrite getCanvasCoords_pointerAt, hitRadiusOf_pointerAt;
    cbn [pt_x pt_y tl tr br bl].
  - apply onHandle_fin_false. lra.
  - apply onHandle_fin_false. lra.
  - apply onHandle_fin_false. lra.
  - apply onHandle_fin. lra.
Defined.

(** ** What a pointer-down can do to the scene *)

Section PointerDownFrame.

Lemma checkControls_cases (st st' : EditorState) (x y r : number) :
  checkControls st x y r = Some st' ->
  st' = deleteSelectedHat st
  \/ (exists hat m, st' = setStartInteraction (captureStart x y hat)
                            (setMode m st))
  \/ st' = toggleMirror st.
Proof.
  unfold checkControls, toggleMirror.
  destruct (selectedHatId st) as [sel |]; [| discriminate].
  destruct (negb (truthy (Some sel))); [discriminate |].
  destruct (findHat sel (hats st)) as [hat |]; [| discriminate].
  destruct (getTransformedCorners (loadedImages st) hat) as [c |];
    [| discriminate].
  repeat match goal with
         | |- context [if ?b then _ else _] => destruct b
         end;
    intros [= <-]; eauto.
Qed.

Lemma filter_drops_member (hat : PlacedHat) (l : list PlacedHat) :
  In hat l ->
  (length
     (List.filter (fun h => negb (String.eqb (hat_uid h) (hat_uid hat))) l)
   < length l)%nat.
Proof.
  induction l as [| h l IH]; [intros [] |].
  intros [-> | Hin]; cbn [List.filter].
  - rewrite String.eqb_refl. cbn [negb length].
    pose proof (List.filter_length_le
                  (fun h => negb (String.eqb (hat_uid h) (hat_uid hat))) l).
    lia.
  - specialize (IH Hin).
    destruct (negb (String.eqb (hat_uid h) (hat_uid hat))); cbn [length]; lia.
Qed.

Lemma sameOrFlipped_refl (hat : PlacedHat) : sameOrFlipped hat hat.
Proof. now left. Qed.

Lemma deleteSelectedHat_hats (st : EditorState) :
  exists p, hats (deleteSelectedHat st) = List.filter p (hats st).
Proof.
  unfold deleteSelectedHat.
  destruct (selectedHatId st) as [sel |].
  - destruct (truthy (Some sel)); [eexists; reflexivity |].
    exists (fun _ => true). symmetry. now apply filter_keeps_all.
  - exists (fun _ => true). symmetry. now apply filter_keeps_all.
Qed.

(** X8. A pointer-down never adds a hat and never moves, turns or
    resizes one: every hat of the scene afterwards is a hat of the scene
    before, as it was or mirrored, and there are no more of them.  The
    background, the raster cache and the drop highlight are not
    touched. *)
Theorem pointer_down_frame (st : EditorState) (e : PointerEvent) :
  image (handleMouseDown st e) = image st
  /\ loadedImages (handleMouseDown st e) = loadedImages st
  /\ isDragging (handleMouseDown st e) = isDragging st
  /\ (length (hats (handleMouseDown st e)) <= length (hats st))%nat
  /\ forall hat', In hat' (hats (handleMouseDown st e)) ->
       exists hat, In hat (hats st) /\ sameOrFlipped hat hat'.
Proof.
  unfold handleMouseDown.
  destruct (image st) as [bg |] eqn:Himg;
    [| rewrite Himg; repeat split; [lia | eauto using sameOrFlipped_refl]].
  cbv zeta.
  set (x := pt_x (getCanvasCoords e)). set (y := pt_y (getCanvasCoords e)).
  destruct (checkControls st x y _) as [st' |] eqn:Hcontrols.
  - apply checkControls_cases in Hcontrols
      as [-> | [(hat & m & ->) | ->]].
    + destruct (deleteSelectedHat_hats st) as [p Hp].
      rewrite Hp, deleteSelectedHat_image.
      split; [exact Himg |].
      split; [unfold deleteSelectedHat; destruct (selectedHatId st) as [sel |];
              [destruct (truthy (Some sel)) |]; reflexivity |].
      split; [unfold deleteSelectedHat; destruct (selectedHatId st) as [sel |];
              [destruct (truthy (Some sel)) |]; reflexivity |].
      split; [apply List.filter_length_le |].
      intros hat' Hin. apply List.filter_In in Hin as [Hin _].
      eauto using sameOrFlipped_refl.
    + cbn. repeat split; [exact Himg | lia |].
      eauto using sameOrFlipped_refl.
    + unfold toggleMirror. destruct (selectedHatId st) as [sel |];
        [| repeat split; [exact Himg | lia | eauto using sameOrFlipped_refl]].
      cbn [setHats image loadedImages isDragging hats].
      repeat split; [exact Himg | rewrite length_map; lia |].
      intros hat' Hin. apply in_map_iff in Hin as (hat & <- & Hin).
      exists hat. split; [exact Hin |].
      destruct (String.eqb (hat_uid hat) sel); [now right | now left].
  - destruct (hitScan (loadedImages st) x y (hats st) (length (hats st)))
      as [hat |] eqn:Hscan.
    + apply hitScan_some in Hscan as Hhat.
      cbn [setStartInteraction setMode setHats setSelectedHatId
           image loadedImages isDragging hats].
      repeat split; [exact Himg | |].
      * rewrite length_app. cbn [length].
        pose proof (filter_drops_member hat (hats st)). intuition lia.
      * intros hat' Hin. apply in_app_iff in Hin as [Hin | [<- | []]].
        -- apply List.filter_In in Hin as [Hin _].
           eauto using sameOrFlipped_refl.
        -- exists hat. split; [tauto | apply sameOrFlipped_refl].
    + cbn. repeat split; [exact Himg | lia |].
      eauto using sameOrFlipped_refl.
Qed.

End PointerDownFrame.

(** ** Removing the selected hat *)

Section Deleting.

(** X9. Deleting with a selection removes every hat that carries the
    selected uid and no other, clears the selection and ends any gesture;
    deleting again changes nothing more. *)
Theorem deleteSelectedHat_removes (st : EditorState) (sel : string) :
  selectedHatId st = Some sel -> sel <> "" ->
  (forall h, In h (hats (deleteSelectedHat st))
             <-> In h (hats st) /\ hat_uid h <> sel)
  /\ selectedHatId (deleteSelectedHat st) = None
  /\ mode (deleteSelectedHat st) = NONE
  /\ image (deleteSelectedHat st) = image st
  /\ deleteSelectedHat (deleteSelectedHat st) = deleteSelectedHat st.
Proof.
  intros Hsel Hne.
  assert (Hdel : deleteSelectedHat st
                 = setMode NONE
                     (setSelectedHatId None
                        (setHats
                           (fun prev =>
                              List.filter
                                (fun h => negb (String.eqb (hat_uid h) sel))
                                prev)
                           st))).
  { unfold deleteSelectedHat. now rewrite Hsel, (truthy_some sel Hne). }
  rewrite Hdel.
  cbn [setMode setSelectedHatId setHats hats selectedHatId mode image].
  split; [| repeat split].
  intros h. rewrite List.filter_In, negb_true_iff.
  split; intros [Hin Huid]; (split; [exact Hin |]).
  - intros Heq. now rewrite Heq, String.eqb_refl in Huid.
  - now apply String.eqb_neq.
Qed.

End Deleting.

Lemma deleteSelectedHat_removes_witness :
  (forall h, In h (hats (deleteSelectedHat busyScene))
             <-> In h (hats busyScene) /\ hat_uid h <> hat_uid otherHat)
  /\ selectedHatId (deleteSelectedHat busyScene) = None
  /\ mode (deleteSelectedHat busyScene) = NONE
  /\ image (deleteSelectedHat busyScene) = image busyScene
  /\ deleteSelectedHat (deleteSelectedHat busyScene)
     = deleteSelectedHat busyScene.
Proof.
  apply (deleteSelectedHat_removes busyScene (hat_uid otherHat));
    [reflexivity | discriminate].
Defined.

(** ** Distinct uids *)

Section DistinctUids.

Ltac as_list_nodup :=
  unfold distinctUids in *; rewrite ?NoDup_ListNoDup in *.

Lemma uids_of_filter (p : PlacedHat -> bool) (l : list PlacedHat)
    (uid : string) :
  In uid (map hat_uid (List.filter p l)) -> In uid (map hat_uid l).
Proof.
  rewrite !in_map_iff. intros (h & Huid & Hin).
  apply List.filter_In in Hin as [Hin _]. eauto.
Qed.

Lemma distinct_filter (p : PlacedHat -> bool) (l : list PlacedHat) :
  List.NoDup (map hat_uid l) -> List.NoDup (map hat_uid (List.filter p l)).
Proof.
  induction l as [| h l IH]; [trivial |].
  cbn [map List.filter]. rewrite List.NoDup_cons_iff. intros [Hout Hrest].
  destruct (p h); [| auto].
  cbn [map]. apply List.NoDup_cons_iff.
  split; [| auto]. intros Hin. apply Hout. eapply uids_of_filter, Hin.
Qed.

Lemma distinct_snoc (l : list PlacedHat) (hat : PlacedHat) :
  List.NoDup (map hat_uid l) -> ~ In (hat_uid hat) (map hat_uid l) ->
  List.NoDup (map hat_uid (l ++ [hat])).
Proof.
  induction l as [| h l IH]; cbn [map app].
  - intros _ _. apply List.NoDup_cons_iff. split; [intros [] | constructor].
  - rewrite !List.NoDup_cons_iff. intros [Hout Hrest] Hfresh.
    split.
    + rewrite map_app, in_app_iff. cbn [map In]. intros [Hin | [Heq | []]].
      * now apply Hout.
      * apply Hfresh. now left.
    + apply IH; [exact Hrest |]. intros Hin. apply Hfresh. now right.
Qed.

Lemma distinct_map (f : PlacedHat -> PlacedHat) (l : list PlacedHat) :
  (forall h, hat_uid (f h) = hat_uid h) ->
  List.NoDup (map hat_uid l) -> List.NoDup (map hat_uid (map f l)).
Proof.
  intros Hf. rewrite map_map.
  now rewrite (map_ext (fun h => hat_uid (f h)) hat_uid Hf).
Qed.

Lemma uid_filtered_out (hat : PlacedHat) (l : list PlacedHat) :
  ~ In (hat_uid hat)
      (map hat_uid
         (List.filter
            (fun h => negb (String.eqb (hat_uid h) (hat_uid hat))) l)).
Proof.
  rewrite in_map_iff. intros (h & Huid & Hin).
  apply List.filter_In in Hin as [_ Hne].
  now rewrite Huid, String.eqb_refl in Hne.
Qed.

Lemma addHatEffect_distinct st hatToAdd decoded env :
  distinctUids st ->
  ~ In (newUid env) (map hat_uid (hats st)) ->
  distinctUids (addHatEffect st hatToAdd decoded env).
Proof.
  intros Hdistinct Hfresh. as_list_nodup. unfold addHatEffect.
  destruct (loadHatImage (loadedImages st) (h_src hatToAdd)) as [img | src].
  - destruct (addHat_shape st hatToAdd img env) as (hat & Hhats & Huid & _).
    rewrite Hhats.
    apply distinct_snoc; [exact Hdistinct | now rewrite Huid].
  - destruct decoded as [img |]; [| exact Hdistinct].
    destruct (addHat_shape (hatImageOnload src img st) hatToAdd img env)
      as (hat & Hhats & Huid & _).
    rewrite Hhats.
    apply distinct_snoc; [exact Hdistinct | now rewrite Huid].
Qed.

Lemma processFile_distinct st file :
  distinctUids st -> distinctUids (processFile st file).
Proof.
  intros Hdistinct. as_list_nodup. unfold processFile.
  destruct (negb _); [exact Hdistinct |].
  destruct (file_decoded file); [constructor | exact Hdistinct].
Qed.

Lemma handleMouseDown_distinct st e :
  distinctUids st -> distinctUids (handleMouseDown st e).
Proof.
  intros Hdistinct. as_list_nodup. unfold handleMouseDown.
  destruct (image st); [| exact Hdistinct]. cbv zeta.
  destruct (checkControls st _ _ _) as [st' |] eqn:Hcontrols.
  - apply checkControls_cases in Hcontrols as [-> | [(hat & m & ->) | ->]].
    + destruct (deleteSelectedHat_hats st) as [p Hp].
      rewrite Hp. now apply distinct_filter.
    + exact Hdistinct.
    + unfold toggleMirror. destruct (selectedHatId st) as [sel |];
        [| exact Hdistinct].
      apply distinct_map; [| exact Hdistinct].
      intros h. now destruct (String.eqb (hat_uid h) sel).
  - destruct (hitScan _ _ _ _ _) as [hat |]; [| exact Hdistinct].
    cbn [setStartInteraction setMode setHats setSelectedHatId hats].
    apply distinct_snoc; [now apply distinct_filter |].
    apply uid_filtered_out.
Qed.

Lemma handleMouseMove_distinct st e :
  distinctUids st -> distinctUids (handleMouseMove st e).
Proof.
  intros Hdistinct. as_list_nodup. unfold handleMouseMove.
  destruct (mode st), (selectedHatId st) as [sel |]; try exact Hdistinct;
    (destruct (negb (truthy (Some sel))); [exact Hdistinct |]);
    (apply distinct_map; [| exact Hdistinct]);
    intros h; destruct (negb (String.eqb (hat_uid h) sel));
    auto using moveHat_uid.
Qed.

(** X10. As long as every added hat gets a uid that no hat of the scene
    carries at that moment, the uids of the scene stay pairwise distinct
    whatever else happens: no handler copies a hat or changes a uid. *)
Theorem uids_stay_distinct (evs : list Event) (st : EditorState) :
  distinctUids st -> freshAdds st evs -> distinctUids (run st evs).
Proof.
  revert st. induction evs as [| ev evs IH]; intros st Hdistinct Hfresh;
    [exact Hdistinct |].
  destruct Hfresh as [Hev Hrest].
  change (run st (ev :: evs)) with (run (step st ev) evs).
  apply IH; [| exact Hrest].
  destruct ev; cbn [step];
    auto using processFile_distinct, handleMouseDown_distinct,
      handleMouseMove_distinct, addHatEffect_distinct.
  unfold handleDrop. destruct files; [exact Hdistinct |].
  now apply processFile_distinct.
Qed.

End DistinctUids.

Lemma uids_stay_distinct_witness :
  distinctUids
    (run initialState
       [ EvAddHat sampleOverlay (Some sampleRaster) sampleAddEnv;
         EvPointerDown (pointerAt 400 300);
         EvAddHat sampleOverlay None laterAddEnv ]).
Proof.
  apply uids_stay_distinct.
  - constructor.
  - cbn [freshAdds]. split; [intros [] |]. split; [exact I |].
    split; [| exact I].
    vm_compute. intros [Heq | []]. discriminate Heq.
Defined.

(** ** The background over a session *)

Section Background.

Lemma processFile_cases (st : EditorState) (file : File) :
  processFile st file = st
  \/ is_Some (image (processFile st file))
     /\ hats (processFile st file) = []
     /\ selectedHatId (processFile st file) = None.
Proof.
  unfold processFile. destruct (negb _); [now left |].
  destruct (file_decoded file) as [img |]; [| now left].
  right. cbn. eauto.
Qed.

(** X11. The background is never taken away, and it changes only when
    an image file is accepted: an event either leaves the background as
    it is, or leaves a background in place together with an empty scene
    and no selection. *)
Theorem background_changes_reset_scene (st : EditorState) (ev : Event) :
  image (step st ev) = image st
  \/ is_Some (image (step st ev))
     /\ hats (step st ev) = []
     /\ selectedHatId (step st ev) = None.
Proof.
  destruct ev; cbn [step];
    auto using addHatEffect_image, handleMouseDown_image,
      handleMouseMove_image.
  - destruct (processFile_cases st file) as [-> | Hreset]; auto.
  - unfold handleDrop. destruct files as [| file rest]; [now left |].
    destruct (processFile_cases (setIsDragging false st) file)
      as [-> | Hreset]; auto.
Qed.

End Background.

(** ** The raster cache over a session *)

Section CacheOverSession.

Lemma processFile_loadedImages st file :
  loadedImages (processFile st file) = loadedImages st.
Proof. unfold processFile. handler_cases; reflexivity. Qed.

Lemma addHat_loadedImages st hatToAdd img env :
  loadedImages (addHat st hatToAdd img env) = loadedImages st.
Proof. unfold addHat. handler_cases; reflexivity. Qed.

Lemma handleMouseDown_loadedImages st e :
  loadedImages (handleMouseDown st e) = loadedImages st.
Proof.
  unfold handleMouseDown. destruct (image st); [| reflexivity]. cbv zeta.
  destruct (checkControls st _ _ _) as [st' |] eqn:Hcontrols.
  - exact (proj1 (checkControls_loadedImages _ _ _ _ _ Hcontrols)).
  - now destruct (hitScan _ _ _ _ _).
Qed.

Lemma handleMouseMove_loadedImages st e :
  loadedImages (handleMouseMove st e) = loadedImages st.
Proof. unfold handleMouseMove. handler_cases; reflexivity. Qed.

Lemma step_cache_grows (st : EditorState) (ev : Event) :
  loadedImages st ⊆ loadedImages (step st ev).
Proof.
  destruct ev; cbn [step]; try reflexivity.
  - now rewrite processFile_loadedImages.
  - unfold handleDrop. destruct files; [reflexivity |].
    now rewrite processFile_loadedImages.
  - unfold addHatEffect, loadHatImage.
    destruct (loadedImages st !! h_src hatToAdd) as [img |] eqn:Hsrc.
    + now rewrite addHat_loadedImages.
    + destruct decoded as [img |]; [| reflexivity].
      rewrite addHat_loadedImages. cbn. now apply insert_subseteq.
  - now rewrite handleMouseDown_loadedImages.
  - now rewrite handleMouseMove_loadedImages.
Qed.

(** X12. The raster cache only grows: whatever happens in a session,
    a path that is in the cache stays there with the raster it has, also
    when the background is replaced and the scene emptied. *)
Theorem cache_only_grows (evs : list Event) (st : EditorState) :
  loadedImages st ⊆ loadedImages (run st evs).
Proof.
  revert st. induction evs as [| ev evs IH]; intros st; [reflexivity |].
  change (run st (ev :: evs)) with (run (step st ev) evs).
  etransitivity; [apply step_cache_grows | apply IH].
Qed.

End CacheOverSession.

(** ** What the canvas shows *)

Section Drawing.

Lemma drawn_all (loaded : gmap string Image) (l : list PlacedHat) :
  (forall hat, In hat l -> is_Some (loaded !! hat_src hat)) ->
  map fst
    (omap (fun hat =>
             match loaded !! hat_src hat with
             | Some img => Some (hat, img)
             | None => None
             end) l)
  = l.
Proof.
  induction l as [| hat l IH]; [reflexivity |].
  intros Hloaded. cbn [omap list_omap].
  destruct (Hloaded hat (or_introl eq_refl)) as [img ->].
  cbn [map fst]. f_equal. apply IH. intros h Hin. apply Hloaded. now right.
Qed.

Lemma drawn_pairs (loaded : gmap string Image) (l : list PlacedHat)
    (hat : PlacedHat) (img : Image) :
  In (hat, img)
    (omap (fun hat =>
             match loaded !! hat_src hat with
             | Some img => Some (hat, img)
             | None => None
             end) l) ->
  In hat l /\ loaded !! hat_src hat = Some img.
Proof.
  induction l as [| h l IH]; [intros [] |].
  cbn [omap list_omap].
  destruct (loaded !! hat_src h) as [i |] eqn:Hsrc.
  - intros [[= <- <-] | Hin]; [split; [now left | exact Hsrc] |].
    destruct (IH Hin). split; [now right | assumption].
  - intros Hin. destruct (IH Hin). split; [now right | assumption].
Qed.

(** X13. In every state the editor can reach, a draw paints all the
    placed hats, in the order of the list and each with the raster the
    cache holds for its path; the controls are painted exactly when they
    are asked for, a background is loaded and a hat is selected. *)
Theorem draw_reachable (st : EditorState) (showControls : bool) :
  reachable st ->
  map fst (f_hats (draw st showControls)) = hats st
  /\ (forall hat img, In (hat, img) (f_hats (draw st showControls)) ->
        loadedImages st !! hat_src hat = Some img)
  /\ (is_Some (f_controls (draw st showControls))
      <-> showControls = true
          /\ is_Some (image st) /\ is_Some (selectedHatId st)).
Proof.
  intros Hreach. unfold draw, drawnHats. cbn [f_hats f_controls].
  split; [apply drawn_all, (reachable_rastersLoaded st Hreach) |].
  split; [intros hat img Hin; now apply drawn_pairs in Hin |].
  unfold drawnControls. split.
  - intros Hsome.
    destruct (image st); [| now destruct Hsome].
    destruct (selectedHatId st) as [sel |]; [| now destruct Hsome].
    destruct showControls; [eauto |].
    cbn [andb] in Hsome. now destruct Hsome.
  - intros (-> & [bg Himg] & [sel Hsel]). rewrite Himg, Hsel.
    destruct (reachable_controlTarget st sel Hreach Hsel)
      as (hat & c & Htarget & _).
    destruct (controlTarget_some _ _ _ Htarget)
      as (sel' & Hsel' & Htruthy & Hfind & Hc).
    rewrite Hsel in Hsel'. injection Hsel' as <-.
    rewrite Htruthy, Hfind, Hc. cbn [andb]. eauto.
Qed.

End Drawing.

Lemma draw_reachable_witness :
  map fst (f_hats (draw (run initialState pressSession) true))
  = hats (run initialState pressSession)
  /\ (forall hat img,
        In (hat, img) (f_hats (draw (run initialState pressSession) true)) ->
        loadedImages (run initialState pressSession) !! hat_src hat
        = Some img)
  /\ (is_Some (f_controls (draw (run initialState pressSession) true))
      <-> true = true
          /\ is_Some (image (run initialState pressSession))
          /\ is_Some (selectedHatId (run initialState pressSession))).
Proof.
  apply (draw_reachable (run initialState pressSession) true).
  apply run_reachable, reachable_init.
Defined.

(** ** Adding a hat *)

Section AddingHats.

Lemma addHatThen_shape (r : EffectRun) (img : Image) (env : AddEnv)
    (st : EditorState) :
  exists x y k : number,
    addHatThen r img env st
    = {| image := image st;
         hats :=
           hats st
           ++ [ {| hat_id := h_id (requested r);
                   hat_name := h_name (requested r);
                   hat_src := h_src (requested r);
                   hat_uid := newUid env;
                   hat_x := x;
                   hat_y := y;
                   hat_scale := k;
                   hat_rotation := Fin 0;
                   hat_isMirrored := false |} ];
         selectedHatId := Some (newUid env);
         loadedImages := loadedImages st;
         isDragging := isDragging st;
         mode := mode st;
         startInteraction := startInteraction st |}.
Proof.
  unfold addHatThen.
  destruct (match seenImage r with Some _ => _ | None => _ end)
    as [[k x] y].
  now exists x, y, k.
Qed.

Lemma resolveEffect_length (r : EffectRun) (decoded : option Image)
    (env : AddEnv) (st : EditorState) (img : Image) :
  runYields r decoded img ->
  exists newHat, hats (resolveEffect r decoded env st) = hats st ++ [newHat].
Proof.
  intros Hyields. unfold resolveEffect, loadHatImage.
  destruct Hyields as [-> | [-> ->]].
  - destruct (addHatThen_shape r img env st) as (x & y & k & ->).
    cbn [hats]. eauto.
  - destruct (addHatThen_shape r img env
                (hatImageOnload (h_src (requested r)) img st))
      as (x & y & k & ->).
    cbn [hats hatImageOnload setLoadedImages]. eauto.
Qed.

(** X14. One run of the add-hat effect either changes nothing, which
    happens only when the raster was not cached in the render that
    started the run and fails to decode, or appends exactly one hat on
    top of the hats the scene has when the promise resolves, and selects
    it: the new hat carries the catalogue entry and the new uid, is
    upright and not mirrored; a decoded raster is stored in the cache;
    the background, the gesture and the drop highlight are as before.
    Every run adds its own hat: runs that all get their raster append as
    many hats as there are runs, so a request whose effect ran more than
    once adds more than one hat.  A run that resolves in the render that
    started it is [addHatEffect]. *)
Theorem resolveEffect_appends_or_nothing :
  (forall (r : EffectRun) (decoded : option Image) (env : AddEnv)
          (st : EditorState),
     (seenLoaded r !! h_src (requested r) = None
      /\ decoded = None
      /\ resolveEffect r decoded env st = st)
     \/ exists (img : Image) (x y k : number),
          runYields r decoded img
          /\ resolveEffect r decoded env st
             = {| image := image st;
                  hats :=
                    hats st
                    ++ [ {| hat_id := h_id (requested r);
                            hat_name := h_name (requested r);
                            hat_src := h_src (requested r);
                            hat_uid := newUid env;
                            hat_x := x;
                            hat_y := y;
                            hat_scale := k;
                            hat_rotation := Fin 0;
                            hat_isMirrored := false |} ];
                  selectedHatId := Some (newUid env);
                  loadedImages :=
                    match seenLoaded r !! h_src (requested r) with
                    | Some _ => loadedImages st
                    | None => <[h_src (requested r) := img]> (loadedImages st)
                    end;
                  isDragging := isDragging st;
                  mode := mode st;
                  startInteraction := startInteraction st |})
  /\ (forall (runs : list (EffectRun * option Image * AddEnv))
             (st : EditorState),
        (forall run, In run runs ->
           exists img, runYields (fst (fst run)) (snd (fst run)) img) ->
        exists added : list PlacedHat,
          hats (resolveAll st runs) = hats st ++ added
          /\ length added = length runs)
  /\ (forall (st : EditorState) (hatToAdd : Hat) (decoded : option Image)
             (env : AddEnv),
        addHatEffect st hatToAdd decoded env
        = resolveEffect (startEffect st hatToAdd) decoded env st).
Proof.
  split; [| split].
  - intros r decoded env st. unfold resolveEffect, loadHatImage, runYields.
    destruct (seenLoaded r !! h_src (requested r)) as [img |] eqn:Hsrc.
    + right. destruct (addHatThen_shape r img env st) as (x & y & k & ->).
      exists img, x, y, k. auto.
    + destruct decoded as [img |]; [right | left; auto].
      destruct (addHatThen_shape r img env
                  (hatImageOnload (h_src (requested r)) img st))
        as (x & y & k & ->).
      exists img, x, y, k. split; [auto |]. reflexivity.
  - intros runs. induction runs as [| [[r decoded] env] runs IH];
      intros st Hyield.
    + exists []. now rewrite app_nil_r.
    + unfold resolveAll. cbn [fold_left].
      destruct (Hyield (r, decoded, env) (or_introl eq_refl))
        as [img Himg]. cbn [fst snd] in Himg.
      destruct (resolveEffect_length r decoded env st img Himg)
        as [newHat Hone].
      destruct (IH (resolveEffect r decoded env st)) as (added & Hrest & Hlen).
      { intros run Hin. apply Hyield. now right. }
      exists (newHat :: added). unfold resolveAll in Hrest.
      rewrite Hrest, Hone, <- app_assoc. cbn [app length].
      split; [reflexivity | now rewrite Hlen].
  - intros st hatToAdd decoded env.
    unfold addHatEffect, resolveEffect, startEffect. cbn [seenLoaded requested].
    destruct (loadHatImage _ _); [reflexivity |].
    now destruct decoded.
Qed.

End AddingHats.

Lemma resolveEffect_appends_or_nothing_witness :
  exists added : list PlacedHat,
    hats (resolveAll sceneWithSmallBackground
            [ (startEffect initialState sampleOverlay, Some sampleRaster,
               sampleAddEnv);
              (startEffect sceneWithSmallBackground sampleOverlay,
               Some sampleRaster, laterAddEnv) ])
    = hats sceneWithSmallBackground ++ added
    /\ length added
       = length
           [ (startEffect initialState sampleOverlay, Some sampleRaster,
              sampleAddEnv);
             (startEffect sceneWithSmallBackground sampleOverlay,
              Some sampleRaster, laterAddEnv) ].
Proof.
  destruct resolveEffect_appends_or_nothing as (_ & Hruns & _).
  apply Hruns. intros run [<- | [<- | []]]; exists sampleRaster; now right.
Defined.

(** ** The size of the canvas and of a new hat *)

Section CanvasSize.

Lemma ofN_positive (n : N) : n <> 0%N -> (0 < IZR (Z.of_N n))%R.
Proof. intros Hn. apply IZR_lt. lia. Qed.

Lemma getRenderDimensions_fin (img : Image) :
  img_width img <> 0%N ->
  let w := IZR (Z.of_N (img_width img)) in
  let h := IZR (Z.of_N (img_height img)) in
  getRenderDimensions img
  = {| dim_width := Fin (Rmax w 2048);
       dim_height := Fin (h * (Rmax w 2048 / w)) |}.
Proof.
  intros Hpos%ofN_positive w h. fold w in Hpos.
  destruct (Rle_dec 2048 w) as [Hbig | Hsmall].
  - rewrite getRenderDimensions_native by exact Hbig.
    rewrite Rmax_left by exact Hbig. unfold JS.ofN. fold w h.
    do 2 f_equal. field. lra.
  - unfold getRenderDimensions, JS.geb, MIN_CANVAS_WIDTH, JS.ofN. fold w h.
    assert (Hlt : (w < 2048)%R) by lra.
    apply leb_fin_false in Hlt as Hbranch. rewrite Hbranch.
    rewrite Rmax_right by lra. rewrite div_fin by lra. reflexivity.
Qed.


End CanvasSize.

Section NewHatPlacement.

Import PrimFloat.
#[local] Set Warnings "-inexact-float".

(** X16. The callback of an add-hat run places the hat from what the
    run saw when it started.  When it saw a background of positive width
    the hat is sized to the canvas of that background, not to its
    raster: in exact arithmetic its scale is positive and makes it as
    wide as 35% of that canvas; when the run saw no hat it is centred
    horizontally, a third of the way down, and otherwise it is moved from
    there by less than 20 pixels each way, for random numbers in [0, 1).
    When the run saw no background the hat gets (400, 300) and scale 1,
    whatever background the scene has by the time the hat arrives.  In
    doubles the scale is the rounded quotient: on a 2048 canvas a raster
    100 wide gets 7.167999999999999, not 7.168. *)
Theorem addHatThen_fits_canvas (r : EffectRun) (st : EditorState)
    (img : Image) (env : AddEnv) :
  (forall bg : Image,
     seenImage r = Some bg ->
     img_width bg <> 0%N -> img_width img <> 0%N ->
     exists (cvsW cvsH k : R) (newHat : PlacedHat),
       getRenderDimensions bg
       = {| dim_width := Fin cvsW; dim_height := Fin cvsH |}
       /\ hats (addHatThen r img env st) = hats st ++ [newHat]
       /\ hat_scale newHat = Fin k
       /\ (0 < k)%R
       /\ (IZR (Z.of_N (img_width img)) * k = 0.35 * cvsW)%R
       /\ (seenHats r = [] ->
           hat_x newHat = Fin (cvsW / 2) /\ hat_y newHat = Fin (cvsH / 3))
       /\ (forall rx ry : R,
             seenHats r <> [] ->
             randomX env = Fin rx -> randomY env = Fin ry ->
             (0 <= rx < 1)%R -> (0 <= ry < 1)%R ->
             exists x y : R,
               hat_x newHat = Fin x /\ hat_y newHat = Fin y
               /\ (-20 <= x - cvsW / 2 < 20)%R
               /\ (-20 <= y - cvsH / 3 < 20)%R))
  /\ (seenImage r = None ->
      hats (addHatThen r img env st)
      = hats st
        ++ [ {| hat_id := h_id (requested r);
                hat_name := h_name (requested r);
                hat_src := h_src (requested r);
                hat_uid := newUid env;
                hat_x := Fin 400;
                hat_y := Fin 300;
                hat_scale := Fin 1;
                hat_rotation := Fin 0;
                hat_isMirrored := false |} ])
  /\ (forall hatToAdd : Hat,
        addHat st hatToAdd img env
        = addHatThen (startEffect st hatToAdd) img env st)
  /\ Float64.fittedScale 2048 100 = 7.167999999999999%float
  /\ PrimFloat.eqb (Float64.fittedScale 2048 100) 7.168 = false.
Proof.
  split; [| split; [| split; [reflexivity |]]].
  - intros bg Himg Hbg Hraster.
    pose proof (getRenderDimensions_fin bg Hbg) as Hdim. cbv zeta in Hdim.
    pose proof (ofN_positive _ Hbg) as Hbgw.
    pose proof (ofN_positive _ Hraster) as Hiw.
    set (w := IZR (Z.of_N (img_width bg))) in *.
    set (h := IZR (Z.of_N (img_height bg))) in *.
    set (iw := IZR (Z.of_N (img_width img))) in *.
    set (cvsW := Rmax w 2048) in *.
    assert (HcvsW : (2048 <= cvsW)%R) by apply Rmax_r.
    exists cvsW, (h * (cvsW / w))%R, (cvsW * 0.35 / iw)%R.
    unfold addHatThen. rewrite Himg, Hdim. cbn [dim_width dim_height].
    unfold JS.ofN. fold iw. cbn [JS.mul]. rewrite !div_fin by lra.
    destruct (seenHats r) as [| first rest] eqn:Hhats.
    + cbn [length Nat.ltb Nat.leb].
      eexists.
      cbn [setSelectedHatId setHats hats].
      split; [reflexivity |]. split; [reflexivity |].
      cbn [hat_scale hat_x hat_y].
      split; [reflexivity |].
      split; [apply Rdiv_lt_0_compat; lra |].
      split; [field; lra |].
      split; [auto |]. intros rx ry Hne. now destruct Hne.
    + cbn [length Nat.ltb Nat.leb].
      eexists.
      cbn [setSelectedHatId setHats hats].
      split; [reflexivity |]. split; [reflexivity |].
      cbn [hat_scale hat_x hat_y].
      split; [reflexivity |].
      split; [apply Rdiv_lt_0_compat; lra |].
      split; [field; lra |].
      split; [discriminate |].
      intros rx ry _ -> -> Hrx Hry.
      cbn [JS.sub JS.neg JS.add JS.mul].
      eexists _, _. split; [reflexivity |]. split; [reflexivity |]. lra.
  - intros Hnone. unfold addHatThen. now rewrite Hnone.
  - split; vm_compute; reflexivity.
Qed.

End NewHatPlacement.

Lemma addHatThen_fits_canvas_witness :
  hats (addHatThen (startEffect initialState sampleOverlay) sampleRaster
          sampleAddEnv selectedScene)
  = hats selectedScene
    ++ [ {| hat_id := "hat-1"; hat_name := "1"; hat_src := "/hats/1.png";
            hat_uid := newUid sampleAddEnv;
            hat_x := Fin 400; hat_y := Fin 300; hat_scale := Fin 1;
            hat_rotation := Fin 0; hat_isMirrored := false |} ]
  /\ exists (cvsW cvsH k : R) (newHat : PlacedHat),
       getRenderDimensions smallBackground
       = {| dim_width := Fin cvsW; dim_height := Fin cvsH |}
       /\ hats (addHatThen (startEffect selectedScene sampleOverlay)
                  sampleRaster sampleAddEnv selectedScene)
          = hats selectedScene ++ [newHat]
       /\ hat_scale newHat = Fin k
       /\ (0 < k)%R
       /\ (IZR (Z.of_N (img_width sampleRaster)) * k = 0.35 * cvsW)%R.
Proof.
  split.
  - destruct (addHatThen_fits_canvas (startEffect initialState sampleOverlay)
                selectedScene sampleRaster sampleAddEnv)
      as (_ & Hdefault & _).
    now apply Hdefault.
  - destruct (addHatThen_fits_canvas (startEffect selectedScene sampleOverlay)
                selectedScene sampleRaster sampleAddEnv)
      as (Hfit & _).
    destruct (Hfit smallBackground eq_refl) as (cvsW & cvsH & k & newHat & H);
      [discriminate | discriminate |].
    exists cvsW, cvsH, k, newHat. tauto.
Defined.

(** ** Files from the file input, a drop and the clipboard *)

Section FileIntake.

Lemma pasteScan_skips (st : EditorState) (before rest : list ClipboardEntry) :
  forallb pasteSkips before = true ->
  pasteScan st (before ++ rest) = pasteScan st rest.
Proof.
  induction before as [| item before IH]; [reflexivity |].
  cbn [forallb app pasteScan]. intros [Hskip Hrest]%andb_true_iff.
  unfold pasteSkips in Hskip.
  destruct (mentionsImage (item_type item)); [| now apply IH].
  destruct (item_file item); [discriminate | now apply IH].
Qed.

(** X17. A paste loads at most one file: the first clipboard item whose
    type mentions an image and that yields a file; the items before it
    are passed over and those after it are never looked at.  The default
    paste is prevented exactly when such an item exists, also when the
    file is then refused, as for a vendor type that is not an image
    type.  A paste without usable item changes nothing. *)
Theorem handlePaste_takes_first_image (st : EditorState) :
  handlePaste st None = (st, false)
  /\ (forall items,
        forallb pasteSkips items = true ->
        handlePaste st (Some items) = (st, false))
  /\ (forall before item file after,
        forallb pasteSkips before = true ->
        mentionsImage (item_type item) = true ->
        item_file item = Some file ->
        handlePaste st (Some (before ++ item :: after))
        = (processFile st file, true))
  /\ handlePaste st (Some [textEntry; vendorEntry; imageEntry]) = (st, true)
  /\ (forall items, reachable st -> reachable (fst (handlePaste st items))).
Proof.
  split; [reflexivity |]. split; [| split; [| split]].
  - intros items Hskips. cbn [handlePaste].
    rewrite <- (app_nil_r items). now rewrite pasteScan_skips.
  - intros before item file after Hskips Htype Hfile. cbn [handlePaste].
    rewrite pasteScan_skips by exact Hskips.
    cbn [pasteScan]. now rewrite Htype, Hfile.
  - reflexivity.
  - intros [items |] Hreach; [| exact Hreach]. cbn [handlePaste].
    induction items as [| item items IH]; [exact Hreach |].
    cbn [pasteScan]. destruct (mentionsImage (item_type item)); [| exact IH].
    destruct (item_file item) as [file |]; [| exact IH].
    exact (reachable_step st (EvLoadFile file) Hreach).
Qed.

(** X18. A drop is an upload that also clears the drop highlight: the
    scene afterwards is the one the file input gives for the same files,
    the highlight is off whether or not a file was accepted, and of
    several files only the first is used, by the file input as by a
    drop. *)
Theorem handleDrop_is_upload (st : EditorState) (files : list File) :
  handleDrop st files = setIsDragging false (handleImageUpload st files)
  /\ isDragging (handleDrop st files) = false
  /\ handleDrop st files = handleDrop st (firstn 1 files)
  /\ handleImageUpload st files = handleImageUpload st (firstn 1 files)
  /\ handleDrop (handleDragOver st) files = handleDrop st files.
Proof.
  assert (Hcommute : forall file,
            processFile (setIsDragging false st) file
            = setIsDragging false (processFile st file)).
  { intros file. unfold processFile.
    destruct (negb _); [reflexivity |].
    now destruct (file_decoded file). }
  unfold handleDrop, handleImageUpload, handleDragOver.
  change (setIsDragging false (setIsDragging true st))
    with (setIsDragging false st).
  destruct files as [| file rest]; cbn [firstn].
  - repeat (split; [reflexivity |]). reflexivity.
  - rewrite Hcommute. repeat (split; [reflexivity |]). reflexivity.
Qed.

End FileIntake.

(** ** The catalogue of hats *)

Section Catalogue.

Lemma string_length_app (s t : string) :
  String.length (s +:+ t) = (String.length s + String.length t)%nat.
Proof.
  induction s as [| a s IH]; [reflexivity |].
  change (S (String.length (s +:+ t))
          = S (String.length s + String.length t)%nat).
  now rewrite IH.
Qed.

Lemma string_app_inj_r (s1 s2 t : string) : s1 +:+ t = s2 +:+ t -> s1 = s2.
Proof.
  revert s2. induction s1 as [| a s1 IH]; intros [| b s2] Heq.
  - reflexivity.
  - apply (f_equal String.length) in Heq.
    rewrite !string_length_app in Heq. cbn [String.length] in Heq. lia.
  - apply (f_equal String.length) in Heq.
    rewrite !string_length_app in Heq. cbn [String.length] in Heq. lia.
  - injection Heq as -> Heq. f_equal. now apply IH.
Qed.

Lemma staticHat_id_inj (i j : nat) :
  h_id (staticHat i) = h_id (staticHat j) -> i = j.
Proof.
  cbn [staticHat h_id]. intros Heq%String.app_inj%pretty_nat_inj. lia.
Qed.

Lemma staticHat_src_inj (i j : nat) :
  h_src (staticHat i) = h_src (staticHat j) -> i = j.
Proof.
  cbn [staticHat h_src].
  intros Heq%String.app_inj%string_app_inj_r%pretty_nat_inj. lia.
Qed.

Lemma NoDup_map_seq {A : Type} (f : nat -> A) (start len : nat) :
  (forall i j, f i = f j -> i = j) ->
  List.NoDup (map f (seq start len)).
Proof.
  intros Hinj. revert start. induction len as [| len IH]; intros start.
  - constructor.
  - cbn [seq map]. constructor; [| apply IH].
    rewrite in_map_iff. intros (j & Heq & Hin).
    apply Hinj in Heq. apply in_seq in Hin. lia.
Qed.

(** X19. The static catalogue has as many entries as its count says,
    numbered from 1, and no two of them share an id or an image path,
    whatever the count is set to; with the count of the repository it
    has 15 entries, the last of them for [/hats/15.png]. *)
Theorem staticHats_distinct (count : nat) :
  length (staticHats count) = count
  /\ List.NoDup (map h_id (staticHats count))
  /\ List.NoDup (map h_src (staticHats count))
  /\ (forall i, (i < count)%nat ->
        nth_error (staticHats count) i = Some (staticHat i)
        /\ h_src (staticHat i) = "/hats/" +:+ pretty (S i) +:+ ".png")
  /\ length STATIC_HATS = 15%nat
  /\ last (map h_src STATIC_HATS) = Some "/hats/15.png".
Proof.
  unfold staticHats.
  split; [now rewrite length_map, length_seq |].
  split; [rewrite map_map; apply NoDup_map_seq, staticHat_id_inj |].
  split; [rewrite map_map; apply NoDup_map_seq, staticHat_src_inj |].
  split; [| split; reflexivity].
  intros i Hi. split.
  - rewrite nth_error_map, nth_error_seq.
    apply Nat.ltb_lt in Hi. now rewrite Hi.
  - cbn [staticHat h_src]. now rewrite Nat.add_1_r.
Qed.

End Catalogue.

(** ** The greeting service *)

Section Greeting.

Lemma nonEmpty_true (s : string) : s <> "" -> nonEmpty s = true.
Proof.
  intros Hne. unfold nonEmpty. apply negb_true_iff. now apply String.eqb_neq.
Qed.

Lemma nonEmpty_false (s : string) : nonEmpty s = false -> s = "".
Proof.
  unfold nonEmpty. intros Heq%negb_false_iff. now apply String.eqb_eq.
Qed.

Lemma greeting_with_key (key : string) (outcome : ApiOutcome) :
  key <> "" ->
  generateChristmasGreeting (Some key) outcome
  = match outcome with
    | ApiResponds text => orElse text "圣诞快乐，喜乐长安！🎄"
    | ApiThrows => "圣诞快乐，愿你拥有美好的一年！🎁"
    end.
Proof.
  intros Hne%nonEmpty_true. unfold generateChristmasGreeting.
  cbn [orElse]. rewrite Hne, Hne. reflexivity.
Qed.

Lemma greeting_without_key (API_KEY : option string) (outcome : ApiOutcome) :
  API_KEY = None \/ API_KEY = Some "" ->
  generateChristmasGreeting API_KEY outcome = "请配置 API_KEY 以生成祝福语！".
Proof. now intros [-> | ->]. Qed.

(** X20. The greeting service always answers with a sentence: whatever
    the key and whatever the call does, the result is not the empty
    string.  Without a key (unset or empty) the call's outcome plays no
    part; with a key, an answer with a non-empty text is passed on as it
    is, and an empty or missing text and a failed call each give their
    own fixed sentence. *)
Theorem generateChristmasGreeting_never_empty (API_KEY : option string)
    (outcome : ApiOutcome) :
  generateChristmasGreeting API_KEY outcome <> ""
  /\ (API_KEY = None \/ API_KEY = Some "" ->
      generateChristmasGreeting API_KEY outcome
      = generateChristmasGreeting None ApiThrows)
  /\ (forall key text,
        API_KEY = Some key -> key <> "" -> text <> "" ->
        outcome = ApiResponds (Some text) ->
        generateChristmasGreeting API_KEY outcome = text)
  /\ (forall key,
        API_KEY = Some key -> key <> "" ->
        outcome = ApiResponds None \/ outcome = ApiResponds (Some "") ->
        generateChristmasGreeting API_KEY outcome
        = generateChristmasGreeting API_KEY (ApiResponds None)
        /\ generateChristmasGreeting API_KEY outcome
           <> generateChristmasGreeting API_KEY ApiThrows).
Proof.
  split; [| split; [| split]].
  - destruct API_KEY as [key |];
      [| now rewrite greeting_without_key by auto].
    destruct (nonEmpty key) eqn:Hkey.
    + rewrite greeting_with_key by (intros ->; discriminate).
      destruct outcome as [| [text |]]; try discriminate.
      cbn [orElse]. destruct (nonEmpty text) eqn:Htext; [| discriminate].
      intros ->. discriminate.
    + apply nonEmpty_false in Hkey as ->.
      now rewrite greeting_without_key by auto.
  - intros Hkey. now rewrite !greeting_without_key by auto.
  - intros key text -> Hne Htext ->.
    rewrite greeting_with_key by exact Hne.
    cbn [orElse]. now rewrite (nonEmpty_true text Htext).
  - intros key -> Hne Hout. rewrite !greeting_with_key by exact Hne.
    destruct Hout as [-> | ->]; split; try reflexivity; discriminate.
Qed.

End Greeting.

(** ** Discovery of the hat images *)

Section Discovery.

Local Open Scope nat_scope.

Variable loads : nat -> bool.
Variable seenBy : nat -> nat.

Lemma loadNextImage_fuel (fuel1 fuel2 start : nat) :
  S maxIndex <= start + fuel1 -> S maxIndex <= start + fuel2 ->
  loadNextImage loads seenBy fuel1 start
  = loadNextImage loads seenBy fuel2 start.
Proof.
  revert fuel2 start.
  induction fuel1 as [| fuel1 IH]; intros fuel2 start H1 H2.
  - destruct fuel2 as [| fuel2]; [reflexivity |]. cbn [loadNextImage].
    destruct (maxIndex <? start) eqn:Hstop; [reflexivity |].
    apply Nat.ltb_ge in Hstop. unfold maxIndex in *. lia.
  - destruct fuel2 as [| fuel2]; cbn [loadNextImage].
    + destruct (maxIndex <? start) eqn:Hstop; [reflexivity |].
      apply Nat.ltb_ge in Hstop. unfold maxIndex in *. lia.
    + destruct (maxIndex <? start); [reflexivity |].
      destruct (loads start); [| reflexivity].
      f_equal. apply IH; lia.
Qed.

Lemma loadNextImage_prefix (fuel start : nat) :
  let found := loadNextImage loads seenBy fuel start in
  let k := length found in
  start <= S maxIndex ->
  start + k <= S maxIndex
  /\ map h_src found = map localSrc (seq start k)
  /\ map h_id found
     = map (fun i => "local-" +:+ pretty (seenBy i)) (seq start k)
  /\ (forall i, start <= i < start + k -> loads i = true)
  /\ (S maxIndex <= start + fuel -> start + k <= maxIndex ->
      loads (start + k) = false).
Proof.
  revert start. induction fuel as [| fuel IH]; intros start; cbv zeta;
    cbn [loadNextImage].
  - intros Hstart. cbn [length map seq].
    repeat split; lia.
  - intros Hstart.
    destruct (maxIndex <? start) eqn:Hstop.
    + apply Nat.ltb_lt in Hstop. cbn [length map seq].
      repeat split; try lia.
    + apply Nat.ltb_ge in Hstop.
      destruct (loads start) eqn:Hload.
      * specialize (IH (S start)). cbv zeta in IH.
        destruct IH as (Hbound & Hsrc & Hid & Hall & Hnext); [lia |].
        cbn [length map seq localHat h_src h_id].
        rewrite Hsrc, Hid.
        split; [lia |]. split; [reflexivity |]. split; [reflexivity |].
        split.
        -- intros i Hi. destruct (Nat.eq_dec i start) as [-> | Hne];
             [exact Hload | apply Hall; lia].
        -- intros Hfuel Hk.
           replace (start + S (length (loadNextImage loads seenBy fuel
                                         (S start))))
             with (S start + length (loadNextImage loads seenBy fuel
                                       (S start))) by lia.
           apply Hnext; lia.
      * cbn [length map seq]. repeat split; try lia.
        intros _ _. now rewrite Nat.add_0_r.
Qed.

(** X21. The hat selector that probes for images finds the longest run
    [./hats/1.png], [./hats/2.png], ... of images that load, and at most
    50 of them: every listed image loads, the list stops at the first
    one that does not, so that a gap in the numbering hides all the
    images after it, and the limit of 50 is what ends a scan no image
    fails.  The paths do not depend on when React runs the state
    updaters; the ids do. *)
Theorem discoverHats_longest_prefix :
  let found := discoverHats loads seenBy in
  let k := length found in
  k <= maxIndex
  /\ map h_src found = map localSrc (seq 1 k)
  /\ map h_id found = map (fun i => "local-" +:+ pretty (seenBy i)) (seq 1 k)
  /\ (forall i, 1 <= i <= k -> loads i = true)
  /\ (k < maxIndex -> loads (S k) = false)
  /\ (forall i, 1 <= i -> loads i = false -> k < i)
  /\ (forall fuel, S maxIndex <= fuel ->
        loadNextImage loads seenBy fuel 1 = found).
Proof.
  cbv zeta. unfold discoverHats.
  destruct (loadNextImage_prefix (S maxIndex) 1)
    as (Hbound & Hsrc & Hid & Hall & Hnext); [unfold maxIndex; lia |].
  cbv zeta in *.
  set (k := length (loadNextImage loads seenBy (S maxIndex) 1)) in *.
  split; [lia |]. split; [exact Hsrc |]. split; [exact Hid |].
  split; [intros i Hi; apply Hall; lia |].
  split; [intros Hk; apply (Hnext ltac:(lia) ltac:(lia)) |].
  split.
  - intros i Hi Hfail. destruct (Nat.lt_ge_cases k i) as [Hlt | Hge];
      [exact Hlt |].
    rewrite Hall in Hfail by lia. discriminate.
  - intros fuel Hfuel. apply loadNextImage_fuel; lia.
Qed.

End Discovery.

(** ** From the pointer to the canvas *)

Section CanvasCoordinates.


End CanvasCoordinates.


(** ** A hat whose scale is not a number *)

Section LostHat.

Variable hat : PlacedHat.
Hypothesis hat_scale_NaN : hat_scale hat = NaN.

Lemma mul_NaN_l (a : number) : NaN * a = NaN.
Proof. now destruct a. Qed.

Lemma mul_NaN_r (a : number) : a * NaN = NaN.
Proof. now destruct a. Qed.

Lemma add_NaN_l (a : number) : NaN + a = NaN.
Proof. now destruct a. Qed.

Lemma hitsHat_NaN (loaded : gmap string Image) (x y : number) :
  hitsHat loaded x y hat = false.
Proof.
  unfold hitsHat. destruct (loaded !! hat_src hat) as [img |]; [| reflexivity].
  cbv zeta. rewrite hat_scale_NaN, !mul_NaN_r.
  change (- NaN / Fin 2) with NaN. unfold JS.geb.
  now rewrite leb_NaN_r.
Qed.

Lemma onHandle_NaN (x y r py : number) :
  onHandle x y r (mkPoint NaN py) = false.
Proof.
  unfold onHandle, isPointInCircle. cbn [pt_x pt_y].
  rewrite sub_NaN_r. change (JS.pow2 NaN) with NaN.
  now rewrite add_NaN_l.
Qed.

Lemma corners_NaN (loaded : gmap string Image) (c : Corners)
    (x y r : number) :
  getTransformedCorners loaded hat = Some c ->
  onHandle x y r (tl c) = false /\ onHandle x y r (tr c) = false
  /\ onHandle x y r (br c) = false /\ onHandle x y r (bl c) = false.
Proof.
  unfold getTransformedCorners.
  destruct (loaded !! hat_src hat) as [img |]; [| discriminate].
  cbv zeta. rewrite hat_scale_NaN, !mul_NaN_r.
  change (- NaN / Fin 2) with NaN. change (NaN / Fin 2) with NaN.
  rewrite !mul_NaN_l. rewrite !sub_NaN_l, !add_NaN_l.
  intros [= <-]. cbn [tl tr br bl].
  repeat split; apply onHandle_NaN.
Qed.

Lemma uid_unique (l : list PlacedHat) (a b : PlacedHat) :
  List.NoDup (map hat_uid l) -> In a l -> In b l ->
  hat_uid a = hat_uid b -> a = b.
Proof.
  induction l as [| h l IH]; [intros _ [] |].
  cbn [map]. rewrite List.NoDup_cons_iff. intros [Hout Hrest] Ha Hb Heq.
  destruct Ha as [-> | Ha], Hb as [-> | Hb]; auto.
  - exfalso. apply Hout. rewrite Heq. now apply in_map.
  - exfalso. apply Hout. rewrite <- Heq. now apply in_map.
Qed.

Lemma kept_other (st : EditorState) (other : PlacedHat) :
  outOfGesture hat st -> In other (hats st) -> other <> hat ->
  hat_uid other <> hat_uid hat.
Proof.
  intros (Hin & Hdistinct & _) Hother Hne Heq. apply Hne.
  unfold distinctUids in Hdistinct. rewrite NoDup_ListNoDup in Hdistinct.
  now apply (uid_unique (hats st)).
Qed.

Lemma kept_filter (st : EditorState) (sel : string) :
  In hat (hats st) -> sel <> hat_uid hat ->
  In hat (List.filter (fun h => negb (String.eqb (hat_uid h) sel)) (hats st)).
Proof.
  intros Hin Hne. apply List.filter_In. split; [exact Hin |].
  apply negb_true_iff, String.eqb_neq. congruence.
Qed.

Lemma handleMouseDown_kept (st : EditorState) (e : PointerEvent) :
  outOfGesture hat st -> outOfGesture hat (handleMouseDown st e).
Proof.
  intros Hkept. pose proof Hkept as (Hin & Hdistinct & Hidle).
  split; [| split; [now apply handleMouseDown_distinct |]];
    unfold handleMouseDown;
    (destruct (image st) as [bg |]; [| assumption]); cbv zeta;
    set (x := pt_x (getCanvasCoords e));
    set (y := pt_y (getCanvasCoords e));
    set (r := (BASE_HANDLE_RADIUS * getUiScale e * Fin 1.5));
    (destruct (controlTarget st) as [[target c] |] eqn:Htarget;
     [ destruct (controlTarget_some _ _ _ Htarget)
         as (sel & Hsel & Htruthy & Hfind & Hc);
       rewrite (checkControls_target st x y r sel target c) by assumption;
       apply findHat_some in Hfind as Hfound; destruct Hfound as [Hmem Huid];
       destruct (onHandle x y r (tl c)) eqn:Htl;
       [| destruct (onHandle x y r (tr c)) eqn:Htr;
          [| destruct (onHandle x y r (br c)) eqn:Hbr;
             [| destruct (onHandle x y r (bl c)) eqn:Hbl]]]
     | rewrite checkControls_none
         by (unfold noControlHit; now rewrite Htarget) ]).
  all: try (assert (Hother : target <> hat)
              by (intros ->;
                  destruct (corners_NaN _ _ x y r Hc) as (? & ? & ? & ?);
                  congruence);
            pose proof (kept_other st target Hkept Hmem Hother) as Hne;
            rewrite Huid in Hne).
  all: try match goal with
           | |- context [hitScan ?loaded ?px ?py ?l ?n] =>
               destruct (hitScan loaded px py l n) as [top |] eqn:Hscan;
               [ apply hitScan_some in Hscan as [Htop Hhit];
                 assert (Hdiff : top <> hat)
                   by (intros ->; now rewrite hitsHat_NaN in Hhit);
                 pose proof (kept_other st top Hkept Htop Hdiff) as Hne' |]
           end.
  (* the hat stays *)
  - unfold deleteSelectedHat. rewrite Hsel, Htruthy. cbn [setMode
      setSelectedHatId setHats hats]. now apply kept_filter.
  - exact Hin.
  - exact Hin.
  - unfold toggleMirror. rewrite Hsel. cbn [setHats hats].
    apply in_map_iff. exists hat. split; [| exact Hin].
    destruct (String.eqb (hat_uid hat) sel) eqn:Heq; [| reflexivity].
    apply String.eqb_eq in Heq. congruence.
  - cbn [setStartInteraction setMode setHats setSelectedHatId hats].
    apply in_app_iff. left. now apply kept_filter.
  - exact Hin.
  - cbn [setStartInteraction setMode setHats setSelectedHatId hats].
    apply in_app_iff. left. now apply kept_filter.
  - exact Hin.
  (* no gesture on the hat *)
  - unfold deleteSelectedHat. rewrite Hsel, Htruthy. now cbn.
  - cbn. rewrite Hsel. congruence.
  - cbn. rewrite Hsel. congruence.
  - unfold toggleMirror. rewrite Hsel. cbn. rewrite Hsel. congruence.
  - cbn. congruence.
  - cbn. discriminate.
  - cbn. congruence.
  - cbn. discriminate.
Qed.

Lemma handleMouseMove_kept (st : EditorState) (e : PointerEvent) :
  outOfGesture hat st -> outOfGesture hat (handleMouseMove st e).
Proof.
  intros (Hin & Hdistinct & Hidle).
  split; [| split; [now apply handleMouseMove_distinct |]].
  - unfold handleMouseMove.
    destruct (mode st) eqn:Hmode; [exact Hin | | |];
      (destruct (selectedHatId st) as [sel |] eqn:Hsel; [| exact Hin]);
      (destruct (negb (truthy (Some sel))); [exact Hin |]);
      cbn [setHats hats]; apply in_map_iff; exists hat;
      (split; [| exact Hin]);
      (destruct (String.eqb (hat_uid hat) sel) eqn:Heq; [| reflexivity]);
      apply String.eqb_eq in Heq; exfalso; apply Hidle; congruence.
  - rewrite handleMouseMove_mode.
    replace (selectedHatId (handleMouseMove st e)) with (selectedHatId st);
      [exact Hidle |].
    unfold handleMouseMove. handler_cases; cbn; congruence.
Qed.

(** X23. A hat whose scale has become [NaN] is out of reach of the
    pointer.  Its hit box and its four handles fail every test, so that,
    in a scene with distinct uids and once the gesture is released, no
    sequence of presses, moves and releases removes it, flips it or
    changes its placement: it stays in the list as it is. *)
Theorem hat_without_scale_is_stuck (st : EditorState) (evs : list Event) :
  In hat (hats st) -> distinctUids st -> mode st = NONE ->
  forallb isPointerEvent evs = true ->
  In hat (hats (run st evs))
  /\ (forall loaded x y, hitsHat loaded x y hat = false)
  /\ (forall loaded c x y r,
        getTransformedCorners loaded hat = Some c ->
        onHandle x y r (tl c) = false /\ onHandle x y r (tr c) = false
        /\ onHandle x y r (br c) = false /\ onHandle x y r (bl c) = false).
Proof.
  intros Hin Hdistinct Hmode Hevs.
  split; [| split; [exact hitsHat_NaN | exact corners_NaN]].
  assert (Hkept : outOfGesture hat st)
    by (repeat split; [assumption .. | congruence]).
  clear Hin Hdistinct Hmode. revert st Hkept.
  induction evs as [| ev evs' IH]; intros st Hkept; [apply Hkept |].
  cbn [forallb] in Hevs. apply andb_true_iff in Hevs as [Hev Hrest].
  change (run st (ev :: evs')) with (run (step st ev) evs').
  apply IH; [exact Hrest |].
  destruct ev; try discriminate; cbn [step].
  - now apply handleMouseDown_kept.
  - now apply handleMouseMove_kept.
  - destruct Hkept as (Hin & Hdistinct & _).
    repeat split; [exact Hin | exact Hdistinct |]. now cbn.
Qed.

End LostHat.

Lemma lostScene_session :
  handleMouseUp (run initialState nanSession) = lostScene.
Proof.
  assert (Hrun : run initialState nanSession
                 = handleMouseMove sessionRetargeted
                     (pointerOn 4050 5100 2025 1700)).
  { rewrite <- session_retargeted. unfold nanSession.
    rewrite !run_app. reflexivity. }
  destruct scale_NaN_reachable as (_ & Hhats & _).
  rewrite Hrun in Hhats |- *.
  pose proof (pointer_move_keeps_session sessionRetargeted
                (pointerOn 4050 5100 2025 1700))
    as (Himg & Hsel & Hloaded & Hdrag & _ & Hstart).
  unfold handleMouseUp, lostScene, setMode, setHats.
  rewrite Himg, Hsel, Hloaded, Hdrag, Hstart, Hhats. reflexivity.
Qed.

Lemma hat_without_scale_is_stuck_witness :
  In (withScale lateHat NaN)
    (hats (run lostScene
             [ EvPointerDown (pointerOn 4050 5100 2025 1700);
               EvPointerMove (pointerOn 4050 5100 2100 1800);
               EvPointerUp ]))
  /\ (forall loaded x y, hitsHat loaded x y (withScale lateHat NaN) = false)
  /\ (forall loaded c x y r,
        getTransformedCorners loaded (withScale lateHat NaN) = Some c ->
        onHandle x y r (tl c) = false /\ onHandle x y r (tr c) = false
        /\ onHandle x y r (br c) = false /\ onHandle x y r (bl c) = false).
Proof.
  apply (hat_without_scale_is_stuck (withScale lateHat NaN) eq_refl).
  - now left.
  - apply NoDup_singleton.
  - reflexivity.
  - reflexivity.
Defined.

(** ** A hat added in the middle of a gesture *)

Section GestureCarriesOver.




End GestureCarriesOver.


(** ** The exported picture *)

Section ExportedPicture.

(** X25. What is saved and what is copied is the same picture, and it
    shows the scene: for a scene the editor can reach, over a
    background, the file saved by a download holds the background, every
    placed hat in the order of the list and no controls, and a copy that
    succeeds puts that very picture on the clipboard. *)
Theorem exported_picture_shows_scene (st : EditorState) (w : World)
    (frame : Frame) (bg : Image) :
  reachable st -> canvas w = Some frame -> image st = Some bg ->
  exists picture : Frame,
    downloads (snd (handleDownload st w))
    = downloads w ++ [("christmas-avatar.png", picture)]
    /\ f_backdrop picture = BackgroundImage bg
    /\ map fst (f_hats picture) = hats st
    /\ f_controls picture = None
    /\ forall env : ExportEnv,
         blobEncodes env = true -> clipboardAllows env = true ->
         clipboard (snd (handleCopy st env w)) = Some picture
         /\ downloads (snd (handleCopy st env w)) = downloads w.
Proof.
  intros Hreach Hcanvas Himg. exists (draw st false).
  split; [| split; [| split; [| split]]].
  - unfold handleDownload. rewrite Hcanvas, Himg.
    unfold bind, drawOn, saveAs. rewrite Hcanvas. reflexivity.
  - unfold draw. cbn [f_backdrop]. now rewrite Himg.
  - unfold draw, drawnHats. cbn [f_hats].
    apply drawn_all, (reachable_rastersLoaded st Hreach).
  - apply draw_without_controls.
  - intros env Hblob Hclip. unfold handleCopy. rewrite Hcanvas, Himg.
    unfold bind, tryCatch, drawOn, toBlob, clipboardWrite, throw, ret.
    rewrite Hcanvas. cbn [canvas clipboard downloads].
    rewrite Hblob, Hclip. split; reflexivity.
Qed.

End ExportedPicture.

Lemma exported_picture_shows_scene_witness :
  exists picture : Frame,
    downloads (snd (handleDownload (run initialState pressSession)
                      (shownWorld (run initialState pressSession))))
    = downloads (shownWorld (run initialState pressSession))
      ++ [("christmas-avatar.png", picture)]
    /\ f_backdrop picture = BackgroundImage largeBackground
    /\ map fst (f_hats picture) = hats (run initialState pressSession)
    /\ f_controls picture = None
    /\ forall env : ExportEnv,
         blobEncodes env = true -> clipboardAllows env = true ->
         clipboard (snd (handleCopy (run initialState pressSession) env
                           (shownWorld (run initialState pressSession))))
         = Some picture
         /\ downloads (snd (handleCopy (run initialState pressSession) env
                              (shownWorld (run initialState pressSession))))
            = downloads (shownWorld (run initialState pressSession)).
Proof.
  apply (exported_picture_shows_scene (run initialState pressSession)
           (shownWorld (run initialState pressSession))
           (draw (run initialState pressSession) true) largeBackground).
  - apply run_reachable, reachable_init.
  - reflexivity.
  - now rewrite session_pressed.
Defined.

(** ** Grabbing a hat that was just added *)

Section GrabbingNewHat.

Lemma addHatThen_on_background r st img env bg rx ry :
  seenImage r = Some bg -> img_width bg <> 0%N -> img_width img <> 0%N ->
  randomX env = Fin rx -> randomY env = Fin ry ->
  exists X Y : R,
    addHatThen r img env st
    = setSelectedHatId (Some (newUid env))
        (setHats
           (fun prev =>
              prev
              ++ [mkPlacedHat (h_id (requested r)) (h_name (requested r))
                    (h_src (requested r)) (newUid env) (Fin X) (Fin Y)
                    (Fin (Rmax (IZR (Z.of_N (img_width bg))) 2048 * 0.35
                          / IZR (Z.of_N (img_width img))))
                    (Fin 0) false])
           st).
Proof.
  intros Himg Hbg Hraster Hrx Hry.
  pose proof (getRenderDimensions_fin bg Hbg) as Hdim. cbv zeta in Hdim.
  pose proof (ofN_positive _ Hbg) as Hbgw.
  pose proof (ofN_positive _ Hraster) as Hiw.
  unfold addHatThen. rewrite Himg, Hdim, Hrx, Hry. cbn [dim_width dim_height].
  unfold JS.ofN. cbn [JS.mul JS.sub JS.neg JS.add].
  rewrite !div_fin by lra. cbn [JS.mul JS.sub JS.neg JS.add].
  destruct (0 <? length (seenHats r))%nat; eexists _, _; reflexivity.
Qed.

Lemma findHat_fresh_last (sel : string) (l : list PlacedHat)
    (h : PlacedHat) :
  ~ In sel (map hat_uid l) -> hat_uid h = sel ->
  findHat sel (l ++ [h]) = Some h.
Proof.
  intros Hfresh Huid. unfold findHat.
  induction l as [| a l IH]; cbn [app List.find].
  - now rewrite Huid, String.eqb_refl.
  - cbn [map In] in Hfresh.
    destruct (String.eqb (hat_uid a) sel) eqn:Heq.
    + apply String.eqb_eq in Heq. tauto.
    + apply IH. tauto.
Qed.

Lemma off_handle (r a b : R) :
  (r * r < a * a)%R -> (r * r < a * a + b * b)%R.
Proof. intros Hlt. pose proof (Rle_0_sqr b) as Hb. unfold Rsqr in Hb. lra. Qed.

(** X26. A hat that arrives over the background its add-hat run saw can
    be picked up at its centre.  The run saw the background the scene
    still has, of positive width, and its raster, of positive width, is
    in the cache when the hat arrives.  Then, when the canvas is
    displayed at least 103 pixels wide, a press on the centre of the new
    hat misses its four handles (the hat is 35% of the canvas wide, the
    hit circles are smaller than half of that) and starts a drag of that
    hat: the mode is [DRAG], the baseline is the hat's centre, rotation
    and scale, and the scene is as it is. *)
Theorem arrived_hat_can_be_dragged (r : EffectRun) (st : EditorState)
    (decoded : option Image) (env : AddEnv) (bg img : Image) (rx ry : R) :
  seenImage r = Some bg -> image st = Some bg -> img_width bg <> 0%N ->
  (seenLoaded r !! h_src (requested r) = Some img
   /\ loadedImages st !! h_src (requested r) = Some img)
  \/ (seenLoaded r !! h_src (requested r) = None /\ decoded = Some img) ->
  img_width img <> 0%N ->
  ~ In (newUid env) (map hat_uid (hats st)) ->
  randomX env = Fin rx -> randomY env = Fin ry ->
  let st' := resolveEffect r decoded env st in
  exists newHat,
    hats st' = hats st ++ [newHat]
    /\ hat_uid newHat = newUid env
    /\ forall (e : PointerEvent) (rw : R),
         canvas_width e = dim_width (getRenderDimensions bg) ->
         rect_width e = Fin rw -> (103 <= rw)%R ->
         getCanvasCoords e = mkPoint (hat_x newHat) (hat_y newHat) ->
         handleMouseDown st' e
         = {| image := image st';
              hats := hats st';
              selectedHatId := Some (newUid env);
              loadedImages := loadedImages st';
              isDragging := isDragging st';
              mode := DRAG;
              startInteraction :=
                {| mouseX := hat_x newHat; mouseY := hat_y newHat;
                   startRotation := hat_rotation newHat;
                   startScale := hat_scale newHat;
                   startX := hat_x newHat; startY := hat_y newHat |} |}.
Proof.
  intros Hseen Himg Hbg Hsrc Hraster Hfresh Hrx Hry st'.
  assert (Hadd : exists st1,
            st' = addHatThen r img env st1
            /\ image st1 = image st /\ hats st1 = hats st
            /\ loadedImages st1 !! h_src (requested r) = Some img).
  { unfold st', resolveEffect, loadHatImage.
    destruct Hsrc as [[Hcached Hnow] | [Hmissing ->]].
    - rewrite Hcached. exists st. auto.
    - rewrite Hmissing.
      exists (hatImageOnload (h_src (requested r)) img st).
      repeat split. cbn. apply lookup_insert_eq. }
  destruct Hadd as (st1 & Hst' & Himg1 & Hhats1 & Hloaded1).
  rewrite <- Himg1 in Himg.
  destruct (addHatThen_on_background r st1 img env bg rx ry
              Hseen Hbg Hraster Hrx Hry) as (X & Y & Hshape).
  rewrite Hshape in Hst'. clearbody st'. subst st'.
  pose proof (ofN_positive _ Hbg) as Hbgw.
  pose proof (ofN_positive _ Hraster) as Hiw.
  set (cvsW := Rmax (IZR (Z.of_N (img_width bg))) 2048) in *.
  set (iw := IZR (Z.of_N (img_width img))) in *.
  set (ih := IZR (Z.of_N (img_height img))).
  set (k := (cvsW * 0.35 / iw)%R) in *.
  set (newHat := mkPlacedHat (h_id (requested r)) (h_name (requested r))
                   (h_src (requested r)) (newUid env) (Fin X) (Fin Y) (Fin k)
                   (Fin 0) false).
  assert (HcvsW : (2048 <= cvsW)%R) by apply Rmax_r.
  assert (Hk : (0 < k)%R) by (apply Rdiv_lt_0_compat; lra).
  assert (Hw : (iw * k = 0.35 * cvsW)%R) by (unfold k; field; lra).
  assert (Hih : (0 <= ih)%R) by (apply IZR_le; lia).
  exists newHat.
  cbn [setSelectedHatId setHats hats]. rewrite Hhats1.
  split; [reflexivity |]. split; [reflexivity |].
  intros e rw Hcw Hrw Hwide Hcoords. cbn [newHat hat_x hat_y] in Hcoords.
  set (scene := setSelectedHatId (Some (newUid env))
                  (setHats (fun prev => prev ++ [newHat]) st1)).
  set (c := {| tl := mkPoint (Fin (X - iw * k / 2)) (Fin (Y - ih * k / 2));
               tr := mkPoint (Fin (X + iw * k / 2))
                       (Fin (Y + - (ih * k / 2)));
               br := mkPoint (Fin (X + iw * k / 2)) (Fin (Y + ih * k / 2));
               bl := mkPoint (Fin (X - iw * k / 2))
                       (Fin (Y - - (ih * k / 2)));
               width := Fin (iw * k);
               height := Fin (ih * k) |}).
  assert (Hcorners : getTransformedCorners (loadedImages scene) newHat
                     = Some c).
  { pose proof (getTransformedCorners_fin (loadedImages scene) newHat img
                  X Y 0 k Hloaded1 eq_refl eq_refl eq_refl eq_refl) as Hc.
    cbv zeta in Hc. rewrite upright_offsets in Hc. exact Hc. }
  assert (Htarget : controlTarget scene = Some (newHat, c)).
  { apply (controlTarget_intro scene (newUid env));
      [reflexivity | apply truthy_some, newUid_nonempty | | exact Hcorners].
    cbn [scene setSelectedHatId setHats hats]. rewrite Hhats1.
    now apply findHat_fresh_last. }
  assert (Hradius : hitRadiusOf e = Fin (12 * (cvsW / rw) * 1.5)).
  { unfold hitRadiusOf, handleRadius, BASE_HANDLE_RADIUS, getUiScale.
    rewrite Hcw, Hrw, (getRenderDimensions_fin bg Hbg).
    cbn [dim_width JS.eqb]. fold cvsW.
    destruct (Req_dec_T rw 0) as [Hzero | _]; [lra |].
    rewrite div_fin by lra. reflexivity. }
  set (rad := (12 * (cvsW / rw) * 1.5)%R) in *.
  assert (Hr : (0 <= rad /\ rad < iw * k / 2)%R).
  { pose proof (Rinv_0_lt_compat rw ltac:(lra)) as Hinv.
    assert (Hone : (rw * / rw = 1)%R) by (field; lra).
    unfold rad, Rdiv. set (i := (/ rw)%R) in *. rewrite Hw.
    assert (Hsmall : (103 * i <= 1)%R) by nra.
    split; [apply Rmult_le_pos; [apply Rmult_le_pos |]; nra |].
    nra. }
  assert (Hsq : (rad * rad < iw * k / 2 * (iw * k / 2))%R) by nra.
  assert (Hno : noControlHit scene (Fin X) (Fin Y) (hitRadiusOf e)).
  { unfold noControlHit. rewrite Htarget, Hradius. cbn [c tl tr br bl].
    repeat split; apply onHandle_fin_false, off_handle; nra. }
  assert (Hhit : hitsHat (loadedImages scene) (Fin X) (Fin Y) newHat = true).
  { apply (hitsHat_local _ newHat img X Y 0 k X Y); try reflexivity;
      [exact Hloaded1 |].
    unfold withinHalfExtents, localPoint. cbn [fst snd]. fold iw ih.
    replace (X - X)%R with 0%R by lra. replace (Y - Y)%R with 0%R by lra.
    assert (0 <= ih * k)%R by (apply Rmult_le_pos; lra).
    rewrite !Rmult_0_l, Ropp_0, !Rmult_0_l, Rplus_0_l. lra. }
  fold scene.
  rewrite (press_on_hat scene e bg (hats st) [] newHat);
    rewrite ?Hcoords; cbn [pt_x pt_y]; try assumption.
  - unfold scene, setStartInteraction, setMode, setHats, setSelectedHatId,
      captureStart.
    cbn [image hats selectedHatId loadedImages isDragging mode
         startInteraction newHat hat_uid hat_x hat_y hat_rotation hat_scale].
    f_equal. rewrite Hhats1, List.filter_app.
    rewrite filter_keeps_all.
    + cbn [List.filter hat_uid]. rewrite String.eqb_refl. cbn [negb].
      now rewrite app_nil_r.
    + intros h Hin. apply negb_true_iff, String.eqb_neq. intros Heq.
      apply Hfresh. rewrite <- Heq. now apply in_map.
  - cbn [scene setSelectedHatId setHats hats]. now rewrite Hhats1.
  - intros h [].
Qed.

End GrabbingNewHat.

Lemma arrived_hat_can_be_dragged_witness :
  exists newHat,
    hats (resolveEffect (startEffect selectedScene sampleOverlay) None
            sampleAddEnv selectedScene)
    = hats selectedScene ++ [newHat]
    /\ hat_uid newHat = newUid sampleAddEnv
    /\ forall (e : PointerEvent) (rw : R),
         canvas_width e = dim_width (getRenderDimensions smallBackground) ->
         rect_width e = Fin rw -> (103 <= rw)%R ->
         getCanvasCoords e = mkPoint (hat_x newHat) (hat_y newHat) ->
         handleMouseDown
           (resolveEffect (startEffect selectedScene sampleOverlay) None
              sampleAddEnv selectedScene) e
         = {| image :=
                image (resolveEffect (startEffect selectedScene sampleOverlay)
                         None sampleAddEnv selectedScene);
              hats :=
                hats (resolveEffect (startEffect selectedScene sampleOverlay)
                        None sampleAddEnv selectedScene);
              selectedHatId := Some (newUid sampleAddEnv);
              loadedImages :=
                loadedImages
                  (resolveEffect (startEffect selectedScene sampleOverlay)
                     None sampleAddEnv selectedScene);
              isDragging :=
                isDragging
                  (resolveEffect (startEffect selectedScene sampleOverlay)
                     None sampleAddEnv selectedScene);
              mode := DRAG;
              startInteraction :=
                {| mouseX := hat_x newHat; mouseY := hat_y newHat;
                   startRotation := hat_rotation newHat;
                   startScale := hat_scale newHat;
                   startX := hat_x newHat; startY := hat_y newHat |} |}.
Proof.
  apply (arrived_hat_can_be_dragged
           (startEffect selectedScene sampleOverlay) selectedScene None
           sampleAddEnv smallBackground sampleRaster 0.25 0.75).
  - reflexivity.
  - reflexivity.
  - discriminate.
  - left. split; cbn; apply lookup_insert_eq.
  - discriminate.
  - vm_compute. intros [Heq | []]. discriminate Heq.
  - reflexivity.
  - reflexivity.
Defined.

(** ** The greeting card *)

Section GreetingCard.




End GreetingCard.

(** ** The selected hat is on top *)

Section SelectionOnTop.

Lemma selectionOnTop_same (st st' : EditorState) :
  hats st' = hats st -> selectedHatId st' = selectedHatId st ->
  selectionOnTop st -> selectionOnTop st'.
Proof. unfold selectionOnTop. intros -> ->. auto. Qed.

Lemma selectionOnTop_deselected (st : EditorState) :
  selectedHatId st = None -> selectionOnTop st.
Proof. intros Hnone sel. rewrite Hnone. discriminate. Qed.

Lemma selectionOnTop_map (f : PlacedHat -> PlacedHat) (st : EditorState) :
  (forall h, hat_uid (f h) = hat_uid h) ->
  selectionOnTop st -> selectionOnTop (setHats (map f) st).
Proof.
  intros Hf Htop sel Hsel.
  destruct (Htop sel Hsel) as (below & hat & Hhats & Huid).
  exists (map f below), (f hat). cbn [setHats hats].
  rewrite Hhats, map_app. split; [reflexivity | now rewrite Hf].
Qed.

Lemma processFile_onTop st file :
  selectionOnTop st -> selectionOnTop (processFile st file).
Proof.
  intros Htop. destruct (processFile_cases st file) as [-> | (_ & _ & Hnone)];
    [exact Htop | now apply selectionOnTop_deselected].
Qed.

Lemma addHat_onTop st hatToAdd img env :
  selectionOnTop (addHat st hatToAdd img env).
Proof.
  destruct (addHat_shape st hatToAdd img env) as (hat & Hhats & Huid & Hsel).
  intros sel. rewrite Hsel, Hhats. intros [= <-]. eauto.
Qed.

Lemma handleMouseDown_onTop st e :
  selectionOnTop st -> selectionOnTop (handleMouseDown st e).
Proof.
  intros Htop. unfold handleMouseDown.
  destruct (image st); [| exact Htop]. cbv zeta.
  destruct (checkControls st _ _ _) as [st' |] eqn:Hcontrols.
  - apply checkControls_cases in Hcontrols as [-> | [(hat & m & ->) | ->]].
    + unfold deleteSelectedHat.
      destruct (selectedHatId st) as [sel |] eqn:Hsel; [| exact Htop].
      destruct (truthy (Some sel)); [| exact Htop].
      now apply selectionOnTop_deselected.
    + now apply (selectionOnTop_same st).
    + unfold toggleMirror.
      destruct (selectedHatId st) as [sel |]; [| exact Htop].
      apply selectionOnTop_map; [| exact Htop].
      intros h. now destruct (String.eqb (hat_uid h) sel).
  - destruct (hitScan _ _ _ _ _) as [hat |];
      [| now apply selectionOnTop_deselected].
    intros sel [= <-].
    cbn [setStartInteraction setMode setHats setSelectedHatId hats]. eauto.
Qed.

Lemma handleMouseMove_onTop st e :
  selectionOnTop st -> selectionOnTop (handleMouseMove st e).
Proof.
  intros Htop. unfold handleMouseMove.
  destruct (mode st); [exact Htop | | |];
    (destruct (selectedHatId st) as [sel |] eqn:Hsel; [| exact Htop]);
    (destruct (negb (truthy (Some sel))); [exact Htop |]);
    (apply selectionOnTop_map;
     [ intros h; destruct (negb (String.eqb (hat_uid h) sel));
       auto using moveHat_uid
     | exact Htop ]).
Qed.

(** X28. In every state the editor can reach, the selected hat is the
    last of the list, so it is the one drawn on top of all the others:
    adding a hat and pressing on one both put the hat at the end as they
    select it, and nothing else reorders the list. *)
Theorem selected_hat_on_top (st : EditorState) :
  reachable st -> selectionOnTop st.
Proof.
  induction 1 as [| st ev _ IH]; [intros sel [=] |].
  destruct ev; cbn [step];
    auto using processFile_onTop, handleMouseDown_onTop,
      handleMouseMove_onTop.
  - unfold handleDrop. destruct files as [| file rest];
      [now apply (selectionOnTop_same st) |].
    apply processFile_onTop. now apply (selectionOnTop_same st).
  - unfold addHatEffect.
    destruct (loadHatImage _ _) as [img | src]; [apply addHat_onTop |].
    destruct decoded as [img |]; [apply addHat_onTop | exact IH].
Qed.

End SelectionOnTop.

Lemma selected_hat_on_top_witness :
  selectionOnTop (run initialState pressSession).
Proof.
  apply selected_hat_on_top, run_reachable, reachable_init.
Defined.
